(** * The Jaeger trace exporter of moleculer ([src/tracing/exporters/jaeger.js])

    A shallow embedding of [JaegerTraceExporter]: the tracer registry
    ([getTracer]), the sampler dispatch ([getSampler]), the identifier
    conversion ([convertID]), the tag flattening ([addTags]) and the span
    conversion ([generateJaegerSpan]), with the fragments of JavaScript,
    lodash, Node's [Buffer] and the Jaeger client they rest on. *)

From Stdlib Require Import ZArith QArith String Ascii List Bool Lia DecimalString.
From Stdlib.Strings Require Import Byte.
From stdpp Require Import base option list gmap strings.

Set Warnings "-register-all,-clear-no-such-hyp".
Local Open Scope string_scope.

(** ** JavaScript values *)

Module JS.

(** The values spans, tags and options are made of: the primitives and plain
    mappings (own enumerable string-keyed properties, in enumeration order).
    A number is the rational it denotes; NaN and the infinities are left out. *)
Inductive value : Type :=
| VUndefined
| VNull
| VBool (b : bool)
| VNumber (q : Q)
| VString (s : string)
| VObject (fields : list (string * value)).

(** What a [throw] carries. *)
Inductive exn : Type :=
| TypeError (message : string).

(** A call either returns or throws. *)
Inductive result (A : Type) : Type :=
| Ok (a : A)
| Throw (e : exn).
Arguments Ok {A} a.
Arguments Throw {A} e.

Definition is_Ok {A : Type} (r : result A) : Prop :=
  match r with
  | Ok _ => True
  | Throw _ => False
  end.

Definition bind {A B : Type} (r : result A) (k : A -> result B) : result B :=
  match r with
  | Ok a => k a
  | Throw e => Throw e
  end.

(** ToBoolean: what [if (v)], [v ? _ : _] and [v && _] test. *)
Definition truthy (v : value) : bool :=
  match v with
  | VUndefined | VNull => false
  | VBool b => b
  | VNumber q => negb (Qnum q =? 0)%Z
  | VString s => negb (String.eqb s "")
  | VObject _ => true
  end.

(** [typeof v == "object"]: true of mappings, and of [null]. *)
Definition typeofObject (v : value) : bool :=
  match v with
  | VNull | VObject _ => true
  | _ => false
  end.

(** [v != null]: neither [null] nor [undefined]. *)
Definition notNullish (v : value) : bool :=
  match v with
  | VUndefined | VNull => false
  | _ => true
  end.

(** [v == "lit"] for a string literal: of the values modelled only the very
    string compares equal (a number is compared with the literal read as a
    number, which the literals used here are not). *)
Definition looseEqString (v : value) (lit : string) : bool :=
  match v with
  | VString s => String.eqb s lit
  | _ => false
  end.

(** Own property lookup: the first entry of that key. *)
Fixpoint getOwn {V : Type} (fields : list (string * V)) (key : string) : option V :=
  match fields with
  | [] => None
  | (k, v) :: rest => if String.eqb k key then Some v else getOwn rest key
  end.

(** [key in object]. *)
Definition hasOwn {V : Type} (fields : list (string * V)) (key : string) : bool :=
  match getOwn fields key with
  | Some _ => true
  | None => false
  end.

(** [object[key]] on a mapping: a missing property reads [undefined]. *)
Definition getField (fields : list (string * value)) (key : string) : value :=
  match getOwn fields key with
  | Some v => v
  | None => VUndefined
  end.

(** [object[key] = v]: an existing property keeps its place, a new one goes
    last. (An object enumerates the keys that are array indices ahead of the
    others: the statements on the order of merged keys keep to mappings
    without such keys.) *)
Fixpoint setOwn {V : Type} (fields : list (string * V)) (key : string) (v : V)
  : list (string * V) :=
  match fields with
  | [] => [(key, v)]
  | (k, w) :: rest =>
      if String.eqb k key then (k, v) :: rest else (k, w) :: setOwn rest key v
  end.

(** [v.key]: reading a property of [undefined] or [null] throws; a primitive
    has none of the properties the exporter reads. *)
Definition get (v : value) (key : string) : result value :=
  match v with
  | VUndefined =>
      Throw (TypeError ("Cannot read property '" +:+ key +:+ "' of undefined"))
  | VNull =>
      Throw (TypeError ("Cannot read property '" +:+ key +:+ "' of null"))
  | VObject fields => Ok (getField fields key)
  | _ => Ok VUndefined
  end.

(** [Object.keys(v)]: throws on [null] (and [undefined]). *)
Definition keys (v : value) : result (list string) :=
  match v with
  | VObject fields => Ok (map fst fields)
  | VUndefined | VNull =>
      Throw (TypeError "Cannot convert undefined or null to object")
  | _ => Ok []
  end.

(** Number::toString for the rationals: an integer in decimal, anything else
    as its decimal expansion, cut after 17 fractional digits. (JavaScript
    writes the shortest digits that read back as the number, with an exponent
    from 1e21 on and below 1e-6: the statements that compare the string forms
    of names keep to integers below 2^53.) *)
Definition digitChar (d : Z) : ascii := ascii_of_N (48 + Z.to_N d).

Fixpoint fractionDigits (fuel : nat) (r d : Z) : string :=
  match fuel with
  | O => ""
  | S fuel' =>
      if (r =? 0)%Z then ""
      else String (digitChar (10 * r / d)) (fractionDigits fuel' ((10 * r) mod d)%Z d)
  end.

Definition integerToString (z : Z) : string := NilZero.string_of_int (Z.to_int z).

Definition numberToString (q : Q) : string :=
  let r := Qred q in
  let n := Qnum r in
  let d := Zpos (Qden r) in
  if (d =? 1)%Z then integerToString n
  else (if (n <? 0)%Z then "-" else "")
       +:+ integerToString (Z.abs n / d) +:+ "."
       +:+ fractionDigits 17 (Z.abs n mod d)%Z d.

(** ToString, as a template literal and a property key apply it. *)
Definition toString (v : value) : string :=
  match v with
  | VUndefined => "undefined"
  | VNull => "null"
  | VBool true => "true"
  | VBool false => "false"
  | VNumber q => numberToString q
  | VString s => s
  | VObject _ => "[object Object]"
  end.

(** The method call [v.toString()], with the method that the value
    inherits; a mapping that holds a property [toString] of its own is not
    told apart. *)
Definition callToString (v : value) : result string :=
  match v with
  | VUndefined =>
      Throw (TypeError "Cannot read property 'toString' of undefined")
  | VNull => Throw (TypeError "Cannot read property 'toString' of null")
  | _ => Ok (toString v)
  end.

End JS.

(** ** lodash *)

Module Lodash.
Import JS.

(** [_.isObject]: a mapping ([null] is not one). *)
Definition isObject (v : value) : bool :=
  match v with
  | VObject _ => true
  | _ => false
  end.

(** [assignMergeValue(object, key, value)]: assigns unless the property already
    holds the value; [undefined] is assigned only to create a missing key. *)
Definition assignMergeValue (object : list (string * value)) (key : string)
  (v : value) : list (string * value) :=
  match v with
  | VUndefined => if hasOwn object key then object else setOwn object key VUndefined
  | _ => setOwn object key v
  end.

(** [baseMerge(object, source)] under [customDefaultsMerge], the customizer of
    [_.defaultsDeep]. The library writes into [object] and into the mappings
    nested in it, in place: the result is [object] as the call leaves it. The
    source is only read; a mapping of the source that the destination lacks is
    rebuilt as a new mapping ([initCloneObject] and a recursive merge).

    Per source key: a destination value that is not [undefined] is kept, and
    when both sides are mappings the source fills the destination's mapping
    recursively; a destination value that is [undefined] takes the source's.

    The destination is read by the properties it holds itself. Under a key
    that every object inherits ([toString], [valueOf], ...) the library
    reads the inherited member and leaves the source's property out, and it
    takes the characters of a string source for properties: the statements
    on the merge of tags keep to sources without such keys that are no
    strings. *)
Fixpoint baseMerge (object : list (string * value)) (source : value) {struct source}
  : list (string * value) :=
  match source with
  | VObject sourceFields =>
      (fix each (sfs object : list (string * value)) {struct sfs}
         : list (string * value) :=
         match sfs with
         | [] => object
         | (key, srcValue) :: rest =>
             each rest
               match srcValue with
               | VObject _ =>
                   (* baseMergeDeep *)
                   match getField object key with
                   | VObject objFields =>
                       setOwn object key (VObject (baseMerge objFields srcValue))
                   | VUndefined =>
                       assignMergeValue object key (VObject (baseMerge [] srcValue))
                   | _ => object
                   end
               | _ =>
                   match getField object key with
                   | VUndefined => assignMergeValue object key srcValue
                   | _ => object
                   end
               end
         end) sourceFields object
  | _ => object
  end.

(** One turn of the loop of [baseMerge]: the source's [key], holding
    [srcValue], merged into [object]. *)
Definition mergeKey (object : list (string * value)) (key : string)
  (srcValue : value) : list (string * value) :=
  match srcValue with
  | VObject _ =>
      match getField object key with
      | VObject objFields =>
          setOwn object key (VObject (baseMerge objFields srcValue))
      | VUndefined =>
          assignMergeValue object key (VObject (baseMerge [] srcValue))
      | _ => object
      end
  | _ =>
      match getField object key with
      | VUndefined => assignMergeValue object key srcValue
      | _ => object
      end
  end.

(** [_.defaultsDeep(object, ...sources)]: the sources are merged in from left
    to right; a source that is not a mapping contributes nothing. Returns
    [object], which it has mutated. *)
Definition defaultsDeep (object : list (string * value)) (sources : list value)
  : list (string * value) :=
  fold_left baseMerge sources object.

End Lodash.

(** ** Node's Buffer *)

Module Node.

Definition Buffer : Type := list Byte.byte.

Definition hexDigit (c : ascii) : option N :=
  let n := N_of_ascii c in
  if ((48 <=? n) && (n <=? 57))%N then Some (n - 48)%N
  else if ((97 <=? n) && (n <=? 102))%N then Some (n - 87)%N
  else if ((65 <=? n) && (n <=? 70))%N then Some (n - 55)%N
  else None.

Definition byteOfN (n : N) : Byte.byte :=
  match Byte.of_N n with
  | Some b => b
  | None => Byte.x00
  end.

(** Decoding of the "hex" encoding: two digits a byte, the high nibble first;
    it stops at the first pair that is not two hexadecimal digits, and drops a
    trailing single character. *)
Fixpoint hexDecode (s : string) : Buffer :=
  match s with
  | String a (String b rest) =>
      match hexDigit a, hexDigit b with
      | Some h, Some l => byteOfN (16 * h + l) :: hexDecode rest
      | _, _ => []
      end
  | _ => []
  end.

(** [Buffer.from(s, "hex")]. *)
Definition Buffer_from_hex (s : string) : Buffer := hexDecode s.

End Node.

(** ** JavaScript strings *)

Module JSString.

(** [s.replace(/-/g, "")]: every hyphen removed. *)
Fixpoint removeHyphens (s : string) : string :=
  match s with
  | EmptyString => EmptyString
  | String c rest =>
      if Ascii.eqb c "-"%char then removeHyphens rest
      else String c (removeHyphens rest)
  end.

(** [s.substring(0, n)]. *)
Definition prefix (n : nat) (s : string) : string := String.substring 0 n s.

End JSString.

(** ** The Jaeger client and opentracing *)

(** The client is a collaborator of the exporter. It is modelled by what the
    exporter hands to it: constructors record their arguments, a span records
    the tags set on it. The client's own checks of these arguments, its
    sampling decisions and its reporting are not part of the model. *)
Module Jaeger.
Import JS.

(** A sampler, by the constructor that built it and the arguments it got. *)
Inductive Sampler : Type :=
| CallerSampler (name : string)
| RateLimitingSampler (maxTracesPerSecond initBalance : value)
| ProbabilisticSampler (samplingRate : value)
| GuaranteedThroughputSampler (lowerBound samplingRate : value)
| RemoteControlledSampler (serviceName options : value)
| ConstSampler (decision : value).

Record UDPSender : Type := { host : value; port : value }.

Inductive Reporter : Type :=
| RemoteReporter (sender : UDPSender).

(** [new Jaeger.Tracer(serviceName, reporter, sampler, options)]. [identity]
    tells the instances apart: [===] on two tracers compares it. *)
Record Tracer : Type := {
  identity : nat;
  serviceName : value;
  reporter : Reporter;
  sampler : Sampler;
  options : value
}.

(** [new Jaeger.SpanContext(traceId, spanId, parentId, traceIdStr, spanIdStr,
    parentIdStr, flags, baggage, debugId)]; [None] is [null]. *)
Record SpanContext : Type := {
  traceId : option Node.Buffer;
  spanId : option Node.Buffer;
  parentId : option Node.Buffer;
  traceIdStr : option string;
  spanIdStr : option string;
  parentIdStr : option string;
  flags : Z;
  baggage : list (string * value);
  debugId : string
}.

(** The span a tracer hands out: what it was started with, the tags set on it
    in the order they were set, its own context and, once finished, the end
    time. *)
Record Span : Type := {
  tracer : Tracer;
  operationName : value;
  startTime : value;
  childOf : option SpanContext;
  tags : list (string * value);
  context : SpanContext;
  finished : option value
}.

(** [tracer.startSpan(name, { startTime, childOf, tags })]. The client creates
    the span's own context (generated or inherited identifiers): [own]. The
    entries of the [tags] mapping become the span's first tags. *)
Definition startSpan (t : Tracer) (own : SpanContext) (name start : value)
  (parent : option SpanContext) (userTags : value) : Span :=
  {| tracer := t;
     operationName := name;
     startTime := start;
     childOf := parent;
     tags := match userTags with VObject fields => fields | _ => [] end;
     context := own;
     finished := None |}.

(** [span.setTag(key, value)]. *)
Definition setTag (s : Span) (key : string) (v : value) : Span :=
  {| tracer := tracer s;
     operationName := operationName s;
     startTime := startTime s;
     childOf := childOf s;
     tags := tags s ++ [(key, v)];
     context := context s;
     finished := finished s |}.

(** Several [setTag] in a row. *)
Definition setTags (s : Span) (added : list (string * value)) : Span :=
  {| tracer := tracer s;
     operationName := operationName s;
     startTime := startTime s;
     childOf := childOf s;
     tags := tags s ++ added;
     context := context s;
     finished := finished s |}.

(** [sc.traceId = t; sc.spanId = i] on [sc = span.context()], the span's own
    context object. *)
Definition setContextIds (s : Span) (t i : option Node.Buffer) : Span :=
  {| tracer := tracer s;
     operationName := operationName s;
     startTime := startTime s;
     childOf := childOf s;
     tags := tags s;
     context :=
       {| traceId := t;
          spanId := i;
          parentId := parentId (context s);
          traceIdStr := traceIdStr (context s);
          spanIdStr := spanIdStr (context s);
          parentIdStr := parentIdStr (context s);
          flags := flags (context s);
          baggage := baggage (context s);
          debugId := debugId (context s) |};
     finished := finished s |}.

(** [span.finish(endTime)]. *)
Definition finish (s : Span) (endTime : value) : Span :=
  {| tracer := tracer s;
     operationName := operationName s;
     startTime := startTime s;
     childOf := childOf s;
     tags := tags s;
     context := context s;
     finished := Some endTime |}.

(** [Jaeger.opentracing.Tags]. *)
Definition SPAN_KIND : string := "span.kind".
Definition SPAN_KIND_RPC_SERVER : string := "server".
Definition ERROR : string := "error".

End Jaeger.

(** ** The exporter's data *)

Import JS.

(** The span of the internal tracer that is handed to the exporter. *)
Module Span.
Record t : Type := {
  id : value;
  traceID : value;
  parentID : value;
  name : value;
  service : value;
  tags : value;
  startTime : value;
  endTime : value;
  error : value
}.

Definition withError (s : t) (v : value) : t :=
  {| id := id s; traceID := traceID s; parentID := parentID s; name := name s;
     service := service s; tags := tags s; startTime := startTime s;
     endTime := endTime s; error := v |}.

Definition withService (s : t) (v : value) : t :=
  {| id := id s; traceID := traceID s; parentID := parentID s; name := name s;
     service := v; tags := tags s; startTime := startTime s;
     endTime := endTime s; error := error s |}.
End Span.

(** [this.opts], as the constructor leaves it. *)
Module Opts.

(** [opts.sampler]: a function (the sampler itself) or a configuration. *)
Inductive SamplerOption : Type :=
| SamplerFunction (name : string)
| SamplerConfig (config : value).

(** [opts.defaultTags]: a function, given by what it returns when [init] calls
    it, or a static value. *)
Inductive DefaultTagsOption : Type :=
| TagsFunction (returns : value)
| TagsValue (v : value).

Record t : Type := {
  host : value;
  port : value;
  sampler : SamplerOption;
  tracerOptions : value;
  defaultTags : DefaultTagsOption
}.
End Opts.

(** The exporter instance: [this.opts], [this.defaultTags], [this.tracers] (a
    plain object used as a map from property keys to tracers; the properties
    that every object inherits, such as [constructor], are not modelled), and
    the number of tracer objects created so far, which is the identity of the
    next. *)
Record Exporter : Type := {
  opts : Opts.t;
  defaultTags : value;
  tracers : gmap string Jaeger.Tracer;
  allocated : nat
}.

(** The methods inherited from [BaseTraceExporter] ([./base]). *)
Class BaseTraceExporter : Type := {
  flattenTags : value -> value
}.

(** Modelled from the spec: [flattenTags] of the base exporter, the
    TagFlattener of section 4.3: a scalar is emitted under the current dotted
    path, a nested mapping is entered key by key with [.<key>] appended to the
    path; the result is one mapping from paths to scalars. *)
Fixpoint flattenInto (res : list (string * value)) (path : string) (v : value)
  {struct v} : list (string * value) :=
  match v with
  | VObject fields =>
      (fix each (fs res : list (string * value)) {struct fs} :=
         match fs with
         | [] => res
         | (k, child) :: rest => each rest (flattenInto res (path +:+ "." +:+ k) child)
         end) fields res
  | _ => setOwn res path v
  end.

(** Modelled from the spec: [flattenTags(obj)] called without a prefix, every
    top-level key starting a path. *)
Definition specFlattenTags (v : value) : value :=
  match v with
  | VObject fields =>
      VObject (fold_left (fun res kv => flattenInto res (fst kv) (snd kv)) fields [])
  | _ => v
  end.

Definition specBase : BaseTraceExporter := {| flattenTags := specFlattenTags |}.

(** ** The exporter's methods *)

Notation "'do' x <- e ;; k" := (JS.bind e (fun x => k))
  (at level 10, x name, e at level 99, k at level 200, only parsing).

Section JaegerTraceExporter.
Context `{BaseTraceExporter}.

(** The constructor, from the merged options: no tracer yet, [defaultTags]
    unset until [init]. *)
Definition construct (o : Opts.t) : Exporter :=
  {| opts := o; defaultTags := VUndefined; tracers := ∅; allocated := 0 |}.

(** [init(tracer)]. *)
Definition init (this : Exporter) : Exporter :=
  let tags :=
    match Opts.defaultTags (opts this) with
    | Opts.TagsFunction returns => returns
    | Opts.TagsValue v => v
    end in
  {| opts := opts this;
     defaultTags := if truthy tags then flattenTags tags else tags;
     tracers := tracers this;
     allocated := allocated this |}.

(** [getReporter()]. *)
Definition getReporter (this : Exporter) : Jaeger.Reporter :=
  Jaeger.RemoteReporter
    {| Jaeger.host := Opts.host (opts this); Jaeger.port := Opts.port (opts this) |}.

(** [getSampler(serviceName)]. *)
Definition getSampler (this : Exporter) (serviceName : value)
  : result Jaeger.Sampler :=
  match Opts.sampler (opts this) with
  | Opts.SamplerFunction f => Ok (Jaeger.CallerSampler f)
  | Opts.SamplerConfig sampler =>
      do type <- get sampler "type" ;;
      if looseEqString type "RateLimiting" then
        do options <- get sampler "options" ;;
        do maxTracesPerSecond <- get options "maxTracesPerSecond" ;;
        do initBalance <- get options "initBalance" ;;
        Ok (Jaeger.RateLimitingSampler maxTracesPerSecond initBalance)
      else if looseEqString type "Probabilistic" then
        do options <- get sampler "options" ;;
        do samplingRate <- get options "samplingRate" ;;
        Ok (Jaeger.ProbabilisticSampler samplingRate)
      else if looseEqString type "GuaranteedThroughput" then
        do options <- get sampler "options" ;;
        do lowerBound <- get options "lowerBound" ;;
        do samplingRate <- get options "samplingRate" ;;
        Ok (Jaeger.GuaranteedThroughputSampler lowerBound samplingRate)
      else if looseEqString type "RemoteControlled" then
        do options <- get sampler "options" ;;
        Ok (Jaeger.RemoteControlledSampler serviceName options)
      else
        do options <- get sampler "options" ;;
        if truthy options then
          do decision <- get options "decision" ;;
          Ok (Jaeger.ConstSampler
                (if notNullish decision then decision else VNumber 1))
        else Ok (Jaeger.ConstSampler (VNumber 1))
  end.

(** [getTracer(serviceName)]. [this.tracers[serviceName]] reads the property
    whose key is the name converted to a string; a stored tracer is an object,
    hence truthy. [getSampler] is called without an argument: its
    [serviceName] is [undefined]. Under a key that every object inherits the
    code reads the inherited member and creates nothing; the registry is
    modelled for the other keys. What [new Jaeger.Tracer] may reject is the
    client's matter. *)
Definition getTracer (serviceName : value) (this : Exporter)
  : result Jaeger.Tracer * Exporter :=
  match tracers this !! toString serviceName with
  | Some tracer => (Ok tracer, this)
  | None =>
      match getSampler this VUndefined with
      | Throw e => (Throw e, this)
      | Ok sampler =>
          let reporter := getReporter this in
          let tracer :=
            {| Jaeger.identity := allocated this;
               Jaeger.serviceName := serviceName;
               Jaeger.reporter := reporter;
               Jaeger.sampler := sampler;
               Jaeger.options := Opts.tracerOptions (opts this) |} in
          (Ok tracer,
           {| opts := opts this;
              defaultTags := defaultTags this;
              tracers := <[toString serviceName := tracer]> (tracers this);
              allocated := S (allocated this) |})
      end
  end.

(** [addTags(span, key, value, prefix)]; [prefix] is [None] when the argument
    is left out. [typeof value == "object"] holds of a mapping and of [null],
    on which [Object.keys] throws. [value[k]] for [k] of [Object.keys(value)] is
    the value listed with [k]. *)
Fixpoint addTags (span : Jaeger.Span) (key : string) (v : value)
  (prefix : option string) {struct v} : result Jaeger.Span :=
  let name :=
    match prefix with
    | Some p => if truthy (VString p) then p +:+ "." +:+ key else key
    | None => key
    end in
  match v with
  | VObject fields =>
      (fix forEach (fs : list (string * value)) (span : Jaeger.Span) {struct fs}
         : result Jaeger.Span :=
         match fs with
         | [] => Ok span
         | (k, child) :: rest =>
             match addTags span k child (Some name) with
             | Ok span' => forEach rest span'
             | Throw e => Throw e
             end
         end) fields span
  | VNull => Throw (TypeError "Cannot convert undefined or null to object")
  | _ => Ok (Jaeger.setTag span name v)
  end.

(** [convertID(id)]; the result [None] is [null]. A truthy [id] that is not a
    string has no [replace] method. *)
Definition convertID (id : value) : result (option Node.Buffer) :=
  if truthy id then
    match id with
    | VString s =>
        Ok (Some (Node.Buffer_from_hex
                    (JSString.prefix 16 (JSString.removeHyphens s))))
    | _ => Throw (TypeError "id.replace is not a function")
    end
  else Ok None.

(** Line 147: [span.service ? span.service.name : null]. *)
Definition serviceNameOf (span : Span.t) : result value :=
  if truthy (Span.service span) then get (Span.service span) "name"
  else Ok VNull.

(** Lines 150-163: the parent context, [None] when [parentCtx] stays
    [undefined]. *)
Definition parentContext (span : Span.t) : result (option Jaeger.SpanContext) :=
  if truthy (Span.parentID span) then
    do traceId <- convertID (Span.traceID span) ;;
    do spanId <- convertID (Span.parentID span) ;;
    Ok (Some {| Jaeger.traceId := traceId;
                Jaeger.spanId := spanId;
                Jaeger.parentId := None;
                Jaeger.traceIdStr := None;
                Jaeger.spanIdStr := None;
                Jaeger.parentIdStr := None;
                Jaeger.flags := 1;
                Jaeger.baggage := [];
                Jaeger.debugId := "" |})
  else Ok None.

(** Lines 168-170: [_.defaultsDeep({ service: span.service }, span.tags,
    this.defaultTags)], the mapping handed to [flattenTags]. *)
Definition mergedTags (this : Exporter) (span : Span.t) : list (string * value) :=
  Lodash.defaultsDeep [("service", Span.service span)]
    [Span.tags span; defaultTags this].

(** The input span after the merge. The object literal of line 168 is new, but
    its [service] property is the span's own service descriptor, not a copy,
    and [_.defaultsDeep] writes into the mappings of its destination in place:
    what the merge leaves under [service] is what [span.service] holds from
    then on. A [service] that is no mapping is not written to. *)
Definition spanAfterMerge (this : Exporter) (span : Span.t) : Span.t :=
  if Lodash.isObject (Span.service span)
  then Span.withService span (getField (mergedTags this span) "service")
  else span.

(** Lines 180-192: the tags of [span.error]. *)
Definition addErrorTags (jaegerSpan : Jaeger.Span) (error : value)
  : result Jaeger.Span :=
  if truthy error then
    do jaegerSpan <- addTags jaegerSpan Jaeger.ERROR (VBool true) None ;;
    do name <- get error "name" ;;
    do jaegerSpan <- addTags jaegerSpan "error.name" name None ;;
    do message <- get error "message" ;;
    do jaegerSpan <- addTags jaegerSpan "error.message" message None ;;
    do type <- get error "type" ;;
    do jaegerSpan <- addTags jaegerSpan "error.type" type None ;;
    do code <- get error "code" ;;
    do jaegerSpan <- addTags jaegerSpan "error.code" code None ;;
    do data <- get error "data" ;;
    do jaegerSpan <-
      (if truthy data then addTags jaegerSpan "error.data" data None
       else Ok jaegerSpan) ;;
    do stack <- get error "stack" ;;
    if truthy stack then
      do text <- callToString stack ;;
      addTags jaegerSpan "error.stack" (VString text) None
    else Ok jaegerSpan
  else Ok jaegerSpan.

(** Lines 173-196, on the span that [startSpan] returned. *)
Definition finishJaegerSpan (span : Span.t) (serviceName : value)
  (jaegerSpan : Jaeger.Span) : result Jaeger.Span :=
  do jaegerSpan <- addTags jaegerSpan "service" serviceName None ;;
  do jaegerSpan <- addTags jaegerSpan Jaeger.SPAN_KIND
                  (VString Jaeger.SPAN_KIND_RPC_SERVER) None ;;
  do traceId <- convertID (Span.traceID span) ;;
  do spanId <- convertID (Span.id span) ;;
  let jaegerSpan := Jaeger.setContextIds jaegerSpan traceId spanId in
  do jaegerSpan <- addErrorTags jaegerSpan (Span.error span) ;;
  Ok (Jaeger.finish jaegerSpan (Span.endTime span)).

(** [generateJaegerSpan(span)]. [own] is the context the client gives the new
    span. Besides what the call returns or throws, the result holds the input
    span and the exporter as the call leaves them. The service name handed to
    [addTags] is the value read at line 147: a name that is itself a mapping
    is shared with the service descriptor, and the merge of line 168 may have
    written into it by then; the statements on the [service] tag keep to
    names that are no mappings. *)
Definition generateJaegerSpan (own : Jaeger.SpanContext) (span : Span.t)
  (this : Exporter) : result Jaeger.Span * (Span.t * Exporter) :=
  match serviceNameOf span with
  | Throw e => (Throw e, (span, this))
  | Ok serviceName =>
      match getTracer serviceName this with
      | (Throw e, this) => (Throw e, (span, this))
      | (Ok tracer, this) =>
          match parentContext span with
          | Throw e => (Throw e, (span, this))
          | Ok parentCtx =>
              let jaegerSpan :=
                Jaeger.startSpan tracer own (Span.name span)
                  (Span.startTime span) parentCtx
                  (flattenTags (VObject (mergedTags this span))) in
              (finishJaegerSpan span serviceName jaegerSpan,
               (spanAfterMerge this span, this))
          end
      end
  end.

(** [finishSpan(span)]: the result is dropped. *)
Definition finishSpan (own : Jaeger.SpanContext) (span : Span.t)
  (this : Exporter) : result unit * (Span.t * Exporter) :=
  match generateJaegerSpan own span this with
  | (Ok _, after) => (Ok tt, after)
  | (Throw e, after) => (Throw e, after)
  end.

End JaegerTraceExporter.

(** ** The merge on shared objects *)

(** JavaScript objects are shared by reference. This module runs the merge of
    lodash on a heap of objects, address by address, to follow what it writes
    to an object that the span and the destination of the merge share. *)
Module Heap.

(** What a variable or a property holds: a primitive, or the address of an
    object. *)
Inductive ref : Type :=
| RUndefined
| RNull
| RBool (b : bool)
| RNumber (q : Q)
| RString (s : string)
| RObject (address : nat).

(** The objects, by address. *)
Abbreviation heap := (list (list (string * ref))).

Definition read (h : heap) (address : nat) : list (string * ref) :=
  match h !! address with
  | Some object => object
  | None => []
  end.

Definition write (h : heap) (address : nat) (object : list (string * ref))
  : heap :=
  <[address := object]> h.

(** A new object, at the next address. *)
Definition new (h : heap) (object : list (string * ref)) : nat * heap :=
  (length h, (h ++ [object])%list).

Definition getField (fields : list (string * ref)) (key : string) : ref :=
  match getOwn fields key with
  | Some r => r
  | None => RUndefined
  end.

(** [stack.get(srcValue)]: the destination a source is being merged into. *)
Fixpoint stacked (stack : list (nat * nat)) (source : nat) : option nat :=
  match stack with
  | [] => None
  | (src, dst) :: rest => if Nat.eqb src source then Some dst else stacked rest source
  end.

(** [assignMergeValue(object, key, value)]; assigning the value that the
    property holds already changes nothing and is not told apart. *)
Definition assignMergeValue (h : heap) (object : nat) (key : string) (v : ref)
  : heap :=
  match v with
  | RUndefined =>
      if hasOwn (read h object) key then h
      else write h object (setOwn (read h object) key RUndefined)
  | _ => write h object (setOwn (read h object) key v)
  end.

(** One turn of the loop of [baseMerge], with [baseMergeDeep] and the
    customizer in place: the source's value under [key] is read and merged
    into [object]. [merge] is [baseMerge] for the nested mappings; [stack]
    maps the sources being merged to their destinations. *)
Definition mergeKey (merge : list (nat * nat) -> heap -> nat -> nat -> option heap)
  (stack : list (nat * nat)) (h : heap) (object source : nat) (key : string)
  : option heap :=
  match getField (read h source) key with
  | RObject src =>
      match stacked stack src with
      | Some dst => Some (assignMergeValue h object key (RObject dst))
      | None =>
          match getField (read h object) key with
          | RObject obj => merge ((src, obj) :: stack) h obj src
          | RUndefined =>
              let (clone, h) := new h [] in
              match merge ((src, clone) :: stack) h clone src with
              | Some h => Some (assignMergeValue h object key (RObject clone))
              | None => None
              end
          | _ => Some h
          end
      end
  | srcValue =>
      match getField (read h object) key with
      | RUndefined => Some (assignMergeValue h object key srcValue)
      | _ => Some h
      end
  end.

(** [baseMerge(object, source, srcIndex, customDefaultsMerge, stack)]: the
    keys of the source are taken first, then merged in turn. [None]: out of
    fuel. *)
Fixpoint baseMerge (fuel : nat) (stack : list (nat * nat)) (h : heap)
  (object source : nat) {struct fuel} : option heap :=
  match fuel with
  | O => None
  | S fuel' =>
      if Nat.eqb object source then Some h
      else
        fold_left
          (fun (state : option heap) (key : string) =>
             match state with
             | Some h => mergeKey (baseMerge fuel') stack h object source key
             | None => None
             end)
          (map fst (read h source)) (Some h)
  end.

(** [_.defaultsDeep(object, ...sources)] on the heap. *)
Definition defaultsDeep (fuel : nat) (h : heap) (object : nat)
  (sources : list ref) : option heap :=
  fold_left
    (fun (state : option heap) (source : ref) =>
       match state, source with
       | Some h, RObject src => baseMerge fuel [] h object src
       | _, _ => state
       end)
    sources (Some h).

(** A value laid out in the heap, a new object for each mapping. *)
Fixpoint store (h : heap) (v : value) {struct v} : ref * heap :=
  match v with
  | VUndefined => (RUndefined, h)
  | VNull => (RNull, h)
  | VBool b => (RBool b, h)
  | VNumber q => (RNumber q, h)
  | VString s => (RString s, h)
  | VObject fields =>
      let (entries, h) :=
        (fix each (fs : list (string * value)) (h : heap)
           : list (string * ref) * heap :=
           match fs with
           | [] => ([], h)
           | (k, child) :: rest =>
               let (r, h) := store h child in
               let (rs, h) := each rest h in
               ((k, r) :: rs, h)
           end) fields h in
      let (address, h) := new h entries in
      (RObject address, h)
  end.

(** The value that a reference stands for in the heap. [None]: out of fuel. *)
Fixpoint load (fuel : nat) (h : heap) (r : ref) {struct fuel} : option value :=
  match r with
  | RUndefined => Some VUndefined
  | RNull => Some VNull
  | RBool b => Some (VBool b)
  | RNumber q => Some (VNumber q)
  | RString s => Some (VString s)
  | RObject address =>
      match fuel with
      | O => None
      | S fuel' =>
          option_map VObject
            (fold_right
               (fun (entry : string * ref) (loaded : option (list (string * value))) =>
                  match load fuel' h (snd entry), loaded with
                  | Some v, Some fields => Some ((fst entry, v) :: fields)
                  | _, _ => None
                  end)
               (Some []) (read h address))
      end
  end.

(** Lines 168-170 on the heap: the objects of [span.service], [span.tags] and
    [this.defaultTags] are laid out, the object literal [{service:
    span.service}] is created holding the reference to the service
    descriptor, the merge runs, and the three values are read back: the
    merged tags, [span.service] and [span.tags] as the merge leaves them. *)
Definition mergeTags (fuel : nat) (service tags defaults : value)
  : option (value * value * value) :=
  let (serviceRef, h) := store [] service in
  let (tagsRef, h) := store h tags in
  let (defaultsRef, h) := store h defaults in
  let (literal, h) := new h [("service", serviceRef)] in
  match defaultsDeep fuel h literal [tagsRef; defaultsRef] with
  | Some h =>
      match load fuel h (RObject literal), load fuel h serviceRef,
            load fuel h tagsRef with
      | Some merged, Some service', Some tags' => Some (merged, service', tags')
      | _, _, _ => None
      end
  | None => None
  end.

End Heap.

(** ** Vocabulary of the statements *)

(** A scalar: a value that is neither a mapping nor [undefined]. *)
Definition definedScalar (v : value) : Prop :=
  v <> VUndefined /\ Lodash.isObject v = false.

(** [kept old new]: [new] holds all that [old] holds. An [undefined] is kept
    by anything, a scalar by itself only, and a mapping by a mapping that
    keeps each of its properties. *)
Inductive kept : value -> value -> Prop :=
| kept_undefined (v : value) : kept VUndefined v
| kept_scalar (v : value) : definedScalar v -> kept v v
| kept_object (old new : list (string * value)) :
    (forall key, kept (getField old key) (getField new key)) ->
    kept (VObject old) (VObject new).

(** The characters of an identifier that [convertID] decodes: the first 16
    of those that are no hyphen. *)
Definition identifierDigits (s : string) : list ascii :=
  take 16 (List.filter (fun c => negb (Ascii.eqb c "-"%char))
             (list_ascii_of_string s)).

(** The number that hexadecimal digits denote, the most significant first;
    [None] when a character is no hexadecimal digit. *)
Fixpoint hexNumberFrom (acc : N) (digits : list ascii) : option N :=
  match digits with
  | [] => Some acc
  | c :: rest =>
      match Node.hexDigit c with
      | Some d => hexNumberFrom (16 * acc + d) rest
      | None => None
      end
  end.

Definition hexNumber (digits : list ascii) : option N := hexNumberFrom 0 digits.

(** The number that bytes denote, read big-endian. *)
Definition bigEndianFrom (acc : N) (bytes : Node.Buffer) : N :=
  fold_left (fun n b => (256 * n + Byte.to_N b)%N) bytes acc.

Definition bigEndian (bytes : Node.Buffer) : N := bigEndianFrom 0 bytes.

(** The sampler types that [getSampler] tells apart from the default. *)
Definition knownSamplerTypes : list string :=
  ["RateLimiting"; "Probabilistic"; "GuaranteedThroughput"; "RemoteControlled"].

(** No [decision] option is given: [options] is no mapping, or its [decision]
    is [undefined] or [null]. *)
Definition noDecision (options : value) : Prop :=
  match options with
  | VObject fields => notNullish (getField fields "decision") = false
  | _ => True
  end.

(** The exporters that arise: from the constructor, by [init], [getTracer]
    and [generateJaegerSpan], whether they return or throw. *)
Inductive reachable `{BaseTraceExporter} : Exporter -> Prop :=
| reachable_construct (o : Opts.t) : reachable (construct o)
| reachable_init (this : Exporter) : reachable this -> reachable (init this)
| reachable_getTracer (this this' : Exporter) (serviceName : value)
    (r : result Jaeger.Tracer) :
    reachable this ->
    getTracer serviceName this = (r, this') ->
    reachable this'
| reachable_generateJaegerSpan (this this' : Exporter)
    (own : Jaeger.SpanContext) (span span' : Span.t) (r : result Jaeger.Span) :
    reachable this ->
    generateJaegerSpan own span this = (r, (span', this')) ->
    reachable this'.

(** The registry holds tracers created earlier, no instance under two keys. *)
Definition registryOK (this : Exporter) : Prop :=
  (forall key tracer,
     tracers this !! key = Some tracer ->
     Jaeger.identity tracer < allocated this)
  /\ (forall key key' tracer tracer',
        tracers this !! key = Some tracer ->
        tracers this !! key' = Some tracer' ->
        Jaeger.identity tracer = Jaeger.identity tracer' ->
        key = key').

(** The dotted path of [key] under a path: [.<key>] appended to it, or the key
    alone where there is no path yet. *)
Definition dottedPath (path : option string) (key : string) : string :=
  match path with
  | Some p => p +:+ "." +:+ key
  | None => key
  end.

(** The leaves of a value under a dotted path, in enumeration order: a
    scalar is the one entry at the path, a mapping gives the leaves of each of
    its properties under the path extended by the property's key. *)
Fixpoint leaves (path : string) (v : value) {struct v} : list (string * value) :=
  match v with
  | VObject fields =>
      (fix each (fs : list (string * value)) : list (string * value) :=
         match fs with
         | [] => []
         | (k, child) :: rest =>
             (leaves (dottedPath (Some path) k) child ++ each rest)%list
         end) fields
  | _ => [(path, v)]
  end.

(** No [null] in the value, at any depth. *)
Fixpoint nullFree (v : value) : bool :=
  match v with
  | VNull => false
  | VObject fields =>
      (fix all (fs : list (string * value)) : bool :=
         match fs with
         | [] => true
         | (_, child) :: rest => nullFree child && all rest
         end) fields
  | _ => true
  end.

(** The name [addTags] computes: the dotted path, unless the prefix is the
    empty string. *)
Definition tagName (prefix : option string) (key : string) : string :=
  match prefix with
  | Some p => if truthy (VString p) then p +:+ "." +:+ key else key
  | None => key
  end.

(** The tags of an error, in the order they are set: [error], its name,
    message, type and code; the leaves of its data under [error.data] when the
    data is truthy; its stack as a string when the stack is truthy. *)
Definition errorTagsOf (error : list (string * value)) : list (string * value) :=
  [(Jaeger.ERROR, VBool true);
   ("error.name", getField error "name");
   ("error.message", getField error "message");
   ("error.type", getField error "type");
   ("error.code", getField error "code")]
  ++ (if truthy (getField error "data")
      then leaves "error.data" (getField error "data") else [])
  ++ (if truthy (getField error "stack")
      then [("error.stack", VString (toString (getField error "stack")))]
      else []).

(** An identifier that [convertID] accepts: a string, or a falsy value. *)
Definition convertibleID (id : value) : bool :=
  match id with
  | VString _ => true
  | _ => negb (truthy id)
  end.

(** An error that the error block renders: its name, message, type and code
    hold no [null], nor does its data when the data is truthy. *)
Definition renderable (error : value) : bool :=
  match error with
  | VObject fields =>
      nullFree (getField fields "name")
      && nullFree (getField fields "message")
      && nullFree (getField fields "type")
      && nullFree (getField fields "code")
      && (negb (truthy (getField fields "data"))
          || nullFree (getField fields "data"))
  | _ => true
  end.

(** A span that [generateJaegerSpan] converts without throwing: it has a
    service whose name holds no [null]; the tracer of the service exists or
    can be created; its identifiers are convertible; its error is
    renderable. *)
Definition convertible (this : Exporter) (span : Span.t) : Prop :=
  exists serviceName,
    truthy (Span.service span) = true
    /\ get (Span.service span) "name" = Ok serviceName
    /\ nullFree serviceName = true
    /\ (tracers this !! toString serviceName = None ->
        is_Ok (getSampler this VUndefined))
    /\ convertibleID (Span.traceID span) = true
    /\ convertibleID (Span.parentID span) = true
    /\ convertibleID (Span.id span) = true
    /\ renderable (Span.error span) = true.

(** The nesting depth of a value: 0 for a primitive. *)
Fixpoint depth (v : value) : nat :=
  match v with
  | VObject fields =>
      S ((fix deepest (fs : list (string * value)) : nat :=
            match fs with
            | [] => 0
            | (_, child) :: rest => Nat.max (depth child) (deepest rest)
            end) fields)
  | _ => 0
  end.

(** No mapping of the value lists a key twice. *)
Fixpoint uniqueKeys (v : value) : Prop :=
  match v with
  | VObject fields =>
      NoDup (map fst fields)
      /\ (fix all (fs : list (string * value)) : Prop :=
            match fs with
            | [] => True
            | (_, child) :: rest => uniqueKeys child /\ all rest
            end) fields
  | _ => True
  end.

(** [represents h r v foot]: in the heap [h] the reference [r] stands for the
    value [v], as a tree: the objects it is made of are those at the addresses
    [foot], each reached once. *)
Inductive represents (h : Heap.heap) : Heap.ref -> value -> gset nat -> Prop :=
| represents_undefined : represents h Heap.RUndefined VUndefined ∅
| represents_null : represents h Heap.RNull VNull ∅
| represents_bool (b : bool) : represents h (Heap.RBool b) (VBool b) ∅
| represents_number (q : Q) : represents h (Heap.RNumber q) (VNumber q) ∅
| represents_string (s : string) : represents h (Heap.RString s) (VString s) ∅
| represents_object (address : nat) (entries : list (string * Heap.ref))
    (fields : list (string * value)) (foot : gset nat) :
    h !! address = Some entries ->
    representsAll h entries fields foot ->
    address ∉ foot ->
    represents h (Heap.RObject address) (VObject fields) ({[address]} ∪ foot)
with representsAll (h : Heap.heap)
  : list (string * Heap.ref) -> list (string * value) -> gset nat -> Prop :=
| representsAll_nil : representsAll h [] [] ∅
| representsAll_cons (key : string) (r : Heap.ref) (v : value)
    (entries : list (string * Heap.ref)) (fields : list (string * value))
    (foot foot' : gset nat) :
    represents h r v foot ->
    representsAll h entries fields foot' ->
    foot ## foot' ->
    representsAll h ((key, r) :: entries) ((key, v) :: fields) (foot ∪ foot').

(** Induction over both judgements at once. *)
Scheme represents_mutual := Induction for represents Sort Prop
  with representsAll_mutual := Induction for representsAll Sort Prop.

(** [h'] is [h] but for the objects at [foot] and for new objects. *)
Definition frame (h h' : Heap.heap) (foot : gset nat) : Prop :=
  length h <= length h'
  /\ forall address, address < length h -> address ∉ foot ->
       h' !! address = h !! address.

(** The properties of the object at [address] that refer to objects in [h]
    refer to the same objects in [h']. *)
Definition keepsObjects (h h' : Heap.heap) (address : nat) : Prop :=
  forall key target,
    Heap.getField (Heap.read h address) key = Heap.RObject target ->
    Heap.getField (Heap.read h' address) key = Heap.RObject target.

(** [merge], a merge on the heap, does on trees of depth up to [bound] what
    [Lodash.baseMerge] does on values: where [object] stands for a mapping and
    [source] for a value, in objects apart, it leaves [object] standing for
    the merged mapping, writing to the objects of [object] and to new objects
    only. *)
Definition simulates
  (merge : list (nat * nat) -> Heap.heap -> nat -> nat -> option Heap.heap)
  (bound : nat) : Prop :=
  forall stack h object source fields src (foot foot' : gset nat),
    depth src <= bound ->
    uniqueKeys src ->
    represents h (Heap.RObject object) (VObject fields) foot ->
    represents h (Heap.RObject source) src foot' ->
    foot ## foot' ->
    (forall a, a ∈ foot' -> a <> source -> Heap.stacked stack a = None) ->
    exists h' (merged : gset nat),
      merge stack h object source = Some h'
      /\ represents h' (Heap.RObject object)
           (VObject (Lodash.baseMerge fields src)) merged
      /\ frame h h' foot
      /\ (forall a, a ∈ merged -> a ∈ foot \/ length h <= a)
      /\ keepsObjects h h' object.

(** The properties of a mapping laid out in the heap one after the other, as
    [Heap.store] does for a mapping. *)
Fixpoint storeAll (fields : list (string * value)) (h : Heap.heap)
  : list (string * Heap.ref) * Heap.heap :=
  match fields with
  | [] => ([], h)
  | (k, child) :: rest =>
      let (r, h) := Heap.store h child in
      let (rs, h) := storeAll rest h in
      ((k, r) :: rs, h)
  end.

(** ** Induction on values *)

Section ValueInduction.
Variable P : value -> Prop.
Hypothesis Pundefined : P VUndefined.
Hypothesis Pnull : P VNull.
Hypothesis Pbool : forall b, P (VBool b).
Hypothesis Pnumber : forall q, P (VNumber q).
Hypothesis Pstring : forall s, P (VString s).
Hypothesis Pobject :
  forall fields, Forall (fun kv => P (snd kv)) fields -> P (VObject fields).

Fixpoint value_nested_ind (v : value) : P v :=
  match v with
  | VUndefined => Pundefined
  | VNull => Pnull
  | VBool b => Pbool b
  | VNumber q => Pnumber q
  | VString s => Pstring s
  | VObject fields =>
      Pobject fields
        ((fix all (fs : list (string * value)) : Forall (fun kv => P (snd kv)) fs :=
            match fs with
            | [] => @List.Forall_nil _ _
            | kv :: rest =>
                @List.Forall_cons _ _ kv rest (value_nested_ind (snd kv)) (all rest)
            end) fields)
  end.
End ValueInduction.


(** ** Sample inputs *)

Module Sample.

Definition constConfig : value :=
  VObject [("type", VString "Const"); ("options", VObject [])].

Definition probabilisticConfig : value :=
  VObject [("type", VString "Probabilistic");
           ("options", VObject [("samplingRate", VNumber (1 # 2))])].

Definition remoteConfig : value :=
  VObject [("type", VString "RemoteControlled");
           ("options", VObject [("refreshInterval", VNumber 1000)])].

Definition unknownConfig : value :=
  VObject [("type", VString "Adaptive"); ("options", VObject [])].

Definition options (sampler : value) (tags : value) : Opts.t :=
  {| Opts.host := VString "127.0.0.1";
     Opts.port := VNumber 6832;
     Opts.sampler := Opts.SamplerConfig sampler;
     Opts.tracerOptions := VObject [];
     Opts.defaultTags := Opts.TagsValue tags |}.

(** An exporter after [init], with the given sampler configuration and
    default tags. *)
Definition exporter (sampler : value) (tags : value) : Exporter :=
  @init specBase (construct (options sampler tags)).

(** The tracer that an exporter of these options creates for a service under
    the constant sampler, as the [n]-th tracer object. *)
Definition tracer (n : nat) (service : string) : Jaeger.Tracer :=
  {| Jaeger.identity := n;
     Jaeger.serviceName := VString service;
     Jaeger.reporter :=
       Jaeger.RemoteReporter
         {| Jaeger.host := VString "127.0.0.1"; Jaeger.port := VNumber 6832 |};
     Jaeger.sampler := Jaeger.ConstSampler (VNumber 1);
     Jaeger.options := VObject [] |}.

(** A context as the client may create it for a new span. *)
Definition ownContext : Jaeger.SpanContext :=
  {| Jaeger.traceId := Some [Byte.x01];
     Jaeger.spanId := Some [Byte.x02];
     Jaeger.parentId := None;
     Jaeger.traceIdStr := None;
     Jaeger.spanIdStr := None;
     Jaeger.parentIdStr := None;
     Jaeger.flags := 1;
     Jaeger.baggage := [];
     Jaeger.debugId := "" |}.

(** A finished span of service [posts]. *)
Definition span (parentID tags error : value) : Span.t :=
  {| Span.id := VString "abcdef12-3456-7890-abcd-ef1234567890";
     Span.traceID := VString "01234567-89ab-cdef-0123-456789abcdef";
     Span.parentID := parentID;
     Span.name := VString "posts.find";
     Span.service := VObject [("name", VString "posts")];
     Span.tags := tags;
     Span.startTime := VNumber 1000;
     Span.endTime := VNumber 1500;
     Span.error := error |}.

(** An error as the spec gives it: [{name: "E", message: "boom", type: "T",
    code: 500}], with more properties appended. *)
Definition error (more : list (string * value)) : value :=
  VObject ([("name", VString "E"); ("message", VString "boom");
            ("type", VString "T"); ("code", VNumber 500)] ++ more).

End Sample.

(** ** The options of the constructor *)

(** Lines 39-60: the defaults, the source of the merge in the constructor. *)
Definition defaultOptions : value :=
  VObject [("host", VString "127.0.0.1");
           ("port", VNumber 6832);
           ("sampler", VObject [("type", VString "Const");
                                ("options", VObject [])]);
           ("tracerOptions", VObject []);
           ("defaultTags", VNull)].

(** Line 39: [this.opts = _.defaultsDeep(this.opts, {...})]. [baseOpts] is
    the mapping that the constructor of the base class has left in
    [this.opts]. *)
Definition mergeOptions (baseOpts : list (string * value))
  : list (string * value) :=
  Lodash.defaultsDeep baseOpts [defaultOptions].

(** The merged options as the methods read them, property by property. The
    values modelled hold no function: the sampler is a configuration, the
    default tags are static. *)
Definition optionsOf (merged : list (string * value)) : Opts.t :=
  {| Opts.host := getField merged "host";
     Opts.port := getField merged "port";
     Opts.sampler := Opts.SamplerConfig (getField merged "sampler");
     Opts.tracerOptions := getField merged "tracerOptions";
     Opts.defaultTags := Opts.TagsValue (getField merged "defaultTags") |}.

(** Lines 36-63: the constructor, from the options the base constructor
    stored. *)
Definition constructFrom (baseOpts : list (string * value)) : Exporter :=
  construct (optionsOf (mergeOptions baseOpts)).

(** ** More vocabulary *)

(** The sampler types whose constructor arguments are read off
    [sampler.options]. *)
Definition readsOptions (type : value) : bool :=
  looseEqString type "RateLimiting"
  || looseEqString type "Probabilistic"
  || looseEqString type "GuaranteedThroughput".

(** The reads that [getSampler] makes of the sampler option succeed: the
    option is a function; or a mapping whose [options] are neither [null] nor
    [undefined] when the type reads them; or a primitive other than [null]
    and [undefined]. Whether the client's constructor then accepts the
    arguments is the client's matter. *)
Definition samplerUsable (this : Exporter) : bool :=
  match Opts.sampler (opts this) with
  | Opts.SamplerFunction _ => true
  | Opts.SamplerConfig VUndefined => false
  | Opts.SamplerConfig VNull => false
  | Opts.SamplerConfig (VObject config) =>
      negb (readsOptions (getField config "type"))
      || notNullish (getField config "options")
  | Opts.SamplerConfig _ => true
  end.

(** [evolves this this']: calls of the exporter's methods lead from [this] to
    [this'], whether they return or throw. *)
Inductive evolves `{BaseTraceExporter} (this : Exporter) : Exporter -> Prop :=
| evolves_refl : evolves this this
| evolves_init (this1 : Exporter) :
    evolves this this1 -> evolves this (init this1)
| evolves_getTracer (this1 this2 : Exporter) (serviceName : value)
    (r : result Jaeger.Tracer) :
    evolves this this1 ->
    getTracer serviceName this1 = (r, this2) ->
    evolves this this2
| evolves_generateJaegerSpan (this1 this2 : Exporter)
    (own : Jaeger.SpanContext) (span span' : Span.t) (r : result Jaeger.Span) :
    evolves this this1 ->
    generateJaegerSpan own span this1 = (r, (span', this2)) ->
    evolves this this2
| evolves_finishSpan (this1 this2 : Exporter)
    (own : Jaeger.SpanContext) (span span' : Span.t) (r : result unit) :
    evolves this this1 ->
    finishSpan own span this1 = (r, (span', this2)) ->
    evolves this this2.

(** The hexadecimal digit of a number below 16, in lower case. *)
Definition hexChar (n : N) : ascii :=
  if (n <? 10)%N then ascii_of_N (48 + n) else ascii_of_N (87 + n).

(** The bytes written in hexadecimal, two digits a byte, the high nibble
    first: what [buffer.toString("hex")] gives. *)
Fixpoint hexEncode (bytes : Node.Buffer) : string :=
  match bytes with
  | [] => ""
  | b :: rest =>
      String (hexChar (Byte.to_N b / 16))
        (String (hexChar (Byte.to_N b mod 16)) (hexEncode rest))
  end.

(** The characters are hexadecimal digits. *)
Definition hexDigits (digits : list ascii) : Prop :=
  List.Forall (fun c => Node.hexDigit c <> None) digits.


(** The properties that every object inherits from [Object.prototype]. Under
    these keys a plain object reads a value that it does not hold itself: the
    registry and the merge are modelled for the other keys. *)
Definition inheritedKeys : list string :=
  ["constructor"; "hasOwnProperty"; "isPrototypeOf"; "propertyIsEnumerable";
   "toLocaleString"; "toString"; "valueOf"; "__proto__";
   "__defineGetter__"; "__defineSetter__"; "__lookupGetter__";
   "__lookupSetter__"].

Definition isInherited (key : string) : bool :=
  existsb (String.eqb key) inheritedKeys.

(** No mapping of the value, at any depth, has an inherited key. *)
Fixpoint plainKeys (v : value) : bool :=
  match v with
  | VObject fields =>
      (fix all (fs : list (string * value)) : bool :=
         match fs with
         | [] => true
         | (key, child) :: rest =>
             negb (isInherited key) && plainKeys child && all rest
         end) fields
  | _ => true
  end.

(** A source of the merge whose properties are those the model enumerates:
    any value but a string that is not empty, whose characters lodash takes
    for properties under their indices; and no key that the destination
    would inherit. *)
Definition plainSource (v : value) : Prop :=
  (forall s, v = VString s -> s = "") /\ plainKeys v = true.

(** The lower-case form of a character: the letters [A] to [Z] become [a]
    to [z]. *)
Definition lowerChar (c : ascii) : ascii :=
  let n := N_of_ascii c in
  if ((65 <=? n) && (n <=? 90))%N then ascii_of_N (n + 32) else c.

(** [s.toLowerCase()], on the characters below 128. *)
Fixpoint toLowerCase (s : string) : string :=
  match s with
  | EmptyString => EmptyString
  | String c rest => String (lowerChar c) (toLowerCase rest)
  end.

(** [filled object source]: the merge of [source] into [object] finds
    nothing to do: under each key of the source the destination holds a value
    already, and where both hold mappings the destination's is filled in
    turn. *)
Fixpoint filled (object : list (string * value)) (source : value)
  {struct source} : Prop :=
  match source with
  | VObject sourceFields =>
      (fix all (sfs : list (string * value)) : Prop :=
         match sfs with
         | [] => True
         | (key, v) :: rest =>
             match v with
             | VObject _ =>
                 match getField object key with
                 | VObject objFields => filled objFields v
                 | VUndefined => False
                 | _ => True
                 end
             | VUndefined => hasOwn object key = true
             | _ => getField object key <> VUndefined
             end
             /\ all rest
         end) sourceFields
  | _ => True
  end.

(** [filledKey object key v]: the same for one property of a source, the
    value [v] under [key]. *)
Definition filledKey (object : list (string * value)) (key : string)
  (v : value) : Prop :=
  match v with
  | VObject _ =>
      match getField object key with
      | VObject objFields => filled objFields v
      | VUndefined => False
      | _ => True
      end
  | VUndefined => hasOwn object key = true
  | _ => getField object key <> VUndefined
  end.

(** What a turn of the merge leaves under the key, from what the destination
    and the source hold there. *)
Definition mergeValue (objValue srcValue : value) : value :=
  match srcValue with
  | VObject _ =>
      match objValue with
      | VObject objFields => VObject (Lodash.baseMerge objFields srcValue)
      | VUndefined => VObject (Lodash.baseMerge [] srcValue)
      | _ => objValue
      end
  | _ =>
      match objValue with
      | VUndefined => srcValue
      | _ => objValue
      end
  end.

(** The values a source lists under a key, and the source without them. *)
Definition valuesAt (key : string) (source : value) : list value :=
  match source with
  | VObject fields =>
      map snd (List.filter (fun kv => String.eqb (fst kv) key) fields)
  | _ => []
  end.

Definition withoutKey (key : string) (source : value) : value :=
  match source with
  | VObject fields =>
      VObject (List.filter (fun kv => negb (String.eqb (fst kv) key)) fields)
  | _ => source
  end.

(** A service name whose string form the model writes as JavaScript does,
    and under which the registry holds what was stored and nothing else: a
    string, a boolean, [null], [undefined] or an integer of magnitude below
    2^53 (no mapping, no number that JavaScript writes with a fraction or an
    exponent), whose string form is no inherited key. *)
Definition plainName (v : value) : bool :=
  match v with
  | VObject _ => false
  | VNumber q =>
      (Zpos (Qden (Qred q)) =? 1)%Z && (Z.abs (Qnum (Qred q)) <? 2 ^ 53)%Z
  | _ => true
  end
  && negb (isInherited (toString v)).

(** A key written with digits only. An object enumerates the keys that are
    array indices first, in ascending order, wherever they were added. *)
Definition isDigit (c : ascii) : bool :=
  let n := N_of_ascii c in ((48 <=? n) && (n <=? 57))%N.

Fixpoint allDigits (s : string) : bool :=
  match s with
  | EmptyString => true
  | String c rest => isDigit c && allDigits rest
  end.

Definition isIndexKey (key : string) : bool :=
  negb (String.eqb key "") && allDigits key.

(** No mapping of the value, at any depth, has a key written with digits
    only: its properties are enumerated in the order they were added. *)
Fixpoint insertionOrdered (v : value) : bool :=
  match v with
  | VObject fields =>
      (fix all (fs : list (string * value)) : bool :=
         match fs with
         | [] => true
         | (key, child) :: rest =>
             negb (isIndexKey key) && insertionOrdered child && all rest
         end) fields
  | _ => true
  end.
(** ** Properties of mappings *)

Lemma getOwn_setOwn_eq {V : Type} (fields : list (string * V)) key v :
  getOwn (setOwn fields key v) key = Some v.
Proof.
  induction fields as [|[k w] rest IH]; simpl.
  - now rewrite String.eqb_refl.
  - destruct (String.eqb k key) eqn:E; simpl; rewrite E; auto.
Qed.

Lemma getOwn_setOwn_ne {V : Type} (fields : list (string * V)) key other v :
  key <> other -> getOwn (setOwn fields key v) other = getOwn fields other.
Proof.
  intros Hne. induction fields as [|[k w] rest IH]; simpl.
  - destruct (String.eqb key other) eqn:E; auto.
    apply String.eqb_eq in E. contradiction.
  - destruct (String.eqb k key) eqn:E; simpl.
    + apply String.eqb_eq in E. subst k.
      destruct (String.eqb key other) eqn:E'; auto.
      apply String.eqb_eq in E'. contradiction.
    + destruct (String.eqb k other); auto.
Qed.

Lemma getField_setOwn_eq fields key v :
  getField (setOwn fields key v) key = v.
Proof. unfold getField. now rewrite getOwn_setOwn_eq. Qed.

Lemma getField_setOwn_ne fields key other v :
  key <> other -> getField (setOwn fields key v) other = getField fields other.
Proof. intros. unfold getField. now rewrite getOwn_setOwn_ne. Qed.

Lemma getField_assign_eq fields key v :
  getField fields key = VUndefined ->
  getField (Lodash.assignMergeValue fields key v) key = v.
Proof.
  intros Hu. unfold Lodash.assignMergeValue.
  destruct v; try apply getField_setOwn_eq.
  destruct (hasOwn fields key); auto using getField_setOwn_eq.
Qed.

Lemma getField_assign_ne fields key other v :
  key <> other ->
  getField (Lodash.assignMergeValue fields key v) other = getField fields other.
Proof.
  intros Hne. unfold Lodash.assignMergeValue.
  destruct v; try (now apply getField_setOwn_ne).
  destruct (hasOwn fields key); auto using getField_setOwn_ne.
Qed.

(** ** Properties of the merge *)

Lemma baseMerge_object object sourceFields :
  Lodash.baseMerge object (VObject sourceFields) =
  fold_left (fun o kv => Lodash.mergeKey o (fst kv) (snd kv)) sourceFields object.
Proof.
  simpl. revert object.
  induction sourceFields as [|[k v] rest IH]; intros object; simpl; auto.
Qed.

Lemma baseMerge_scalar object source :
  Lodash.isObject source = false -> Lodash.baseMerge object source = object.
Proof. destruct source; simpl; auto; discriminate. Qed.

Lemma mergeKey_ne object key srcValue other :
  key <> other ->
  getField (Lodash.mergeKey object key srcValue) other = getField object other.
Proof.
  intros Hne. unfold Lodash.mergeKey.
  destruct srcValue; destruct (getField object key);
    auto using getField_assign_ne, getField_setOwn_ne.
Qed.

Lemma getField_cases fields key :
  getField fields key = VUndefined \/
  exists k, In (k, getField fields key) fields.
Proof.
  unfold getField. induction fields as [|[k w] rest IH]; simpl; auto.
  destruct (String.eqb k key); [right; exists k; auto|].
  destruct IH as [IH|[k' IH]]; [left|right; exists k']; auto.
Qed.

Lemma getField_absent fields key :
  ~ In key (map fst fields) -> getField fields key = VUndefined.
Proof.
  unfold getField. induction fields as [|[k w] rest IH]; simpl; auto.
  intros Hnot. destruct (String.eqb k key) eqn:E.
  - apply String.eqb_eq in E. tauto.
  - apply IH. tauto.
Qed.

Lemma kept_refl v : kept v v.
Proof.
  induction v using value_nested_ind;
    try (apply kept_scalar; split; [discriminate | reflexivity]).
  - apply kept_undefined.
  - apply kept_object. intros key.
    destruct (getField_cases fields key) as [-> | [k Hin]].
    + apply kept_undefined.
    + rewrite List.Forall_forall in H. apply (H _ Hin).
Qed.

Lemma kept_trans a b c : kept a b -> kept b c -> kept a c.
Proof.
  intros Hab. revert c.
  induction Hab as [v | v Hv | old new Hfields IH]; intros c Hbc.
  - apply kept_undefined.
  - exact Hbc.
  - inversion Hbc as [ | v Hv | new' last Hlast]; subst.
    + destruct Hv as [_ Hv]. discriminate.
    + apply kept_object. intros key. apply IH, Hlast.
Qed.

Lemma kept_scalar_eq v w : definedScalar v -> kept v w -> w = v.
Proof.
  intros [Hdef Hobj] Hk. inversion Hk; subst; auto; try congruence; discriminate.
Qed.

Lemma mergeKey_kept object key srcValue :
  (forall obj, kept (VObject obj) (VObject (Lodash.baseMerge obj srcValue))) ->
  kept (VObject object) (VObject (Lodash.mergeKey object key srcValue)).
Proof.
  intros IH. apply kept_object. intros other.
  destruct (String.eqb key other) eqn:E.
  - apply String.eqb_eq in E. subst other. unfold Lodash.mergeKey.
    destruct srcValue; destruct (getField object key) eqn:Hobj;
      rewrite <- ?Hobj; try apply kept_refl; rewrite ?Hobj;
      try apply kept_undefined.
    rewrite getField_setOwn_eq. apply IH.
  - apply String.eqb_neq in E. rewrite mergeKey_ne by assumption.
    apply kept_refl.
Qed.

(** The destination wins: whatever the source holds, every defined entry of
    the destination is still there after the merge. *)
Lemma baseMerge_kept source :
  forall object, kept (VObject object) (VObject (Lodash.baseMerge object source)).
Proof.
  induction source as [ | | b | q | s | fields IH] using value_nested_ind;
    intros object; try apply kept_refl.
  rewrite baseMerge_object. revert object.
  induction IH as [|[k v] rest Hv _ IHrest]; intros object; simpl.
  - apply kept_refl.
  - eapply kept_trans; [|apply IHrest]. apply mergeKey_kept. exact Hv.
Qed.

Lemma defaultsDeep_kept sources :
  forall object,
    kept (VObject object) (VObject (Lodash.defaultsDeep object sources)).
Proof.
  unfold Lodash.defaultsDeep.
  induction sources as [|source rest IH]; intros object; simpl.
  - apply kept_refl.
  - eapply kept_trans; [apply baseMerge_kept | apply IH].
Qed.

Lemma kept_field old new key :
  kept (VObject old) (VObject new) -> kept (getField old key) (getField new key).
Proof.
  intros Hk. inversion Hk as [ | v [_ Hv] | o n Hf]; subst; auto.
  discriminate.
Qed.

(** A key the source lacks is left as it is. *)
Lemma baseMerge_absent object sourceFields key :
  ~ In key (map fst sourceFields) ->
  getField (Lodash.baseMerge object (VObject sourceFields)) key =
  getField object key.
Proof.
  rewrite baseMerge_object. revert object.
  induction sourceFields as [|[k v] rest IH]; intros object Hnot; simpl in *; auto.
  rewrite IH by tauto. apply mergeKey_ne. tauto.
Qed.

(** The source fills the gaps: where the destination holds [undefined], the
    merge leaves what the source holds under that key. *)
Lemma baseMerge_fills source :
  forall object sourceFields key,
    source = VObject sourceFields ->
    getField object key = VUndefined ->
    kept (getField sourceFields key)
         (getField (Lodash.baseMerge object source) key).
Proof.
  induction source as [ | | b | q | s | fields IH] using value_nested_ind;
    intros object sourceFields key Heq Hgap; try discriminate.
  injection Heq as <-. rewrite baseMerge_object. revert object Hgap.
  induction IH as [|[k v] rest Hv _ IHrest]; intros object Hgap; simpl.
  - apply kept_undefined.
  - unfold getField at 1. simpl. destruct (String.eqb k key) eqn:E.
    + apply String.eqb_eq in E. subst k.
      eapply kept_trans;
        [| apply kept_field; rewrite <- baseMerge_object; apply baseMerge_kept].
      unfold Lodash.mergeKey. rewrite Hgap.
      destruct v as [ | | b | q | s | nested];
        rewrite getField_assign_eq by assumption;
        try (apply kept_scalar; split; [discriminate | reflexivity]).
      * apply kept_undefined.
      * apply kept_object. intros inner.
        apply (Hv [] nested inner); reflexivity.
    + apply String.eqb_neq in E. apply IHrest.
      rewrite mergeKey_ne by assumption. exact Hgap.
Qed.

(** ** The tag merge of the span converter *)

(** C1, as stated, fails: on a collision at [service] the synthesized entry
    wins. For [span.service = {name: "posts"}], [span.tags = {service: {name:
    "other"}}] and [defaultTags = {service: "fallback"}] the merge keeps
    [service.name = "posts"]; the claim has the tags' ["other"] win. *)
Lemma service_entry_wins_collision :
  let this := Sample.exporter Sample.constConfig
                (VObject [("service", VString "fallback")]) in
  let span := Sample.span VNull
                (VObject [("service", VObject [("name", VString "other")])])
                VUndefined in
  defaultTags this = VObject [("service", VString "fallback")]
  /\ mergedTags this span = [("service", VObject [("name", VString "posts")])]
  /\ @flattenTags specBase (VObject (mergedTags this span)) =
     VObject [("service.name", VString "posts")].
Proof. vm_compute. auto. Qed.

(** C1 (amended): in the merge [_.defaultsDeep({service: span.service},
    span.tags, defaultTags)] the synthesized [service] entry has the highest
    priority, not the lowest: what [span.service] holds is kept whatever
    [span.tags] and [defaultTags] hold under [service]. For every other key,
    and for tags and default tags that are plain (no string of characters, no
    key that objects inherit, such as [valueOf]: the merge reads the inherited
    member as the value present and leaves such a key out), what [span.tags]
    holds is kept whatever [defaultTags] holds, and for a key that
    [span.tags] lacks, what [defaultTags] holds is kept. In particular, for
    [span.tags = {x: 1}] and [defaultTags = {x: 2, y: 3}] the merged tags map
    [x] to 1 and [y] to 3. *)
Theorem mergedTags_precedence (this : Exporter) (span : Span.t) :
  kept (Span.service span) (getField (mergedTags this span) "service")
  /\ (plainSource (Span.tags span) ->
      plainSource (defaultTags this) ->
      (forall tagFields key,
         Span.tags span = VObject tagFields ->
         key <> "service" ->
         kept (getField tagFields key) (getField (mergedTags this span) key))
      /\ (forall tagFields defaults key,
            Span.tags span = VObject tagFields ->
            defaultTags this = VObject defaults ->
            key <> "service" ->
            ~ In key (map fst tagFields) ->
            kept (getField defaults key) (getField (mergedTags this span) key)))
  /\ (Span.tags span = VObject [("x", VNumber 1)] ->
      defaultTags this = VObject [("x", VNumber 2); ("y", VNumber 3)] ->
      getField (mergedTags this span) "x" = VNumber 1
      /\ getField (mergedTags this span) "y" = VNumber 3).
Proof.
  assert (Hservice :
    kept (Span.service span) (getField (mergedTags this span) "service")).
  { apply (kept_field [("service", Span.service span)] _ "service").
    apply defaultsDeep_kept. }
  assert (Htags : forall tagFields key,
    Span.tags span = VObject tagFields -> key <> "service" ->
    kept (getField tagFields key) (getField (mergedTags this span) key)).
  { intros tagFields key Htags Hkey.
    unfold mergedTags, Lodash.defaultsDeep. simpl fold_left.
    eapply kept_trans; [| apply kept_field, baseMerge_kept].
    apply baseMerge_fills; [assumption|].
    apply getField_absent. simpl. intros [Heq | []]. congruence. }
  assert (Hdefaults : forall tagFields defaults key,
    Span.tags span = VObject tagFields -> defaultTags this = VObject defaults ->
    key <> "service" -> ~ In key (map fst tagFields) ->
    kept (getField defaults key) (getField (mergedTags this span) key)).
  { intros tagFields defaults key Htags' Hdef Hkey Habsent.
    unfold mergedTags, Lodash.defaultsDeep. simpl fold_left.
    apply baseMerge_fills; [assumption|].
    rewrite Htags', baseMerge_absent by assumption.
    apply getField_absent. simpl. intros [Heq | []]. congruence. }
  split; [exact Hservice|]. split; [intros _ _; split; assumption|].
  intros Hx Hxy. split.
  - apply (kept_scalar_eq (VNumber 1)); [split; [discriminate | reflexivity]|].
    apply (Htags [("x", VNumber 1)] "x"); [assumption | discriminate].
  - apply (kept_scalar_eq (VNumber 3)); [split; [discriminate | reflexivity]|].
    apply (Hdefaults [("x", VNumber 1)] [("x", VNumber 2); ("y", VNumber 3)] "y");
      try assumption; try discriminate.
    simpl. intros [Heq | []]. discriminate.
Qed.

(** C1 (amended) on an input: the span of service [posts] with tags [{x: 1}]
    under default tags [{x: 2, y: 3}], both plain: [x] is that of the tags,
    [y] that of the default tags. *)
Lemma mergedTags_precedence_witness :
  let this := Sample.exporter Sample.constConfig
                (VObject [("x", VNumber 2); ("y", VNumber 3)]) in
  let span := Sample.span VNull (VObject [("x", VNumber 1)]) VUndefined in
  (getField (mergedTags this span) "x" = VNumber 1
   /\ getField (mergedTags this span) "y" = VNumber 3)
  /\ kept (VNumber 1) (getField (mergedTags this span) "x")
  /\ kept (VNumber 3) (getField (mergedTags this span) "y").
Proof.
  intros this span.
  assert (Htags : plainSource (Span.tags span))
    by (split; [intros s Hs; vm_compute in Hs; discriminate Hs | reflexivity]).
  assert (Hdefaults : plainSource (defaultTags this))
    by (split; [intros s Hs; vm_compute in Hs; discriminate Hs | reflexivity]).
  pose proof (mergedTags_precedence this span) as (_ & Hplain & Hexample).
  destruct (Hplain Htags Hdefaults) as [Hkept Hfill].
  refine (conj (Hexample eq_refl eq_refl) (conj _ _)).
  - apply (Hkept [("x", VNumber 1)] "x"); [reflexivity | discriminate].
  - apply (Hfill [("x", VNumber 1)] [("x", VNumber 2); ("y", VNumber 3)] "y");
      [reflexivity | reflexivity | discriminate |].
    simpl. intros [Heq | []]. discriminate.
Defined.

(** ** Identifier conversion *)

Lemma removeHyphens_filter s :
  list_ascii_of_string (JSString.removeHyphens s) =
  List.filter (fun c => negb (Ascii.eqb c "-"%char)) (list_ascii_of_string s).
Proof.
  induction s as [|c rest IH]; simpl; auto.
  destruct (Ascii.eqb c "-"%char); simpl; congruence.
Qed.

Lemma substring_take n s :
  list_ascii_of_string (String.substring 0 n s) = take n (list_ascii_of_string s).
Proof.
  revert s. induction n as [|n IH]; intros [|c rest]; simpl; auto.
  now rewrite IH.
Qed.

Lemma prefix_removeHyphens s :
  list_ascii_of_string (JSString.prefix 16 (JSString.removeHyphens s)) =
  identifierDigits s.
Proof.
  unfold JSString.prefix, identifierDigits.
  now rewrite substring_take, removeHyphens_filter.
Qed.

Lemma hexDigit_bound c d : Node.hexDigit c = Some d -> (d < 16)%N.
Proof.
  unfold Node.hexDigit.
  repeat match goal with
  | |- context [if ?b then _ else _] => destruct b eqn:?
  end; intros [= <-];
  repeat match goal with
  | E : (_ && _)%bool = true |- _ => apply andb_prop in E; destruct E
  | E : (_ <=? _)%N = true |- _ => apply N.leb_le in E
  end; lia.
Qed.

Lemma byteOfN_value n : (n < 256)%N -> Byte.to_N (Node.byteOfN n) = n.
Proof.
  intros Hn. unfold Node.byteOfN.
  destruct (Byte.of_N n) as [b|] eqn:E.
  - now apply Byte.to_of_N.
  - apply Byte.of_N_None_iff in E. lia.
Qed.

(** Induction on strings two characters at a time. *)
Lemma string_pair_ind (P : string -> Prop) :
  P "" ->
  (forall c, P (String c "")) ->
  (forall a b rest, P rest -> P (String a (String b rest))) ->
  forall s, P s.
Proof.
  intros Hnil Hone Hpair s.
  enough (P s /\ forall c, P (String c s)) by tauto.
  induction s as [|c rest [IH1 IH2]]; split; auto.
Qed.

(** Decoding an even number of hexadecimal digits yields half as many bytes,
    which denote, big-endian, the number the digits denote. *)
Lemma hexDecode_number s :
  forall acc n,
    Nat.even (String.length s) = true ->
    hexNumberFrom acc (list_ascii_of_string s) = Some n ->
    bigEndianFrom acc (Node.hexDecode s) = n
    /\ (2 * length (Node.hexDecode s) = String.length s)%nat.
Proof.
  induction s as [| c | a b rest IH] using string_pair_ind;
    intros acc n Heven Hnum.
  - simpl in *. split; congruence.
  - discriminate.
  - simpl in Hnum. simpl Node.hexDecode.
    destruct (Node.hexDigit a) as [h|] eqn:Ha; [|discriminate].
    destruct (Node.hexDigit b) as [l|] eqn:Hb; [|discriminate].
    destruct (IH _ _ Heven Hnum) as [Hvalue Hlen].
    apply hexDigit_bound in Ha, Hb.
    split.
    + unfold bigEndianFrom in *. simpl fold_left.
      rewrite byteOfN_value by lia.
      replace (256 * acc + (16 * h + l))%N with (16 * (16 * acc + h) + l)%N by lia.
      exact Hvalue.
    + simpl length. simpl String.length. lia.
Qed.

Lemma length_list_ascii s : length (list_ascii_of_string s) = String.length s.
Proof. induction s; simpl; auto. Qed.

(** C4: [convertID] returns [null] for every falsy id. For a string id whose
    first 16 characters other than hyphens are hexadecimal digits (an even
    number of them, when the id is shorter), it returns the bytes that denote,
    big-endian, the number these digits denote, two digits a byte: 8 bytes for
    16 digits. [convertID("abcdef12-3456-7890-abcd-ef1234567890")] is the
    decoding of ["abcdef1234567890"], and [convertID(null)] is [null]. *)
Theorem convertID_rule :
  (forall id, truthy id = false -> convertID id = Ok None)
  /\ (forall s n,
        s <> "" ->
        Nat.even (length (identifierDigits s)) = true ->
        hexNumber (identifierDigits s) = Some n ->
        exists bytes,
          convertID (VString s) = Ok (Some bytes)
          /\ bigEndian bytes = n
          /\ (2 * length bytes = length (identifierDigits s))%nat
          /\ (length (identifierDigits s) = 16%nat -> length bytes = 8%nat))
  /\ convertID (VString "abcdef12-3456-7890-abcd-ef1234567890") =
     Ok (Some (Node.Buffer_from_hex "abcdef1234567890"))
  /\ Node.Buffer_from_hex "abcdef1234567890" =
     [Byte.xab; Byte.xcd; Byte.xef; Byte.x12; Byte.x34; Byte.x56; Byte.x78; Byte.x90]
  /\ convertID VNull = Ok None.
Proof.
  split; [|split; [|repeat split]].
  - intros id Hfalsy. unfold convertID. now rewrite Hfalsy.
  - intros s n Hs Heven Hnum.
    exists (Node.Buffer_from_hex (JSString.prefix 16 (JSString.removeHyphens s))).
    assert (Htruthy : truthy (VString s) = true).
    { simpl. destruct (String.eqb s "") eqn:E; auto.
      apply String.eqb_eq in E. contradiction. }
    unfold convertID. rewrite Htruthy.
    rewrite <- prefix_removeHyphens in Heven, Hnum |- *.
    rewrite length_list_ascii in Heven |- *.
    destruct (hexDecode_number _ 0%N n Heven Hnum) as [Hvalue Hlen].
    unfold Node.Buffer_from_hex. repeat split; auto. lia.
Qed.

(** C4 on an input: the identifier ["01234567-89ab-cdef-0123-456789abcdef"]. *)
Lemma convertID_rule_witness :
  exists bytes,
    convertID (VString "01234567-89ab-cdef-0123-456789abcdef") = Ok (Some bytes)
    /\ bigEndian bytes = 81985529216486895%N
    /\ (2 * length bytes =
        length (identifierDigits "01234567-89ab-cdef-0123-456789abcdef"))%nat
    /\ (length (identifierDigits "01234567-89ab-cdef-0123-456789abcdef") = 16%nat ->
        length bytes = 8%nat).
Proof.
  apply (proj1 (proj2 convertID_rule)
           "01234567-89ab-cdef-0123-456789abcdef" 81985529216486895%N).
  - discriminate.
  - reflexivity.
  - reflexivity.
Defined.

(** ** Sampler dispatch *)

Lemma looseEqString_other (type : value) (lit : string) :
  type <> VString lit -> looseEqString type lit = false.
Proof.
  destruct type; simpl; auto. intros Hne.
  destruct (String.eqb s lit) eqn:E; auto.
  apply String.eqb_eq in E. congruence.
Qed.

(** C6: with type ["Probabilistic"], [getSampler] builds a probabilistic
    sampler with the [samplingRate] of the options: rate 0.5 for [{samplingRate:
    0.5}]. With a type that is none of ["RateLimiting"], ["Probabilistic"],
    ["GuaranteedThroughput"] and ["RemoteControlled"] it does not throw and
    builds a constant sampler, of decision 1 when no decision is given. *)
Theorem getSampler_dispatch (this : Exporter) (serviceName : value)
  (config : list (string * value)) :
  Opts.sampler (opts this) = Opts.SamplerConfig (VObject config) ->
  (forall options,
     getField config "type" = VString "Probabilistic" ->
     getField config "options" = VObject options ->
     getSampler this serviceName =
     Ok (Jaeger.ProbabilisticSampler (getField options "samplingRate")))
  /\ (getField config "type" = VString "Probabilistic" ->
      getField config "options" = VObject [("samplingRate", VNumber (1 # 2))] ->
      getSampler this serviceName =
      Ok (Jaeger.ProbabilisticSampler (VNumber (1 # 2))))
  /\ (forall type,
        getField config "type" = type ->
        (forall known, In known knownSamplerTypes -> type <> VString known) ->
        (exists decision,
           getSampler this serviceName = Ok (Jaeger.ConstSampler decision))
        /\ (noDecision (getField config "options") ->
            getSampler this serviceName = Ok (Jaeger.ConstSampler (VNumber 1)))).
Proof.
  intros Hconfig.
  assert (Hprob : forall options,
    getField config "type" = VString "Probabilistic" ->
    getField config "options" = VObject options ->
    getSampler this serviceName =
    Ok (Jaeger.ProbabilisticSampler (getField options "samplingRate"))).
  { intros options Htype Hoptions. unfold getSampler.
    rewrite Hconfig. simpl. rewrite Htype. simpl. rewrite Hoptions.
    reflexivity. }
  split; [exact Hprob|]. split.
  - intros Htype Hoptions. now rewrite (Hprob _ Htype Hoptions).
  - intros type Htype Hunknown.
    assert (Hdefault :
      getSampler this serviceName =
      (do options <- Ok (getField config "options") ;;
       if truthy options then
         do decision <- get options "decision" ;;
         Ok (Jaeger.ConstSampler
               (if notNullish decision then decision else VNumber 1))
       else Ok (Jaeger.ConstSampler (VNumber 1)))).
    { unfold getSampler. rewrite Hconfig. simpl. rewrite Htype.
      rewrite !looseEqString_other by (apply Hunknown; simpl; tauto).
      reflexivity. }
    rewrite Hdefault. simpl.
    destruct (getField config "options") as [ | | [|] | q | s | fields] eqn:Hopt;
      simpl; try (split; [eexists; reflexivity | reflexivity]).
    + destruct (negb (Qnum q =? 0)%Z); simpl;
        (split; [eexists; reflexivity | reflexivity]).
    + destruct (negb (String.eqb s "")); simpl;
        (split; [eexists; reflexivity | reflexivity]).
    + split; [eexists; reflexivity|]. intros Hnone. now rewrite Hnone.
Qed.

(** C6 on inputs: the configuration [{type: "Probabilistic", options:
    {samplingRate: 0.5}}], and the unrecognized type ["Adaptive"]. *)
Lemma getSampler_dispatch_witness :
  getSampler (Sample.exporter Sample.probabilisticConfig VNull) VUndefined =
  Ok (Jaeger.ProbabilisticSampler (VNumber (1 # 2)))
  /\ getSampler (Sample.exporter Sample.unknownConfig VNull) VUndefined =
     Ok (Jaeger.ConstSampler (VNumber 1)).
Proof.
  split.
  - apply (proj1 (proj2 (getSampler_dispatch
                           (Sample.exporter Sample.probabilisticConfig VNull)
                           VUndefined _ eq_refl))); reflexivity.
  - apply (proj2 (proj2 (getSampler_dispatch
                           (Sample.exporter Sample.unknownConfig VNull)
                           VUndefined _ eq_refl)) (VString "Adaptive")).
    + reflexivity.
    + intros known Hin. simpl in Hin.
      decompose [or] Hin; subst; try discriminate; contradiction.
    + reflexivity.
Defined.

(** C3, at the failing input: with the sampler type ["RemoteControlled"], the
    tracer created for service ["posts"] gets a remote-controlled sampler whose
    service name is [undefined], since [getTracer] calls [getSampler] without
    the name; [getSampler] called with the name would seed it. *)
Lemma getTracer_remote_sampler_unseeded :
  let this := Sample.exporter Sample.remoteConfig VNull in
  let options := VObject [("refreshInterval", VNumber 1000)] in
  exists tracer,
    fst (getTracer (VString "posts") this) = Ok tracer
    /\ Jaeger.serviceName tracer = VString "posts"
    /\ Jaeger.sampler tracer = Jaeger.RemoteControlledSampler VUndefined options
    /\ Jaeger.sampler tracer <>
       Jaeger.RemoteControlledSampler (VString "posts") options
    /\ getSampler this (VString "posts") =
       Ok (Jaeger.RemoteControlledSampler (VString "posts") options).
Proof.
  eexists. split; [vm_compute; reflexivity|].
  repeat split; try reflexivity. discriminate.
Qed.

(** ** The tracer registry *)

Lemma getTracer_cases serviceName this r this' :
  getTracer serviceName this = (r, this') ->
  (this' = this /\
   (forall tracer, r = Ok tracer ->
      tracers this !! toString serviceName = Some tracer))
  \/ (exists tracer,
        r = Ok tracer
        /\ tracers this !! toString serviceName = None
        /\ Jaeger.identity tracer = allocated this
        /\ tracers this' = <[toString serviceName := tracer]> (tracers this)
        /\ allocated this' = S (allocated this)
        /\ opts this' = opts this
        /\ defaultTags this' = defaultTags this).
Proof.
  unfold getTracer.
  destruct (tracers this !! toString serviceName) as [stored|] eqn:Hstored.
  - intros [= <- <-]. left. split; auto. now intros tracer [= <-].
  - destruct (getSampler this VUndefined) as [sampler|e].
    + intros [= <- <-]. right. eexists. repeat split; auto.
    + intros [= <- <-]. left. split; auto. discriminate.
Qed.

(** What [getTracer] returns is what the registry holds from then on. *)
Lemma getTracer_stored serviceName this tracer this' :
  getTracer serviceName this = (Ok tracer, this') ->
  tracers this' !! toString serviceName = Some tracer.
Proof.
  intros Hget. destruct (getTracer_cases _ _ _ _ Hget)
    as [[-> Hold] | (created & [= <-] & _ & _ & -> & _)].
  - now apply Hold.
  - apply lookup_insert_eq.
Qed.

(** No entry of the registry is removed or replaced. *)
Lemma getTracer_keeps serviceName this r this' key tracer :
  getTracer serviceName this = (r, this') ->
  tracers this !! key = Some tracer ->
  tracers this' !! key = Some tracer.
Proof.
  intros Hget Hkey. destruct (getTracer_cases _ _ _ _ Hget)
    as [[-> _] | (created & _ & Hnone & _ & -> & _)]; auto.
  rewrite lookup_insert_ne; auto. congruence.
Qed.

Lemma getTracer_registryOK serviceName this r this' :
  registryOK this -> getTracer serviceName this = (r, this') -> registryOK this'.
Proof.
  intros [Hbound Hinj] Hget. destruct (getTracer_cases _ _ _ _ Hget)
    as [[-> _] | (created & _ & Hnone & Hid & Htracers & Halloc & _)];
    [split; assumption|].
  split.
  - intros key tracer. rewrite Htracers, Halloc, lookup_insert.
    destruct (decide (toString serviceName = key)).
    + intros [= <-]. lia.
    + intros Hkey. apply Hbound in Hkey. lia.
  - intros key key' tracer tracer'. rewrite Htracers, !lookup_insert.
    destruct (decide (toString serviceName = key));
      destruct (decide (toString serviceName = key')); try congruence.
    + intros [= <-] Hkey' Hsame. apply Hbound in Hkey'. lia.
    + intros Hkey [= <-] Hsame. apply Hbound in Hkey. lia.
    + apply Hinj.
Qed.

Section Registry.
Context `{BaseTraceExporter}.

(** The exporter that [generateJaegerSpan] leaves is the one its call of
    [getTracer] leaves. *)
Lemma generateJaegerSpan_exporter own span this r span' this' :
  generateJaegerSpan own span this = (r, (span', this')) ->
  this' = this \/
  exists serviceName r', getTracer serviceName this = (r', this').
Proof.
  unfold generateJaegerSpan.
  destruct (serviceNameOf span) as [serviceName|e];
    [|intros [= _ _ <-]; now left].
  destruct (getTracer serviceName this) as [[tracer|e] this1] eqn:Hget.
  - destruct (parentContext span); intros [= _ _ <-]; right; eauto.
  - intros [= _ _ <-]; right; eauto.
Qed.

Lemma reachable_registryOK this : reachable this -> registryOK this.
Proof.
  induction 1 as [o | this _ IH | this this' s r _ IH Hget
                 | this this' own span span' r _ IH Hgen].
  - split; simpl; intros *; rewrite lookup_empty; discriminate.
  - exact IH.
  - eapply getTracer_registryOK; eauto.
  - destruct (generateJaegerSpan_exporter _ _ _ _ _ _ Hgen)
      as [-> | (s & r' & Hget)]; auto.
    eapply getTracer_registryOK; eauto.
Qed.

(** A second call for the same name returns the stored tracer and leaves the
    exporter as it is. *)
Lemma getTracer_again serviceName this tracer this' :
  getTracer serviceName this = (Ok tracer, this') ->
  getTracer serviceName this' = (Ok tracer, this').
Proof.
  intros Hget. apply getTracer_stored in Hget.
  unfold getTracer. now rewrite Hget.
Qed.

(** C2 (amended): the registry holds one tracer for each string form of a
    service name, not for each name. On an exporter that the constructor and
    any calls have led to, and for plain names (strings, booleans, [null],
    [undefined] and integers, whose string form is no inherited key), two
    calls of [getTracer] for names of one string form, the same name or not,
    return the identical tracer, the second leaving the exporter (and the
    stored entry) unchanged; calls for names of distinct string forms return
    tracers of distinct identity. *)
Theorem getTracer_one_per_service (this : Exporter) :
  reachable this ->
  forall (s t : value) (a b : Jaeger.Tracer) (this1 this2 : Exporter),
    plainName s = true ->
    plainName t = true ->
    getTracer s this = (Ok a, this1) ->
    getTracer t this1 = (Ok b, this2) ->
    (toString s = toString t ->
     b = a /\ this2 = this1 /\ tracers this2 !! toString s = Some a)
    /\ (toString s <> toString t -> Jaeger.identity a <> Jaeger.identity b).
Proof.
  intros Hreach s t a b this1 this2 _ _ Hfirst Hsecond. split.
  - intros Hform. pose proof (getTracer_stored _ _ _ _ Hfirst) as Hstored.
    unfold getTracer in Hsecond. rewrite <- Hform, Hstored in Hsecond.
    injection Hsecond as <- <-. repeat split. exact Hstored.
  - intros Hne Hsame.
    assert (Hok : registryOK this2).
    { apply reachable_registryOK.
      eapply reachable_getTracer; [|exact Hsecond].
      eapply reachable_getTracer; [|exact Hfirst]. exact Hreach. }
    apply Hne. destruct Hok as [_ Hinj].
    apply (Hinj (toString s) (toString t) a b); auto.
    + eapply getTracer_keeps; [exact Hsecond|].
      exact (getTracer_stored _ _ _ _ Hfirst).
    + exact (getTracer_stored _ _ _ _ Hsecond).
Qed.

End Registry.

(** C2, as stated, fails: distinct service names do not always get distinct
    tracers. [getTracer(null)], the call that line 148 makes for a span
    without a service, and [getTracer("null")] return the identical tracer,
    stored under the key ["null"] and named [null]; so do the number 1 and
    the string ["1"]. *)
Lemma getTracer_distinct_names_share_tracer :
  let this := Sample.exporter Sample.constConfig VNull in
  let first := getTracer VNull this in
  let second := getTracer (VString "null") (snd first) in
  let third := getTracer (VNumber 1) (snd second) in
  let fourth := getTracer (VString "1") (snd third) in
  VNull <> VString "null"
  /\ (exists tracer,
        fst first = Ok tracer
        /\ fst second = Ok tracer
        /\ Jaeger.serviceName tracer = VNull
        /\ tracers (snd second) !! "null" = Some tracer)
  /\ VNumber 1 <> VString "1"
  /\ (exists tracer,
        fst third = Ok tracer
        /\ fst fourth = Ok tracer
        /\ Jaeger.serviceName tracer = VNumber 1).
Proof.
  split; [discriminate|]. split; [eexists; vm_compute; auto|].
  split; [discriminate|]. eexists; vm_compute; auto.
Qed.

(** C2 (amended) on an input: service ["posts"] twice, then service
    ["users"], on a new exporter. *)
Lemma getTracer_one_per_service_witness :
  let this := Sample.exporter Sample.constConfig VNull in
  let first := getTracer (VString "posts") this in
  let again := getTracer (VString "posts") (snd first) in
  let other := getTracer (VString "users") (snd again) in
  fst first = Ok (Sample.tracer 0 "posts")
  /\ fst again = Ok (Sample.tracer 0 "posts")
  /\ snd again = snd first
  /\ tracers (snd again) !! "posts" = Some (Sample.tracer 0 "posts")
  /\ fst other = Ok (Sample.tracer 1 "users")
  /\ Jaeger.identity (Sample.tracer 0 "posts") <>
     Jaeger.identity (Sample.tracer 1 "users").
Proof.
  intros this first again other.
  assert (Hreach : @reachable specBase this).
  { apply reachable_init, reachable_construct. }
  assert (H1 : getTracer (VString "posts") this =
               (Ok (Sample.tracer 0 "posts"), snd first)).
  { apply injective_projections; [vm_compute|]; reflexivity. }
  assert (H2 : getTracer (VString "posts") (snd first) =
               (Ok (Sample.tracer 0 "posts"), snd again)).
  { apply injective_projections; [vm_compute|]; reflexivity. }
  assert (H3 : getTracer (VString "users") (snd again) =
               (Ok (Sample.tracer 1 "users"), snd other)).
  { apply injective_projections; [vm_compute|]; reflexivity. }
  pose proof (@reachable_getTracer specBase _ _ _ _ Hreach H1) as Hreach1.
  pose proof (@reachable_getTracer specBase _ _ _ _ Hreach1 H2) as Hreach2.
  destruct (proj1 (@getTracer_one_per_service specBase _ Hreach
                     (VString "posts") (VString "posts") _ _ _ _
                     eq_refl eq_refl H1 H2) eq_refl)
    as (_ & Hsame & Hstored).
  pose proof (proj2 (@getTracer_one_per_service specBase _ Hreach1
                       (VString "posts") (VString "users") _ _ _ _
                       eq_refl eq_refl H2 H3)) as Hdistinct.
  assert (Hnames : toString (VString "posts") <> toString (VString "users"))
    by discriminate.
  exact (conj (f_equal fst H1) (conj (f_equal fst H2) (conj Hsame
           (conj Hstored (conj (f_equal fst H3) (Hdistinct Hnames)))))).
Defined.

(** ** Tag flattening *)

Lemma setTags_nil span : Jaeger.setTags span [] = span.
Proof. destruct span. unfold Jaeger.setTags. simpl. now rewrite app_nil_r. Qed.

Lemma setTags_setTags span l l' :
  Jaeger.setTags (Jaeger.setTags span l) l' = Jaeger.setTags span (l ++ l').
Proof. unfold Jaeger.setTags. simpl. now rewrite app_assoc. Qed.

Lemma setTag_setTags span key v :
  Jaeger.setTag span key v = Jaeger.setTags span [(key, v)].
Proof. reflexivity. Qed.

Lemma leaves_object path fields :
  leaves path (VObject fields) =
  flat_map (fun kv => leaves (dottedPath (Some path) (fst kv)) (snd kv)) fields.
Proof.
  simpl. induction fields as [|[k child] rest IH]; simpl; auto.
  now rewrite IH.
Qed.

Lemma nullFree_object fields :
  nullFree (VObject fields) = forallb (fun kv => nullFree (snd kv)) fields.
Proof.
  simpl. induction fields as [|[k child] rest IH]; simpl; auto.
  now rewrite IH.
Qed.

Lemma addTags_object span key fields prefix :
  addTags span key (VObject fields) prefix =
  fold_left
    (fun r kv => do s <- r ;; addTags s (fst kv) (snd kv) (Some (tagName prefix key)))
    fields (Ok span).
Proof.
  unfold tagName. simpl.
  match goal with |- context [Some ?n] => generalize n end.
  intros name. revert span.
  induction fields as [|[k child] rest IH]; intros span; simpl; auto.
  destruct (addTags span k child (Some name)) as [span'|e]; simpl; auto.
  clear. induction rest as [|kv rest IH]; simpl; auto.
Qed.

Lemma fold_left_Throw (e : exn) (f : Jaeger.Span -> string * value -> result Jaeger.Span)
  fields :
  fold_left (fun r kv => do s <- r ;; f s kv) fields (Throw e) = Throw e.
Proof. induction fields; simpl; auto. Qed.

Lemma truthy_nonempty s : s <> "" -> truthy (VString s) = true.
Proof.
  intros Hs. simpl. destruct (String.eqb s "") eqn:E; auto.
  apply String.eqb_eq in E. contradiction.
Qed.

Lemma append_nonempty p s : p +:+ "." +:+ s <> "".
Proof. destruct p; discriminate. Qed.

Lemma tagName_dottedPath prefix key :
  prefix <> Some "" -> tagName prefix key = dottedPath prefix key.
Proof.
  destruct prefix as [p|]; simpl; auto. intros Hp.
  destruct (String.eqb p "") eqn:E; auto.
  apply String.eqb_eq in E. congruence.
Qed.

(** Under a path that is not empty, [addTags] sets the leaves of the value,
    provided none is [null]. *)
Lemma addTags_leaves v :
  forall span key prefix,
    nullFree v = true ->
    tagName prefix key <> "" ->
    addTags span key v prefix =
    Ok (Jaeger.setTags span (leaves (tagName prefix key) v)).
Proof.
  induction v as [ | | b | q | s | fields IH] using value_nested_ind;
    intros span key prefix Hfree Hname; try reflexivity; try discriminate.
  rewrite addTags_object, leaves_object. rewrite nullFree_object in Hfree.
  revert span Hfree.
  induction IH as [|[k child] rest Hchild _ IHrest]; intros span Hfree;
    cbn [fold_left flat_map fst snd].
  - now rewrite setTags_nil.
  - simpl in Hfree. apply andb_prop in Hfree. destruct Hfree as [Hc Hrest].
    cbn [JS.bind]. rewrite Hchild; auto;
      [|rewrite tagName_dottedPath by congruence; apply append_nonempty].
    rewrite (tagName_dottedPath (Some (tagName prefix key))) by congruence.
    rewrite IHrest by assumption.
    now rewrite setTags_setTags.
Qed.

(** [addTags] throws when the value holds a [null], and otherwise only sets
    tags. *)
Lemma addTags_total v :
  forall span key prefix,
    (nullFree v = true ->
     exists added, addTags span key v prefix = Ok (Jaeger.setTags span added))
    /\ (nullFree v = false ->
        addTags span key v prefix =
        Throw (TypeError "Cannot convert undefined or null to object")).
Proof.
  induction v as [ | | b | q | s | fields IH] using value_nested_ind;
    intros span key prefix;
    try (split; [intros _; eexists; simpl; rewrite setTag_setTags; reflexivity
                | simpl; discriminate]).
  - split; [simpl; discriminate | reflexivity].
  - rewrite addTags_object, nullFree_object. revert span.
    induction IH as [|[k child] rest Hchild _ IHrest]; intros span; simpl.
    + split; [|discriminate]. exists []. now rewrite setTags_nil.
    + destruct (Hchild span k (Some (tagName prefix key))) as [Hok Hthrow].
      cbn [snd] in Hok, Hthrow.
      destruct (nullFree child) eqn:Hchildfree; simpl.
      * destruct (Hok eq_refl) as [added ->]. simpl.
        destruct (IHrest (Jaeger.setTags span added)) as [Hok' Hthrow'].
        split; auto. intros Hfree. destruct (Hok' Hfree) as [added' ->].
        rewrite setTags_setTags. eauto.
      * split; [discriminate|]. intros _. rewrite Hthrow by reflexivity.
        apply fold_left_Throw.
Qed.

Lemma addTags_Ok v span key prefix span' :
  addTags span key v prefix = Ok span' ->
  nullFree v = true /\ exists added, span' = Jaeger.setTags span added.
Proof.
  intros Hok. destruct (addTags_total v span key prefix) as [Hfree Hnull].
  destruct (nullFree v).
  - split; auto. destruct (Hfree eq_refl) as [added Heq].
    exists added. congruence.
  - rewrite Hnull in Hok by reflexivity. discriminate.
Qed.

(** X27: [addTags] on a scalar other than [null] sets exactly one tag, keyed
    by the current dotted path. On a value without [null], under a path that
    is not empty, it sets the leaves of the value: for a nested mapping those
    of each property, with [.<key>] appended to the path. Flattening [{a: {b:
    1, c: 2}}] under ["x"] sets exactly [x.a.b = 1] and [x.a.c = 2]. *)
Theorem addTags_flattens (span : Jaeger.Span) (key : string) (v : value)
  (prefix : option string) :
  prefix <> Some "" ->
  (typeofObject v = false ->
   addTags span key v prefix = Ok (Jaeger.setTag span (dottedPath prefix key) v))
  /\ (nullFree v = true ->
      dottedPath prefix key <> "" ->
      addTags span key v prefix =
      Ok (Jaeger.setTags span (leaves (dottedPath prefix key) v)))
  /\ addTags span "x"
       (VObject [("a", VObject [("b", VNumber 1); ("c", VNumber 2)])]) None =
     Ok (Jaeger.setTags span [("x.a.b", VNumber 1); ("x.a.c", VNumber 2)]).
Proof.
  intros Hprefix. rewrite <- (tagName_dottedPath prefix key Hprefix).
  split; [|split].
  - destruct v; try discriminate; reflexivity.
  - intros Hfree Hname. now apply addTags_leaves.
  - rewrite addTags_leaves; [reflexivity | reflexivity | discriminate].
Qed.

(** X27 on an input: [{a: {b: 1, c: 2}}] under the key ["a"] of a mapping
    under ["x"]. *)
Lemma addTags_flattens_witness :
  let span := Jaeger.startSpan (Sample.tracer 0 "posts") Sample.ownContext
                (VString "posts.find") (VNumber 1000) None (VObject []) in
  addTags span "a" (VObject [("b", VNumber 1); ("c", VNumber 2)]) (Some "x") =
  Ok (Jaeger.setTags span [("x.a.b", VNumber 1); ("x.a.c", VNumber 2)])
  /\ addTags span "b" (VNumber 1) (Some "x.a") =
     Ok (Jaeger.setTag span "x.a.b" (VNumber 1)).
Proof.
  intros span. split.
  - apply (proj1 (proj2 (addTags_flattens span "a"
             (VObject [("b", VNumber 1); ("c", VNumber 2)]) (Some "x")
             ltac:(discriminate))));
      [reflexivity | discriminate].
  - apply (proj1 (addTags_flattens span "b" (VNumber 1) (Some "x.a")
             ltac:(discriminate))).
    reflexivity.
Defined.

(** C9, at the failing input: the scalar [null]. [addTags] sets no tag for
    it under the dotted path but throws, since [typeof null == "object"]
    sends it to [Object.keys]; so it does on a mapping with a [null] leaf,
    [{a: {b: 1, c: null}}] under ["x"]. The flattening of the claim emits
    one entry for every scalar and all leaves of a mapping: [x.a = null] in
    the first case, [x.a.b = 1] and [x.a.c = null] in the second. *)
Lemma addTags_null_leaf_throws :
  let span := Jaeger.startSpan (Sample.tracer 0 "posts") Sample.ownContext
                (VString "posts.find") (VNumber 1000) None (VObject []) in
  let nested := VObject [("a", VObject [("b", VNumber 1); ("c", VNull)])] in
  addTags span "a" VNull (Some "x") =
  Throw (TypeError "Cannot convert undefined or null to object")
  /\ leaves (dottedPath (Some "x") "a") VNull = [("x.a", VNull)]
  /\ addTags span "x" nested None =
     Throw (TypeError "Cannot convert undefined or null to object")
  /\ leaves "x" nested = [("x.a.b", VNumber 1); ("x.a.c", VNull)].
Proof. vm_compute. auto. Qed.

(** ** Span conversion *)

Section Conversion.
Context `{BaseTraceExporter}.

(** What a call of [generateJaegerSpan] that returns has done. *)
Lemma generateJaegerSpan_Ok own span this js span' this' :
  generateJaegerSpan own span this = (Ok js, (span', this')) ->
  exists serviceName tracer parentCtx,
    serviceNameOf span = Ok serviceName
    /\ getTracer serviceName this = (Ok tracer, this')
    /\ parentContext span = Ok parentCtx
    /\ finishJaegerSpan span serviceName
         (Jaeger.startSpan tracer own (Span.name span) (Span.startTime span)
            parentCtx (flattenTags (VObject (mergedTags this' span)))) = Ok js
    /\ span' = spanAfterMerge this' span.
Proof.
  unfold generateJaegerSpan.
  destruct (serviceNameOf span) as [serviceName|e] eqn:Hname; [|discriminate].
  destruct (getTracer serviceName this) as [[tracer|e] this1] eqn:Hget;
    [|discriminate].
  destruct (parentContext span) as [parentCtx|e] eqn:Hparent; [|discriminate].
  intros [= Hfinish <- <-]. exists serviceName, tracer, parentCtx.
  repeat split; auto.
Qed.

Lemma bind_Ok {A B : Type} (r : result A) (k : A -> result B) (b : B) :
  JS.bind r k = Ok b -> exists a, r = Ok a /\ k a = Ok b.
Proof. destruct r as [a|e]; simpl; [eauto | discriminate]. Qed.

(** The error block only sets tags. *)
Lemma addErrorTags_Ok jaegerSpan error jaegerSpan' :
  addErrorTags jaegerSpan error = Ok jaegerSpan' ->
  exists added, jaegerSpan' = Jaeger.setTags jaegerSpan added.
Proof.
  unfold addErrorTags. destruct (truthy error).
  - intros Hrun.
    repeat match type of Hrun with
    | JS.bind (addTags _ _ _ _) _ = Ok _ =>
        let s := fresh "s" in let Hs := fresh "Hs" in let l := fresh "l" in
        apply bind_Ok in Hrun; destruct Hrun as (s & Hs & Hrun);
        apply addTags_Ok in Hs; destruct Hs as (_ & l & ->)
    | JS.bind (if ?c then _ else _) _ = Ok _ =>
        let s := fresh "s" in let Hs := fresh "Hs" in let l := fresh "l" in
        apply bind_Ok in Hrun; destruct Hrun as (s & Hs & Hrun);
        destruct c;
        [apply addTags_Ok in Hs; destruct Hs as (_ & l & ->)
        |injection Hs as <-]
    | JS.bind _ _ = Ok _ =>
        let v := fresh "v" in
        apply bind_Ok in Hrun; destruct Hrun as (v & _ & Hrun)
    end;
    (destruct (truthy _);
     [apply bind_Ok in Hrun; destruct Hrun as (text & _ & Hrun);
      apply addTags_Ok in Hrun; destruct Hrun as (_ & l' & ->)
     |injection Hrun as <-]);
    rewrite ?setTags_setTags; eauto.
  - intros [= <-]. exists []. now rewrite setTags_nil.
Qed.

(** What [finishJaegerSpan] that returns has done to the started span. *)
Lemma finishJaegerSpan_Ok span serviceName started js :
  finishJaegerSpan span serviceName started = Ok js ->
  exists serviceTags traceId spanId errorTags,
    addTags started "service" serviceName None =
    Ok (Jaeger.setTags started serviceTags)
    /\ convertID (Span.traceID span) = Ok traceId
    /\ convertID (Span.id span) = Ok spanId
    /\ nullFree serviceName = true
    /\ addErrorTags
         (Jaeger.setContextIds
            (Jaeger.setTags started
               (serviceTags ++ [(Jaeger.SPAN_KIND, VString Jaeger.SPAN_KIND_RPC_SERVER)]))
            traceId spanId) (Span.error span) =
       Ok (Jaeger.setTags
             (Jaeger.setContextIds
                (Jaeger.setTags started
                   (serviceTags ++ [(Jaeger.SPAN_KIND, VString Jaeger.SPAN_KIND_RPC_SERVER)]))
                traceId spanId) errorTags)
    /\ js = Jaeger.finish
              (Jaeger.setTags
                 (Jaeger.setContextIds
                    (Jaeger.setTags started
                       (serviceTags ++ [(Jaeger.SPAN_KIND, VString Jaeger.SPAN_KIND_RPC_SERVER)]))
                    traceId spanId) errorTags)
              (Span.endTime span).
Proof.
  unfold finishJaegerSpan. intros Hrun.
  apply bind_Ok in Hrun. destruct Hrun as (s1 & Hs1 & Hrun).
  pose proof (addTags_Ok _ _ _ _ _ Hs1) as (Hfree & serviceTags & ->).
  apply bind_Ok in Hrun. destruct Hrun as (s2 & Hs2 & Hrun).
  simpl in Hs2. injection Hs2 as <-.
  apply bind_Ok in Hrun. destruct Hrun as (traceId & Htrace & Hrun).
  apply bind_Ok in Hrun. destruct Hrun as (spanId & Hspan & Hrun).
  apply bind_Ok in Hrun. destruct Hrun as (s4 & Hs4 & Hrun).
  injection Hrun as <-.
  rewrite setTag_setTags, setTags_setTags in Hs4.
  destruct (addErrorTags_Ok _ _ _ Hs4) as [errorTags ->].
  exists serviceTags, traceId, spanId, errorTags. repeat split; auto.
Qed.

(** C5: for every span that [generateJaegerSpan] converts, the context of the
    returned span holds [convertID(span.traceID)] and [convertID(span.id)].
    When [span.parentID] is present (truthy), the span has a parent context
    of trace id [convertID(span.traceID)] and span id
    [convertID(span.parentID)], with empty baggage and flags 1; when it is
    absent, the span has no parent context. *)
Theorem generateJaegerSpan_identifiers own span this js after :
  generateJaegerSpan own span this = (Ok js, after) ->
  convertID (Span.traceID span) = Ok (Jaeger.traceId (Jaeger.context js))
  /\ convertID (Span.id span) = Ok (Jaeger.spanId (Jaeger.context js))
  /\ (truthy (Span.parentID span) = true ->
      exists parent,
        Jaeger.childOf js = Some parent
        /\ convertID (Span.traceID span) = Ok (Jaeger.traceId parent)
        /\ convertID (Span.parentID span) = Ok (Jaeger.spanId parent)
        /\ Jaeger.baggage parent = []
        /\ Jaeger.flags parent = 1%Z)
  /\ (truthy (Span.parentID span) = false -> Jaeger.childOf js = None).
Proof.
  destruct after as [span' this']. intros Hrun.
  apply generateJaegerSpan_Ok in Hrun.
  destruct Hrun as (serviceName & tracer & parentCtx & _ & _ & Hparent & Hfinish & _).
  apply finishJaegerSpan_Ok in Hfinish.
  destruct Hfinish as (serviceTags & traceId & spanId & errorTags
                       & _ & Htrace & Hspan & _ & _ & ->).
  simpl. repeat split; auto.
  - intros Htruthy. unfold parentContext in Hparent. rewrite Htruthy in Hparent.
    apply bind_Ok in Hparent. destruct Hparent as (t & Ht & Hparent).
    apply bind_Ok in Hparent. destruct Hparent as (p & Hp & Hparent).
    injection Hparent as <-. eexists. repeat split; eauto.
  - intros Hfalsy. unfold parentContext in Hparent. rewrite Hfalsy in Hparent.
    now injection Hparent as <-.
Qed.

Lemma addTags_scalar jaegerSpan key v :
  typeofObject v = false ->
  addTags jaegerSpan key v None = Ok (Jaeger.setTags jaegerSpan [(key, v)]).
Proof. destruct v; try discriminate; reflexivity. Qed.

Lemma truthy_callToString v :
  truthy v = true -> callToString v = Ok (toString v).
Proof. destruct v; try discriminate; reflexivity. Qed.

(** The tags the error block sets for an error with scalar name, message,
    type and code. *)
Lemma addErrorTags_exact jaegerSpan error jaegerSpan' :
  typeofObject (getField error "name") = false ->
  typeofObject (getField error "message") = false ->
  typeofObject (getField error "type") = false ->
  typeofObject (getField error "code") = false ->
  addErrorTags jaegerSpan (VObject error) = Ok jaegerSpan' ->
  jaegerSpan' = Jaeger.setTags jaegerSpan (errorTagsOf error).
Proof.
  intros Hname Hmessage Htype Hcode. unfold addErrorTags, errorTagsOf.
  cbn [truthy JS.bind get].
  rewrite (addTags_scalar _ _ (VBool true)) by reflexivity. cbn [JS.bind].
  rewrite !addTags_scalar by assumption. cbn [JS.bind].
  rewrite !addTags_scalar by assumption. cbn [JS.bind].
  rewrite !addTags_scalar by assumption. cbn [JS.bind].
  rewrite !addTags_scalar by assumption. cbn [JS.bind].
  rewrite !setTags_setTags. cbn [app].
  intros Hrun. apply bind_Ok in Hrun. destruct Hrun as (s & Hdata & Hrun).
  assert (Hs : s = Jaeger.setTags
                     (Jaeger.setTags jaegerSpan
                        [(Jaeger.ERROR, VBool true);
                         ("error.name", getField error "name");
                         ("error.message", getField error "message");
                         ("error.type", getField error "type");
                         ("error.code", getField error "code")])
                     (if truthy (getField error "data")
                      then leaves "error.data" (getField error "data") else [])).
  { destruct (truthy (getField error "data")).
    - pose proof (addTags_Ok _ _ _ _ _ Hdata) as [Hfree _].
      rewrite addTags_leaves in Hdata; [|assumption|discriminate].
      unfold tagName in Hdata. congruence.
    - rewrite setTags_nil. congruence. }
  subst s. rewrite setTags_setTags in Hrun.
  destruct (truthy (getField error "stack")) eqn:Hstack.
  - rewrite truthy_callToString in Hrun by assumption. cbn [JS.bind] in Hrun.
    rewrite addTags_scalar, setTags_setTags in Hrun by reflexivity.
    rewrite <- app_assoc in Hrun. injection Hrun as <-. reflexivity.
  - rewrite app_nil_r. injection Hrun as <-. reflexivity.
Qed.

Lemma withError_conversion span v this :
  serviceNameOf (Span.withError span v) = serviceNameOf span
  /\ parentContext (Span.withError span v) = parentContext span
  /\ mergedTags this (Span.withError span v) = mergedTags this span
  /\ spanAfterMerge this (Span.withError span v) =
     Span.withError (spanAfterMerge this span) v.
Proof.
  repeat split. unfold spanAfterMerge. simpl.
  destruct (Lodash.isObject (Span.service span)); reflexivity.
Qed.

(** C7 (amended): for every span that [generateJaegerSpan] converts and whose
    error holds a name, message, type and code that are scalars, the tags of
    the returned span are those of the same span converted without its error,
    followed by [error = true], [error.name], [error.message], [error.type]
    and [error.code] with the error's values; then, if and only if
    [span.error.data] is truthy, the leaves of the data under [error.data]
    (the one tag [error.data] when the data is a scalar, one tag per leaf
    [error.data.<path>] when it is a mapping); then, if and only if
    [span.error.stack] is truthy, [error.stack] with the stack as a string. *)
Theorem generateJaegerSpan_error_tags own span this js after error :
  generateJaegerSpan own span this = (Ok js, after) ->
  Span.error span = VObject error ->
  typeofObject (getField error "name") = false ->
  typeofObject (getField error "message") = false ->
  typeofObject (getField error "type") = false ->
  typeofObject (getField error "code") = false ->
  exists js0,
    generateJaegerSpan own (Span.withError span VUndefined) this =
    (Ok js0, (Span.withError (fst after) VUndefined, snd after))
    /\ Jaeger.tags js = (Jaeger.tags js0 ++ errorTagsOf error)%list.
Proof.
  destruct after as [span' this']. intros Hrun Herror Hname Hmessage Htype Hcode.
  apply generateJaegerSpan_Ok in Hrun.
  destruct Hrun as (serviceName & tracer & parentCtx
                    & Hservice & Hget & Hparent & Hfinish & ->).
  apply finishJaegerSpan_Ok in Hfinish.
  destruct Hfinish as (serviceTags & traceId & spanId & errorTags
                       & Hservicetags & Htrace & Hspan & Hfree & Herr & ->).
  rewrite Herror in Herr.
  apply addErrorTags_exact in Herr; try assumption.
  exists (Jaeger.finish
            (Jaeger.setContextIds
               (Jaeger.setTags
                  (Jaeger.startSpan tracer own (Span.name span)
                     (Span.startTime span) parentCtx
                     (flattenTags (VObject (mergedTags this' span))))
                  (serviceTags ++
                   [(Jaeger.SPAN_KIND, VString Jaeger.SPAN_KIND_RPC_SERVER)]))
               traceId spanId)
            (Span.endTime span)).
  split.
  - destruct (withError_conversion span VUndefined this')
      as (Hservice' & Hparent' & Hmerged' & Hafter').
    unfold generateJaegerSpan.
    rewrite Hservice', Hservice, Hget, Hparent', Hparent, Hmerged', Hafter'.
    cbn [fst snd]. f_equal.
    unfold finishJaegerSpan.
    cbn [Span.traceID Span.id Span.name Span.startTime Span.endTime
         Span.withError Span.error].
    rewrite Hservicetags. cbn [JS.bind].
    rewrite (addTags_scalar _ _ (VString Jaeger.SPAN_KIND_RPC_SERVER))
      by reflexivity.
    cbn [JS.bind]. rewrite Htrace, Hspan. cbn [JS.bind addErrorTags truthy].
    now rewrite setTags_setTags.
  - rewrite Herr. cbn [Jaeger.tags Jaeger.finish Jaeger.setTags Jaeger.setContextIds].
    reflexivity.
Qed.

Lemma convertID_Ok id :
  is_Ok (convertID id) <-> convertibleID id = true.
Proof.
  unfold convertID. destruct id as [ | | [|] | q | s | fields]; simpl;
    try tauto; try (split; [intros [] | discriminate]).
  - destruct (negb (Qnum q =? 0)%Z); simpl;
      [split; [intros [] | discriminate] | tauto].
  - destruct (negb (String.eqb s "")); simpl; tauto.
Qed.

Lemma is_Ok_exists {A : Type} (r : result A) : is_Ok r <-> exists a, r = Ok a.
Proof.
  destruct r; simpl; split; eauto; try tauto. intros [a Ha]. discriminate.
Qed.

Lemma addTags_is_Ok jaegerSpan key v prefix :
  is_Ok (addTags jaegerSpan key v prefix) <-> nullFree v = true.
Proof.
  destruct (addTags_total v jaegerSpan key prefix) as [Hfree Hnull].
  destruct (nullFree v).
  - destruct (Hfree eq_refl) as [added ->]. simpl. tauto.
  - rewrite Hnull by reflexivity. simpl. split; [tauto | discriminate].
Qed.

(** The error block returns exactly on the renderable errors. *)
Lemma addErrorTags_is_Ok jaegerSpan error :
  is_Ok (addErrorTags jaegerSpan error) <-> renderable error = true.
Proof.
  unfold addErrorTags. destruct (truthy error) eqn:Htruthy;
    [|destruct error; try discriminate; simpl; tauto].
  assert (Hget : forall key,
    get error key =
    Ok (match error with VObject fields => getField fields key | _ => VUndefined end)).
  { destruct error; try discriminate; reflexivity. }
  rewrite !Hget. cbn [JS.bind].
  set (field := fun key =>
         match error with VObject fields => getField fields key | _ => VUndefined end).
  assert (Hrest : forall s,
    is_Ok (do s1 <- (if truthy (field "data")
                     then addTags s "error.data" (field "data") None else Ok s) ;;
           if truthy (field "stack")
           then do text <- callToString (field "stack") ;;
                addTags s1 "error.stack" (VString text) None
           else Ok s1) <->
    (negb (truthy (field "data")) || nullFree (field "data")) = true).
  { intros s.
    assert (Hstack : forall s1,
      is_Ok (if truthy (field "stack")
             then do text <- callToString (field "stack") ;;
                  addTags s1 "error.stack" (VString text) None
             else Ok s1)).
    { intros s1. destruct (truthy (field "stack")) eqn:Hs; simpl; auto.
      rewrite truthy_callToString by assumption. simpl. exact I. }
    destruct (truthy (field "data")); cbn [negb orb JS.bind].
    - destruct (addTags_total (field "data") s "error.data" None) as [Hok Hnull].
      destruct (nullFree (field "data")).
      + destruct (Hok eq_refl) as [added ->]. cbn [JS.bind].
        split; [reflexivity | intros _; apply Hstack].
      + rewrite Hnull by reflexivity. simpl. split; [tauto | discriminate].
    - split; [reflexivity | intros _; apply Hstack]. }
  assert (Hchain : forall s key v (k : Jaeger.Span -> result Jaeger.Span) (P : Prop),
    (forall s', is_Ok (k s') <-> P) ->
    (is_Ok (do s' <- addTags s key v None ;; k s') <-> nullFree v = true /\ P)).
  { intros s key v k P Hk.
    destruct (addTags_total v s key None) as [Hok Hnull].
    destruct (nullFree v).
    - destruct (Hok eq_refl) as [added ->]. simpl. rewrite Hk. tauto.
    - rewrite Hnull by reflexivity. simpl. split; [tauto | intros [? _]; discriminate]. }
  rewrite (Hchain _ _ _ _
             (nullFree (field "name") = true /\
              nullFree (field "message") = true /\
              nullFree (field "type") = true /\
              nullFree (field "code") = true /\
              (negb (truthy (field "data")) || nullFree (field "data")) = true)).
  - unfold renderable. subst field.
    destruct error as [ | | [|] | q | s | fields]; try discriminate;
      cbn [nullFree negb orb truthy]; rewrite ?andb_true_iff; tauto.
  - intros s1. apply Hchain. intros s2. apply Hchain. intros s3.
    apply Hchain. intros s4. apply Hchain. intros s5. apply Hrest.
Qed.

(** [generateJaegerSpan] returns exactly on the convertible spans. *)
Lemma generateJaegerSpan_returns own span this :
  is_Ok (fst (generateJaegerSpan own span this)) <-> convertible this span.
Proof.
  split.
  - destruct (generateJaegerSpan own span this) as [[js|e] [span' this']] eqn:Hrun;
      [intros _|intros []].
    apply generateJaegerSpan_Ok in Hrun.
    destruct Hrun as (serviceName & tracer & parentCtx
                      & Hservice & Hget & Hparent & Hfinish & _).
    pose proof Hfinish as Hfinish'. apply finishJaegerSpan_Ok in Hfinish'.
    destruct Hfinish' as (serviceTags & traceId & spanId & errorTags
                          & _ & Htrace & Hspan & Hfree & Herr & _).
    unfold serviceNameOf in Hservice.
    destruct (truthy (Span.service span)) eqn:Htruthy;
      [|injection Hservice as <-; discriminate].
    exists serviceName. repeat split; auto.
    + intros Hnone. unfold getTracer in Hget. rewrite Hnone in Hget.
      destruct (getSampler this VUndefined); [exact I | discriminate].
    + apply convertID_Ok. now rewrite Htrace.
    + unfold parentContext in Hparent.
      destruct (truthy (Span.parentID span)) eqn:Hp.
      * apply bind_Ok in Hparent. destruct Hparent as (t & _ & Hparent).
        apply bind_Ok in Hparent. destruct Hparent as (p & Hp' & _).
        apply convertID_Ok. now rewrite Hp'.
      * unfold convertibleID. rewrite Hp. now destruct (Span.parentID span).
    + apply convertID_Ok. now rewrite Hspan.
    + apply (addErrorTags_is_Ok
               (Jaeger.setContextIds
                  (Jaeger.setTags
                     (Jaeger.startSpan tracer own (Span.name span)
                        (Span.startTime span) parentCtx
                        (flattenTags (VObject (mergedTags this' span))))
                     (serviceTags ++
                      [(Jaeger.SPAN_KIND, VString Jaeger.SPAN_KIND_RPC_SERVER)]))
                  traceId spanId)).
      now rewrite Herr.
  - intros (serviceName & Htruthy & Hname & Hfree & Hsampler
            & Htrace & Hparent & Hid & Herror).
    apply convertID_Ok, is_Ok_exists in Htrace, Hparent, Hid.
    destruct Htrace as [traceId Htrace]. destruct Hparent as [parentId Hparent].
    destruct Hid as [spanId Hid].
    unfold generateJaegerSpan, serviceNameOf. rewrite Htruthy, Hname.
    assert (Hget : exists tracer this',
      getTracer serviceName this = (Ok tracer, this')).
    { unfold getTracer.
      destruct (tracers this !! toString serviceName); [eauto|].
      destruct (getSampler this VUndefined); [eauto | destruct (Hsampler eq_refl)]. }
    destruct Hget as (tracer & this' & ->).
    assert (Hctx : exists parentCtx, parentContext span = Ok parentCtx).
    { unfold parentContext. rewrite Htrace, Hparent.
      destruct (truthy (Span.parentID span)); simpl; eauto. }
    destruct Hctx as [parentCtx ->]. cbn [fst].
    unfold finishJaegerSpan.
    destruct (addTags_total serviceName
                (Jaeger.startSpan tracer own (Span.name span)
                   (Span.startTime span) parentCtx
                   (flattenTags (VObject (mergedTags this' span))))
                "service" None) as [Hok _].
    destruct (Hok Hfree) as [added ->]. cbn [JS.bind].
    rewrite (addTags_scalar _ _ (VString Jaeger.SPAN_KIND_RPC_SERVER))
      by reflexivity.
    cbn [JS.bind]. rewrite Htrace, Hid. cbn [JS.bind].
    match goal with
    | |- is_Ok (JS.bind (addErrorTags ?s ?e) _) =>
        pose proof (proj2 (addErrorTags_is_Ok s e) Herror) as Herr;
        destruct (addErrorTags s e); [exact I | destruct Herr]
    end.
Qed.

End Conversion.

(** ** The conversion on sample spans *)

(** C5 on an input: a span of service [posts] with a parent. *)
Lemma generateJaegerSpan_identifiers_witness :
  let this := Sample.exporter Sample.constConfig VNull in
  let span := Sample.span (VString "fedcba98-7654-3210-fedc-ba9876543210")
                (VObject []) VUndefined in
  exists js parent,
    fst (@generateJaegerSpan specBase Sample.ownContext span this) = Ok js
    /\ convertID (Span.traceID span) = Ok (Jaeger.traceId (Jaeger.context js))
    /\ convertID (Span.id span) = Ok (Jaeger.spanId (Jaeger.context js))
    /\ Jaeger.childOf js = Some parent
    /\ convertID (Span.traceID span) = Ok (Jaeger.traceId parent)
    /\ convertID (Span.parentID span) = Ok (Jaeger.spanId parent)
    /\ Jaeger.baggage parent = []
    /\ Jaeger.flags parent = 1%Z.
Proof.
  intros this span.
  let run := eval vm_compute in
    (@generateJaegerSpan specBase Sample.ownContext span this) in
  match run with
  | (Ok ?js, ?after) =>
      assert (Hrun : @generateJaegerSpan specBase Sample.ownContext span this =
                     (Ok js, after)) by (vm_compute; reflexivity)
  end.
  destruct (@generateJaegerSpan_identifiers specBase _ _ _ _ _ Hrun)
    as (Htrace & Hid & Hparent & _).
  destruct (Hparent eq_refl) as (parent & Hchild & Hptrace & Hpid & Hbag & Hflags).
  eexists. exists parent.
  split; [rewrite Hrun; reflexivity|].
  exact (conj Htrace (conj Hid (conj Hchild (conj Hptrace (conj Hpid
           (conj Hbag Hflags)))))).
Defined.

(** C7, as stated, fails. With [span.error.data = {reason: "x"}] the data is
    present and no tag [error.data] is set: the data is flattened into
    [error.data.reason]. With [span.error.data = false] the data is present
    and the error adds no tag for it at all. *)
Lemma error_data_tag_counterexample :
  let this := Sample.exporter Sample.constConfig VNull in
  let nested := Sample.span VNull (VObject [])
                  (Sample.error [("data", VObject [("reason", VString "x")])]) in
  let falsy := Sample.span VNull (VObject [])
                 (Sample.error [("data", VBool false)]) in
  exists js js',
    fst (@generateJaegerSpan specBase Sample.ownContext nested this) = Ok js
    /\ get (Span.error nested) "data" = Ok (VObject [("reason", VString "x")])
    /\ getOwn (Jaeger.tags js) "error.data" = None
    /\ getOwn (Jaeger.tags js) "error.data.reason" = Some (VString "x")
    /\ fst (@generateJaegerSpan specBase Sample.ownContext falsy this) = Ok js'
    /\ get (Span.error falsy) "data" = Ok (VBool false)
    /\ map fst (Jaeger.tags js') =
       ["service.name"; "service"; "span.kind"; "error"; "error.name";
        "error.message"; "error.type"; "error.code"].
Proof.
  eexists. eexists.
  split; [vm_compute; reflexivity|].
  split; [reflexivity|]. split; [reflexivity|]. split; [reflexivity|].
  split; [vm_compute; reflexivity|].
  split; reflexivity.
Qed.

(** C7 (amended) on an input: the error of the spec with the data [{reason:
    "x"}] and a stack. *)
Lemma generateJaegerSpan_error_tags_witness :
  let this := Sample.exporter Sample.constConfig VNull in
  let error := [("name", VString "E"); ("message", VString "boom");
                ("type", VString "T"); ("code", VNumber 500);
                ("data", VObject [("reason", VString "x")]);
                ("stack", VString "Error: boom at find")] in
  let span := Sample.span VNull (VObject []) (VObject error) in
  exists js js0,
    fst (@generateJaegerSpan specBase Sample.ownContext span this) = Ok js
    /\ fst (@generateJaegerSpan specBase Sample.ownContext
              (Span.withError span VUndefined) this) = Ok js0
    /\ Jaeger.tags js =
       (Jaeger.tags js0 ++
        [("error", VBool true); ("error.name", VString "E");
         ("error.message", VString "boom"); ("error.type", VString "T");
         ("error.code", VNumber 500); ("error.data.reason", VString "x");
         ("error.stack", VString "Error: boom at find")])%list.
Proof.
  intros this error span.
  let run := eval vm_compute in
    (@generateJaegerSpan specBase Sample.ownContext span this) in
  match run with
  | (Ok ?js, ?after) =>
      assert (Hrun : @generateJaegerSpan specBase Sample.ownContext span this =
                     (Ok js, after)) by (vm_compute; reflexivity)
  end.
  destruct (@generateJaegerSpan_error_tags specBase _ _ _ _ _ error Hrun
              eq_refl eq_refl eq_refl eq_refl eq_refl)
    as (js0 & Hrun0 & Htags).
  eexists. exists js0.
  split; [rewrite Hrun; reflexivity|].
  split; [rewrite Hrun0; reflexivity|].
  exact Htags.
Defined.

(** C8, at the failing input: an error whose name is [null]. [addTags] takes
    [null] for a mapping ([typeof null == "object"]) and [Object.keys(null)]
    throws. The same test makes the conversion of a span without service
    throw, whose service name is [null] by line 147. *)
Lemma generateJaegerSpan_null_error_name_throws :
  let this := Sample.exporter Sample.constConfig VNull in
  let span := Sample.span VNull (VObject [])
                (VObject [("name", VNull); ("message", VString "boom");
                          ("type", VString "T"); ("code", VNumber 500)]) in
  fst (@generateJaegerSpan specBase Sample.ownContext span this) =
  Throw (TypeError "Cannot convert undefined or null to object")
  /\ fst (@generateJaegerSpan specBase Sample.ownContext
            (Span.withService (Sample.span VNull (VObject []) VUndefined) VUndefined)
            this) =
     Throw (TypeError "Cannot convert undefined or null to object").
Proof. split; vm_compute; reflexivity. Qed.

(** C10, at the failing input: tags that hold a mapping under [service]. The
    merge fills the span's own service descriptor: after the call
    [span.service] has gained [version], while [span.tags] is as it was. The
    merge run on the heap, where the object literal holds a reference to the
    service descriptor, leaves the same three values. *)
Lemma generateJaegerSpan_mutates_service :
  let this := Sample.exporter Sample.constConfig VNull in
  let span := Sample.span VNull
                (VObject [("service", VObject [("version", VNumber 1)])])
                VUndefined in
  let run := @generateJaegerSpan specBase Sample.ownContext span this in
  is_Ok (fst run)
  /\ Span.service span = VObject [("name", VString "posts")]
  /\ Span.service (fst (snd run)) =
     VObject [("name", VString "posts"); ("version", VNumber 1)]
  /\ Span.tags (fst (snd run)) = Span.tags span
  /\ Heap.mergeTags 4 (Span.service span) (Span.tags span) (defaultTags this) =
     Some (VObject (mergedTags this span),
           Span.service (fst (snd run)),
           Span.tags (fst (snd run))).
Proof. vm_compute. auto. Qed.

(** ** The merge on the heap and on values *)

Lemma frame_refl h foot : frame h h foot.
Proof. split; auto. Qed.

Lemma frame_trans h1 h2 h3 (foot foot' : gset nat) :
  frame h1 h2 foot ->
  frame h2 h3 foot' ->
  (forall a, a ∈ foot' -> a ∈ foot \/ length h1 <= a) ->
  frame h1 h3 foot.
Proof.
  intros [Hlen Hsame] [Hlen' Hsame'] Hfoot. split; [lia|].
  intros a Ha Hnot. rewrite Hsame'; [now apply Hsame | lia |].
  intros Hin. apply Hfoot in Hin as [?|?]; [tauto | lia].
Qed.

(** The objects of a represented value are objects of the heap. *)
Lemma represents_bound h r v foot :
  represents h r v foot -> forall a, a ∈ foot -> a < length h.
Proof.
  revert r v foot.
  apply (represents_mutual h
           (fun r v foot _ => forall a, a ∈ foot -> a < length h)
           (fun entries fields foot _ => forall a, a ∈ foot -> a < length h)).
  1-5, 7: intros; set_solver.
  - intros address entries fields foot Hlookup _ IH _ a Ha.
    apply elem_of_union in Ha as [Ha|Ha]; auto.
    apply elem_of_singleton in Ha. subst a. eapply lookup_lt_Some; eauto.
  - intros key r v entries fields foot foot' _ IH _ IH' _ a Ha.
    apply elem_of_union in Ha as [Ha|Ha]; auto.
Qed.

Lemma representsAll_bound h entries fields foot :
  representsAll h entries fields foot -> forall a, a ∈ foot -> a < length h.
Proof.
  induction 1 as [|key r v entries fields foot foot' Hr _ IH _]; [set_solver|].
  intros a Ha. apply elem_of_union in Ha as [Ha|Ha]; auto.
  eapply represents_bound; eauto.
Qed.

(** A value is represented as before in a heap that agrees on its objects. *)
Lemma represents_frame h r v foot :
  represents h r v foot ->
  forall h', (forall a, a ∈ foot -> h' !! a = h !! a) -> represents h' r v foot.
Proof.
  revert r v foot.
  apply (represents_mutual h
           (fun r v foot _ =>
              forall h', (forall a, a ∈ foot -> h' !! a = h !! a) ->
                         represents h' r v foot)
           (fun entries fields foot _ =>
              forall h', (forall a, a ∈ foot -> h' !! a = h !! a) ->
                         representsAll h' entries fields foot)).
  1-5, 7: intros; constructor.
  - intros address entries fields foot Hlookup _ IH Hnot h' Hsame.
    apply (represents_object h' address entries fields foot); auto.
    + rewrite Hsame; [assumption | set_solver].
    + apply IH. intros a Ha. apply Hsame. set_solver.
  - intros key r v entries fields foot foot' _ IH _ IH' Hdisjoint h' Hsame.
    constructor; auto.
    + apply IH. intros a Ha. apply Hsame. set_solver.
    + apply IH'. intros a Ha. apply Hsame. set_solver.
Qed.

Lemma representsAll_frame h entries fields foot :
  representsAll h entries fields foot ->
  forall h', (forall a, a ∈ foot -> h' !! a = h !! a) ->
             representsAll h' entries fields foot.
Proof.
  induction 1 as [|key r v entries fields foot foot' Hr _ IH Hdisjoint];
    intros h' Hsame; constructor; auto.
  - eapply represents_frame; eauto. intros a Ha. apply Hsame. set_solver.
  - apply IH. intros a Ha. apply Hsame. set_solver.
Qed.

Lemma representsAll_foot h entries fields (foot foot' : gset nat) :
  foot = foot' ->
  representsAll h entries fields foot -> representsAll h entries fields foot'.
Proof. now intros <-. Qed.

Lemma represents_foot h r v (foot foot' : gset nat) :
  foot = foot' -> represents h r v foot -> represents h r v foot'.
Proof. now intros <-. Qed.

(** A scalar is represented by itself alone, an object by an object. *)
Lemma represents_undefined_iff h r v foot :
  represents h r v foot -> (r = Heap.RUndefined <-> v = VUndefined).
Proof. destruct 1; split; congruence. Qed.

Lemma represents_scalar_foot h r v foot :
  represents h r v foot -> Lodash.isObject v = false -> foot = ∅.
Proof. destruct 1; auto; discriminate. Qed.

(** The properties of a represented mapping, key by key. *)
Lemma representsAll_lookup h entries fields foot :
  representsAll h entries fields foot ->
  forall key,
    (getOwn entries key = None /\ getOwn fields key = None)
    \/ (exists r v foot',
          getOwn entries key = Some r /\ getOwn fields key = Some v
          /\ represents h r v foot' /\ foot' ⊆ foot).
Proof.
  induction 1 as [|k r v entries fields foot foot' Hr _ IH _]; intros key; simpl.
  - now left.
  - destruct (String.eqb k key).
    + right. exists r, v, foot. repeat split; auto. set_solver.
    + destruct (IH key) as [?|(r' & v' & foot'' & ? & ? & ? & ?)]; [now left|].
      right. exists r', v', foot''. repeat split; auto. set_solver.
Qed.

Lemma representsAll_getField h entries fields foot key :
  representsAll h entries fields foot ->
  exists foot',
    represents h (Heap.getField entries key) (getField fields key) foot'
    /\ foot' ⊆ foot.
Proof.
  intros Hall. unfold Heap.getField, getField.
  destruct (representsAll_lookup _ _ _ _ Hall key)
    as [[-> ->] | (r & v & foot' & -> & -> & Hr & Hsub)].
  - exists ∅. split; [constructor | set_solver].
  - eauto.
Qed.

Lemma representsAll_hasOwn h entries fields foot key :
  representsAll h entries fields foot -> hasOwn entries key = hasOwn fields key.
Proof.
  intros Hall. unfold hasOwn.
  now destruct (representsAll_lookup _ _ _ _ Hall key)
    as [[-> ->] | (r & v & foot' & -> & -> & _)].
Qed.

(** One property of a represented mapping changes in place: the object it
    refers to comes to stand for another value. *)
Lemma representsAll_child h entries fields foot :
  representsAll h entries fields foot ->
  forall key r,
    getOwn entries key = Some r ->
    exists v (child rest : gset nat),
      getOwn fields key = Some v
      /\ represents h r v child
      /\ foot = child ∪ rest
      /\ child ## rest
      /\ forall h' v' (child' : gset nat),
           represents h' r v' child' ->
           (forall a, a ∈ rest -> h' !! a = h !! a) ->
           child' ## rest ->
           representsAll h' entries (setOwn fields key v') (child' ∪ rest).
Proof.
  induction 1 as [|k r0 v0 entries fields foot foot' Hr Hall IH Hdisjoint];
    intros key r Hget; simpl in *; [discriminate|].
  destruct (String.eqb k key) eqn:Hkey.
  - injection Hget as <-. exists v0, foot, foot'. repeat split; auto.
    intros h' v' child' Hchild Hsame Hfresh. constructor; auto.
    eapply representsAll_frame; eauto.
  - destruct (IH key r Hget) as (v & child & rest & Hv & Hchild & -> & Hsep & Hupd).
    exists v, child, (foot ∪ rest).
    split; [assumption|]. split; [assumption|].
    split; [set_solver|]. split; [set_solver|].
    intros h' v' child' Hchild' Hsame Hfresh.
    apply (representsAll_foot _ _ _ (foot ∪ (child' ∪ rest))); [set_solver|].
    constructor.
    + eapply represents_frame; eauto. intros a Ha. apply Hsame. set_solver.
    + apply Hupd; auto; [intros a Ha; apply Hsame|]; set_solver.
    + set_solver.
Qed.

(** A property that holds [undefined], or is missing, is assigned. *)
Lemma representsAll_assign h entries fields foot key r v (foot' : gset nat) :
  representsAll h entries fields foot ->
  getField fields key = VUndefined ->
  represents h r v foot' ->
  foot' ## foot ->
  representsAll h (setOwn entries key r) (setOwn fields key v) (foot ∪ foot').
Proof.
  induction 1 as [|k r0 v0 entries fields foot0 foot1 Hr Hall IH Hdisjoint];
    intros Hundefined Hnew Hfresh; simpl.
  - apply (representsAll_foot _ _ _ (foot' ∪ ∅)); [set_solver|].
    constructor; [assumption | constructor | set_solver].
  - unfold getField in Hundefined. simpl in Hundefined.
    destruct (String.eqb k key) eqn:Hkey.
    + subst v0. inversion Hr; subst.
      apply (representsAll_foot _ _ _ (foot' ∪ foot1)); [set_solver|].
      constructor; auto. set_solver.
    + apply (representsAll_foot _ _ _ (foot0 ∪ (foot1 ∪ foot'))); [set_solver|].
      constructor; auto; [|set_solver].
      apply IH; auto. set_solver.
Qed.

Lemma read_lookup h address entries :
  h !! address = Some entries -> Heap.read h address = entries.
Proof. unfold Heap.read. now intros ->. Qed.

(** The object at an address is overwritten. *)
Lemma represents_write h address entries fields (foot : gset nat) :
  address < length h ->
  representsAll h entries fields foot ->
  address ∉ foot ->
  represents (Heap.write h address entries) (Heap.RObject address)
    (VObject fields) ({[address]} ∪ foot).
Proof.
  intros Hbound Hall Hnot. unfold Heap.write.
  apply (represents_object _ address entries fields foot); auto.
  - now apply list_lookup_insert_eq.
  - eapply representsAll_frame; eauto. intros a Ha.
    apply list_lookup_insert_ne. set_solver.
Qed.

Lemma frame_write h0 h address entries (foot : gset nat) :
  frame h0 h foot ->
  (address ∈ foot \/ length h0 <= address) ->
  frame h0 (Heap.write h address entries) foot.
Proof.
  intros [Hlen Hsame] Haddress. unfold Heap.write. split.
  - now rewrite length_insert.
  - intros a Ha Hnot. rewrite list_lookup_insert_ne; [auto|].
    intros <-. destruct Haddress; [tauto | lia].
Qed.

Lemma depth_field fields key child :
  In (key, child) fields -> S (depth child) <= depth (VObject fields).
Proof.
  simpl. induction fields as [|[k v] rest IH]; intros Hin; [destruct Hin|].
  destruct Hin as [[= -> ->] | Hin]; [lia|]. apply IH in Hin. lia.
Qed.

Lemma uniqueKeys_field fields key child :
  uniqueKeys (VObject fields) -> In (key, child) fields -> uniqueKeys child.
Proof.
  simpl. intros [_ Hall]. induction fields as [|[k v] rest IH];
    intros Hin; [destruct Hin|].
  destruct Hall as [Hv Hrest].
  destruct Hin as [[= -> ->] | Hin]; auto.
Qed.

Lemma representsAll_keys h entries fields foot :
  representsAll h entries fields foot -> map fst entries = map fst fields.
Proof. induction 1; simpl; congruence. Qed.

Lemma keepsObjects_refl h address : keepsObjects h h address.
Proof. now intros key target. Qed.

Lemma keepsObjects_trans h1 h2 h3 address :
  keepsObjects h1 h2 address -> keepsObjects h2 h3 address ->
  keepsObjects h1 h3 address.
Proof. intros H12 H23 key target Hget. auto. Qed.

Lemma keepsObjects_same h h' address :
  h' !! address = h !! address -> keepsObjects h h' address.
Proof. intros Hsame key target. unfold Heap.read. now rewrite Hsame. Qed.

Lemma heap_getField_setOwn_ne entries key other r :
  key <> other ->
  Heap.getField (setOwn entries key r) other = Heap.getField entries other.
Proof. intros. unfold Heap.getField. now rewrite getOwn_setOwn_ne. Qed.

(** Assigning to a property that holds [undefined]. *)
Lemma assignMergeValue_simulates h object fields (foot : gset nat) key r v
  (foot' : gset nat) :
  represents h (Heap.RObject object) (VObject fields) foot ->
  getField fields key = VUndefined ->
  represents h r v foot' ->
  foot' ## foot ->
  represents (Heap.assignMergeValue h object key r) (Heap.RObject object)
    (VObject (Lodash.assignMergeValue fields key v)) (foot ∪ foot')
  /\ length (Heap.assignMergeValue h object key r) = length h
  /\ (forall a, a <> object ->
        Heap.assignMergeValue h object key r !! a = h !! a)
  /\ keepsObjects h (Heap.assignMergeValue h object key r) object.
Proof.
  intros Hobject Hundefined Hnew Hfresh.
  inversion Hobject as [ | | | | | a entries fs inner Hlookup Hall Hnot]; subst.
  pose proof (read_lookup _ _ _ Hlookup) as Hread.
  assert (Hbound : object < length h) by (eapply lookup_lt_Some; eauto).
  assert (Hwritten :
    represents (Heap.write h object (setOwn entries key r)) (Heap.RObject object)
      (VObject (setOwn fields key v)) ({[object]} ∪ inner ∪ foot')
    /\ length (Heap.write h object (setOwn entries key r)) = length h
    /\ (forall a, a <> object ->
          Heap.write h object (setOwn entries key r) !! a = h !! a)
    /\ keepsObjects h (Heap.write h object (setOwn entries key r)) object).
  { split; [|split; [|split]].
    - apply (represents_foot _ _ _ ({[object]} ∪ (inner ∪ foot'))); [set_solver|].
      apply represents_write; auto; [|set_solver].
      apply representsAll_assign; auto. set_solver.
    - unfold Heap.write. apply length_insert.
    - intros a Ha. unfold Heap.write. now apply list_lookup_insert_ne.
    - intros k target. rewrite Hread. unfold Heap.write, Heap.read.
      rewrite list_lookup_insert_eq by assumption.
      destruct (String.eqb key k) eqn:Hk.
      + apply String.eqb_eq in Hk. subst k.
        destruct (representsAll_getField _ _ _ _ key Hall) as (fk & Hk & _).
        rewrite Hundefined in Hk. inversion Hk. congruence.
      + apply String.eqb_neq in Hk. now rewrite heap_getField_setOwn_ne. }
  unfold Heap.assignMergeValue, Lodash.assignMergeValue. rewrite Hread.
  destruct Hnew; try exact Hwritten.
  rewrite (representsAll_hasOwn _ _ _ _ key Hall).
  destruct (hasOwn fields key); [|exact Hwritten].
  repeat split; auto using keepsObjects_refl.
  apply (represents_foot _ _ _ ({[object]} ∪ inner)); [set_solver | assumption].
Qed.

Lemma frame_weaken h h' (foot foot' : gset nat) :
  frame h h' foot -> foot ⊆ foot' -> frame h h' foot'.
Proof.
  intros [Hlen Hsame] Hsub. split; [assumption|].
  intros a Ha Hnot. apply Hsame; [assumption | set_solver].
Qed.

Lemma frame_new h entries (foot : gset nat) :
  frame h (snd (Heap.new h entries)) foot
  /\ fst (Heap.new h entries) = length h
  /\ snd (Heap.new h entries) !! length h = Some entries
  /\ length (snd (Heap.new h entries)) = S (length h).
Proof.
  simpl. repeat split.
  - rewrite length_app. lia.
  - intros a Ha _. now apply lookup_app_l.
  - rewrite lookup_app_r by lia. now rewrite Nat.sub_diag.
  - rewrite length_app. simpl. lia.
Qed.

Lemma represents_in_frame h h' r v (foot guard : gset nat) :
  represents h r v foot ->
  frame h h' guard ->
  foot ## guard ->
  represents h' r v foot.
Proof.
  intros Hr [_ Hsame] Hdisjoint. eapply represents_frame; eauto.
  intros a Ha. apply Hsame; [eapply represents_bound; eauto | set_solver].
Qed.

Lemma heap_getField_object entries key target :
  Heap.getField entries key = Heap.RObject target ->
  getOwn entries key = Some (Heap.RObject target).
Proof. unfold Heap.getField. destruct (getOwn entries key); congruence. Qed.

(** One turn of the loop does on the heap what [Lodash.mergeKey] does on
    values. *)
Lemma mergeKey_simulates merge bound stack h object source fields key sv r
  (foot child : gset nat) sourceEntries :
  simulates merge bound ->
  depth sv <= bound ->
  uniqueKeys sv ->
  represents h (Heap.RObject object) (VObject fields) foot ->
  h !! source = Some sourceEntries ->
  Heap.getField sourceEntries key = r ->
  represents h r sv child ->
  foot ## child ->
  (forall a, a ∈ child -> Heap.stacked stack a = None) ->
  exists h' (merged : gset nat),
    Heap.mergeKey merge stack h object source key = Some h'
    /\ represents h' (Heap.RObject object)
         (VObject (Lodash.mergeKey fields key sv)) merged
    /\ frame h h' foot
    /\ (forall a, a ∈ merged -> a ∈ foot \/ length h <= a)
    /\ keepsObjects h h' object.
Proof.
  intros Hsim Hdepth Hunique Hobject Hsource Hr Hsv Hdisjoint Hstack.
  unfold Heap.mergeKey. rewrite (read_lookup _ _ _ Hsource), Hr.
  pose proof Hobject as Hobject'.
  inversion Hobject' as [ | | | | | a entries fs inner Hlookup Hall Hnot]; subst.
  rewrite (read_lookup _ _ _ Hlookup).
  assert (Hbound : object < length h) by (eapply lookup_lt_Some; eauto).
  assert (Hstay : exists h' (merged : gset nat),
    Some h = Some h'
    /\ represents h' (Heap.RObject object) (VObject fields) merged
    /\ frame h h' ({[object]} ∪ inner)
    /\ (forall a, a ∈ merged -> a ∈ {[object]} ∪ inner \/ length h <= a)
    /\ keepsObjects h h' object).
  { exists h, ({[object]} ∪ inner).
    repeat split; auto using keepsObjects_refl. }
  assert (Hassign : forall r v (foot' : gset nat),
    getField fields key = VUndefined ->
    represents h r v foot' -> foot' = ∅ ->
    exists h' (merged : gset nat),
      Some (Heap.assignMergeValue h object key r) = Some h'
      /\ represents h' (Heap.RObject object)
           (VObject (Lodash.assignMergeValue fields key v)) merged
      /\ frame h h' ({[object]} ∪ inner)
      /\ (forall a, a ∈ merged -> a ∈ {[object]} ∪ inner \/ length h <= a)
      /\ keepsObjects h h' object).
  { intros r v foot' Hundefined Hnew ->.
    destruct (assignMergeValue_simulates _ _ _ _ key _ _ _
                Hobject Hundefined Hnew ltac:(set_solver))
      as (Hrep & Hlen & Hsame & Hkeeps).
    eexists _, _. repeat split; [exact Hrep | lia | | set_solver | exact Hkeeps].
    intros a Ha Hnot'. apply Hsame. set_solver. }
  destruct (representsAll_getField _ _ _ _ key Hall) as (fk & Hk & Hsub).
  destruct Hsv as [ | | b | q | s | src sentries sfields sinner Hslookup Hsall Hsnot].
  1-5: unfold Lodash.mergeKey;
       destruct Hk; try exact Hstay;
       eapply Hassign; eauto; constructor.
  (* the source holds a mapping *)
  rewrite Hstack by (apply elem_of_union_l, elem_of_singleton; reflexivity).
  unfold Lodash.mergeKey.
  remember (Heap.getField entries key) as target eqn:Htarget.
  remember (getField fields key) as current eqn:Hcurrent.
  destruct Hk as [ | | b | q | s | obj oentries ofields oinner Holookup Hoall Honot];
    try exact Hstay.
  - (* the destination holds [undefined]: a new mapping is filled *)
    pose proof (fun foot => proj1 (frame_new h [] foot)) as Hframe1.
    destruct (frame_new h [] ∅) as (_ & Hclone & Hnew & Hlen1).
    destruct (Heap.new h []) as [clone h1] eqn:Halloc.
    cbn [fst snd] in Hframe1, Hclone, Hnew, Hlen1. subst clone.
    assert (Hempty : represents h1 (Heap.RObject (length h)) (VObject [])
                       {[length h]}).
    { apply (represents_foot _ _ _ ({[length h]} ∪ ∅)); [set_solver|].
      apply (represents_object h1 (length h) [] [] ∅);
        [exact Hnew | constructor | set_solver]. }
    assert (Hsource0 : represents h (Heap.RObject src) (VObject sfields)
                         ({[src]} ∪ sinner)).
    { apply (represents_object h src sentries sfields sinner); assumption. }
    assert (Hsbound : forall a, a ∈ ({[src]} ∪ sinner : gset nat) -> a < length h).
    { exact (represents_bound _ _ _ _ Hsource0). }
    assert (Hobound : forall a, a ∈ ({[object]} ∪ inner : gset nat) -> a < length h).
    { exact (represents_bound _ _ _ _ Hobject). }
    assert (Hsource1 : represents h1 (Heap.RObject src) (VObject sfields)
                         ({[src]} ∪ sinner)).
    { apply (represents_in_frame h h1 _ _ _ ∅ Hsource0 (Hframe1 ∅)).
      set_solver. }
    assert (Hcall : exists h2 (merged : gset nat),
      merge ((src, length h) :: stack) h1 (length h) src = Some h2
      /\ represents h2 (Heap.RObject (length h))
           (VObject (Lodash.baseMerge [] (VObject sfields))) merged
      /\ frame h1 h2 {[length h]}
      /\ (forall a, a ∈ merged -> a ∈ ({[length h]} : gset nat) \/ length h1 <= a)).
    { destruct (Hsim ((src, length h) :: stack) h1 (length h) src []
                  (VObject sfields) {[length h]} ({[src]} ∪ sinner)
                  Hdepth Hunique Hempty Hsource1)
        as (h2 & merged & Hrun & Hmerged & Hframe2 & Hfresh & _).
      - intros a Ha Hb. apply elem_of_singleton in Ha. subst a.
        apply Hsbound in Hb. lia.
      - intros a Ha Hne. simpl.
        destruct (Nat.eqb src a) eqn:E; [apply Nat.eqb_eq in E; congruence|].
        apply Hstack. exact Ha.
      - exists h2, merged. auto. }
    destruct Hcall as (h2 & merged & -> & Hmerged & [Hlen2 Hsame2] & Hfresh).
    assert (Hold : forall a, a < length h -> h2 !! a = h !! a).
    { intros a Ha. rewrite Hsame2; [|lia|].
      - destruct (Hframe1 ∅) as [_ Hsame1]. apply Hsame1; [assumption | set_solver].
      - intros Hin. apply elem_of_singleton in Hin. lia. }
    assert (Hobject2 : represents h2 (Heap.RObject object) (VObject fields)
                         ({[object]} ∪ inner)).
    { eapply represents_frame; [exact Hobject|].
      intros a Ha. apply Hold. now apply Hobound. }
    assert (Hmergedfresh : forall a, a ∈ merged -> length h <= a).
    { intros a Ha. apply Hfresh in Ha as [Ha|Ha];
        [apply elem_of_singleton in Ha|]; lia. }
    destruct (assignMergeValue_simulates h2 object fields _ key
                (Heap.RObject (length h)) _ merged Hobject2
                (eq_sym Hcurrent) Hmerged)
      as (Hrep & Hlen3 & Hsame3 & Hkeeps3).
    { intros a Ha Hb. apply Hmergedfresh in Ha. apply Hobound in Hb. lia. }
    exists (Heap.assignMergeValue h2 object key (Heap.RObject (length h))),
      ({[object]} ∪ inner ∪ merged).
    split; [reflexivity|]. split; [exact Hrep|]. split; [|split].
    + split; [lia|]. intros a Ha Hnot'.
      rewrite Hsame3; [now apply Hold|].
      intros ->. apply Hnot'. set_solver.
    + intros a Ha. apply elem_of_union in Ha as [Ha|Ha]; [now left|].
      right. now apply Hmergedfresh.
    + eapply keepsObjects_trans; [|exact Hkeeps3].
      apply keepsObjects_same. now apply Hold.
  - (* both hold mappings: the destination's is filled in place *)
    destruct (representsAll_child _ _ _ _ Hall key (Heap.RObject obj)
                (heap_getField_object _ _ _ (eq_sym Htarget)))
      as (v & fc & rest & Hv & Hchild & -> & Hsep & Hupdate).
    assert (v = VObject ofields) as ->.
    { unfold getField in Hcurrent. rewrite Hv in Hcurrent. congruence. }
    assert (Hsource0 : represents h (Heap.RObject src) (VObject sfields)
                         ({[src]} ∪ sinner)).
    { apply (represents_object h src sentries sfields sinner); assumption. }
    assert (Hobound : forall a, a ∈ ({[object]} ∪ (fc ∪ rest) : gset nat) ->
                                a < length h).
    { exact (represents_bound _ _ _ _ Hobject). }
    assert (Hcall : exists h2 (merged : gset nat),
      merge ((src, obj) :: stack) h obj src = Some h2
      /\ represents h2 (Heap.RObject obj)
           (VObject (Lodash.baseMerge ofields (VObject sfields))) merged
      /\ frame h h2 fc
      /\ (forall a, a ∈ merged -> a ∈ fc \/ length h <= a)).
    { destruct (Hsim ((src, obj) :: stack) h obj src ofields
                  (VObject sfields) fc ({[src]} ∪ sinner)
                  Hdepth Hunique Hchild Hsource0)
        as (h2 & merged & Hrun & Hmerged & Hframe2 & Hfresh & _).
      - intros a Ha Hb. apply (Hdisjoint a); [|exact Hb].
        apply elem_of_union_r, elem_of_union_l. exact Ha.
      - intros a Ha Hne. simpl.
        destruct (Nat.eqb src a) eqn:E; [apply Nat.eqb_eq in E; congruence|].
        apply Hstack. exact Ha.
      - exists h2, merged. auto. }
    destruct Hcall as (h2 & merged & -> & Hmerged & [Hlen2 Hsame2] & Hfresh).
    assert (Hnotfc : object ∉ fc).
    { intros Hin. apply Hnot. now apply elem_of_union_l. }
    assert (Hobject2 : h2 !! object = Some entries).
    { rewrite Hsame2; auto. }
    exists h2, ({[object]} ∪ (merged ∪ rest)).
    split; [reflexivity|]. split; [|split; [|split]].
    + apply (represents_object h2 object entries _ (merged ∪ rest)).
      * exact Hobject2.
      * apply Hupdate; [exact Hmerged | |].
        -- intros a Ha. apply Hsame2.
           ++ apply Hobound. now apply elem_of_union_r, elem_of_union_r.
           ++ intros Hin. apply (Hsep a Hin Ha).
        -- intros a Ha Hb. apply Hfresh in Ha as [Ha|Ha].
           ++ apply (Hsep a Ha Hb).
           ++ assert (a < length h); [|lia].
              apply Hobound. now apply elem_of_union_r, elem_of_union_r.
      * intros Hin. apply elem_of_union in Hin as [Hin|Hin].
        -- apply Hfresh in Hin as [Hin|Hin]; [tauto | lia].
        -- apply Hnot. now apply elem_of_union_r.
    + split; [assumption|]. intros a Ha Hnot'. apply Hsame2; [assumption|].
      intros Hin. apply Hnot'. now apply elem_of_union_r, elem_of_union_l.
    + intros a Ha. apply elem_of_union in Ha as [Ha|Ha];
        [left; now apply elem_of_union_l|].
      apply elem_of_union in Ha as [Ha|Ha].
      * apply Hfresh in Ha as [Ha|Ha]; [left|now right].
        now apply elem_of_union_r, elem_of_union_l.
      * left. now apply elem_of_union_r, elem_of_union_r.
    + apply keepsObjects_same. congruence.
Qed.

(** The loop of [baseMerge] over the keys of the source. *)
Lemma mergeLoop_simulates merge bound stack h0 object source
  (foot0 sourceFoot : gset nat) sourceEntries :
  simulates merge bound ->
  h0 !! source = Some sourceEntries ->
  source ∉ foot0 ->
  (forall a, a ∈ sourceFoot -> (a ∉ foot0) /\ Heap.stacked stack a = None) ->
  forall entries fields (foot : gset nat),
    representsAll h0 entries fields foot ->
    foot ⊆ sourceFoot ->
    NoDup (map fst entries) ->
    (forall key, In key (map fst entries) ->
                 getOwn sourceEntries key = getOwn entries key) ->
    (forall key child, In (key, child) fields ->
                       depth child <= bound /\ uniqueKeys child) ->
    forall h objectFields (current : gset nat),
      frame h0 h foot0 ->
      represents h (Heap.RObject object) (VObject objectFields) current ->
      (forall a, a ∈ current -> a ∈ foot0 \/ length h0 <= a) ->
      keepsObjects h0 h object ->
      exists h' (merged : gset nat),
        fold_left
          (fun (state : option Heap.heap) (key : string) =>
             match state with
             | Some h => Heap.mergeKey merge stack h object source key
             | None => None
             end)
          (map fst entries) (Some h) = Some h'
        /\ represents h' (Heap.RObject object)
             (VObject (fold_left (fun o kv => Lodash.mergeKey o (fst kv) (snd kv))
                         fields objectFields)) merged
        /\ frame h0 h' foot0
        /\ (forall a, a ∈ merged -> a ∈ foot0 \/ length h0 <= a)
        /\ keepsObjects h0 h' object.
Proof.
  intros Hsim Hsource Hsnot Hsfoot.
  assert (Hsbound : source < length h0) by (eapply lookup_lt_Some; eauto).
  induction 1 as [|k r v entries fields fk ftail Hr Hall IH Hsep];
    intros Hsub Hnodup Hkeys Hchildren h objectFields current
           Hframe Hobject Hcurrent Hkeeps.
  - exists h, current. repeat split; auto; apply Hframe.
  - cbn [map fst fold_left].
    assert (Hfk : forall a, a ∈ fk -> a < length h0 /\ (a ∉ foot0)
                                      /\ Heap.stacked stack a = None).
    { intros a Ha. split; [eapply represents_bound; eauto|].
      apply Hsfoot, Hsub. now apply elem_of_union_l. }
    destruct (Hchildren k v (or_introl eq_refl)) as [Hdepth Hunique].
    destruct Hframe as [Hlen Hsame].
    destruct (mergeKey_simulates merge bound stack h object source objectFields
                k v r current fk sourceEntries Hsim Hdepth Hunique Hobject)
      as (h1 & merged1 & Hstep & Hobject1 & Hframe1 & Hfresh1 & Hkeeps1).
    { rewrite Hsame; auto. }
    { unfold Heap.getField. rewrite (Hkeys k) by (now left).
      simpl. now rewrite String.eqb_refl. }
    { eapply represents_frame; [exact Hr|].
      intros a Ha. destruct (Hfk a Ha) as (? & ? & _). now apply Hsame. }
    { intros a Ha Hb. destruct (Hfk a Hb) as (? & ? & _).
      apply Hcurrent in Ha as [Ha|Ha]; [tauto | lia]. }
    { intros a Ha. now apply Hfk. }
    rewrite Hstep.
    inversion Hnodup as [|k' keys Hfresh Hnodup']; subst.
    assert (Htail : ftail ⊆ sourceFoot) by set_solver.
    apply (IH Htail Hnodup') with (current := merged1).
    + intros key Hin. rewrite (Hkeys key) by (now right). simpl.
      destruct (String.eqb k key) eqn:E; [|reflexivity].
      apply String.eqb_eq in E. subst key.
      exfalso. now apply Hfresh, list_elem_of_In.
    + intros key child Hin. apply (Hchildren key child). now right.
    + eapply (frame_trans h0 h h1 foot0 current); eauto. now split.
    + exact Hobject1.
    + intros a Ha. apply Hfresh1 in Ha as [Ha|Ha]; [auto | right; lia].
    + eapply keepsObjects_trans; eauto.
Qed.

(** The merge on the heap does what the merge on values does. *)
Theorem baseMerge_simulates fuel : simulates (Heap.baseMerge fuel) fuel.
Proof.
  induction fuel as [|fuel IH];
    intros stack h object source fields src foot foot'
           Hdepth Hunique Hobject Hsource Hdisjoint Hstack;
    inversion Hsource as [ | | | | | s sentries sfields sinner Hslookup Hsall Hsnot];
    subst; [simpl in Hdepth; lia|].
  inversion Hobject as [ | | | | | o oentries ofields oinner Holookup Hoall Honot];
    subst.
  assert (Hne : Nat.eqb object source = false).
  { apply Nat.eqb_neq. intros ->.
    apply (Hdisjoint source); [now apply elem_of_union_l, elem_of_singleton|].
    now apply elem_of_union_l, elem_of_singleton. }
  cbn [Heap.baseMerge]. rewrite Hne, (read_lookup _ _ _ Hslookup).
  rewrite baseMerge_object.
  destruct (mergeLoop_simulates (Heap.baseMerge fuel) fuel stack h object source
              ({[object]} ∪ oinner) sinner sentries IH Hslookup)
    with (entries := sentries) (fields := sfields) (foot := sinner)
         (h := h) (objectFields := fields) (current := {[object]} ∪ oinner)
    as (h' & merged & Hrun & Hmerged & Hframe & Hfresh & Hkeeps); auto.
  - intros Hin. apply (Hdisjoint source Hin).
    now apply elem_of_union_l, elem_of_singleton.
  - intros a Ha. split.
    + intros Hin. apply (Hdisjoint a Hin). now apply elem_of_union_r.
    + apply Hstack; [now apply elem_of_union_r|]. intros ->. contradiction.
  - rewrite (representsAll_keys _ _ _ _ Hsall). apply Hunique.
  - intros key child Hin. split.
    + pose proof (depth_field _ _ _ Hin). lia.
    + eapply uniqueKeys_field; eauto.
  - apply frame_refl.
  - apply keepsObjects_refl.
  - exists h', merged. auto.
Qed.

(** ** Laying values out and reading them back *)

Lemma store_object h fields :
  Heap.store h (VObject fields) =
  (Heap.RObject (length (snd (storeAll fields h))),
   (snd (storeAll fields h) ++ [fst (storeAll fields h)])%list).
Proof.
  change (Heap.store h (VObject fields))
    with (let (entries, h1) := storeAll fields h in
          let (address, h2) := Heap.new h1 entries in
          (Heap.RObject address, h2)).
  now destruct (storeAll fields h).
Qed.

Lemma frame_app h (more : Heap.heap) (foot : gset nat) :
  frame h (h ++ more)%list foot.
Proof.
  split; [rewrite length_app; lia|].
  intros a Ha _. now apply lookup_app_l.
Qed.

(** [Heap.store] lays a value out in new objects and leaves a reference that
    represents it. *)
Lemma store_represents v :
  forall h,
  exists foot : gset nat,
    represents (snd (Heap.store h v)) (fst (Heap.store h v)) v foot
    /\ frame h (snd (Heap.store h v)) ∅
    /\ (forall a, a ∈ foot -> length h <= a).
Proof.
  induction v as [ | | b | q | s | fields IH] using value_nested_ind; intros h;
    try (exists ∅; split; [constructor | split; [apply frame_refl | set_solver]]).
  assert (Hall : forall h,
    exists foot : gset nat,
      representsAll (snd (storeAll fields h)) (fst (storeAll fields h)) fields foot
      /\ frame h (snd (storeAll fields h)) ∅
      /\ (forall a, a ∈ foot -> length h <= a)).
  { clear h. induction IH as [|[k child] rest Hchild _ IHrest]; intros h; simpl.
    - exists ∅. split; [constructor | split; [apply frame_refl | set_solver]].
    - destruct (Hchild h) as (f1 & Hr & Hframe1 & Hfresh1). cbn [snd] in *.
      destruct (Heap.store h child) as [r h1]. cbn [fst snd] in *.
      destruct (IHrest h1) as (f2 & Hrs & Hframe2 & Hfresh2).
      destruct (storeAll rest h1) as [rs h2]. cbn [fst snd] in *.
      assert (Hbound1 : forall a, a ∈ f1 -> a < length h1).
      { eapply represents_bound; eauto. }
      exists (f1 ∪ f2). split; [|split].
      + constructor; auto.
        * apply (represents_in_frame h1 h2 _ _ _ ∅ Hr Hframe2). set_solver.
        * intros a Ha Hb. apply Hbound1 in Ha. apply Hfresh2 in Hb. lia.
      + apply (frame_trans h h1 h2 ∅ ∅ Hframe1 Hframe2). set_solver.
      + intros a Ha. destruct Hframe1 as [Hlen1 _].
        apply elem_of_union in Ha as [Ha|Ha]; [auto|].
        apply Hfresh2 in Ha. lia. }
  rewrite store_object. cbn [fst snd].
  destruct (Hall h) as (foot & Hfields & Hframe & Hfresh).
  destruct (storeAll fields h) as [entries h1]. cbn [fst snd] in *.
  assert (Hbound : forall a, a ∈ foot -> a < length h1).
  { eapply representsAll_bound; eauto. }
  exists ({[length h1]} ∪ foot). split; [|split].
  - apply (represents_object _ (length h1) entries fields foot).
    + rewrite lookup_app_r by lia. now rewrite Nat.sub_diag.
    + eapply representsAll_frame; eauto. intros a Ha.
      apply lookup_app_l. now apply Hbound.
    + intros Hin. apply Hbound in Hin. lia.
  - apply (frame_trans h h1 _ ∅ ∅ Hframe (frame_app _ _ _)). set_solver.
  - intros a Ha. destruct Hframe as [Hlen _].
    apply elem_of_union in Ha as [Ha|Ha]; [|auto].
    apply elem_of_singleton in Ha. lia.
Qed.

(** [Heap.load] reads back the value that a reference represents. *)
Lemma load_represents h r v foot :
  represents h r v foot ->
  forall fuel, depth v <= fuel -> Heap.load fuel h r = Some v.
Proof.
  revert r v foot.
  apply (represents_mutual h
           (fun r v foot _ =>
              forall fuel, depth v <= fuel -> Heap.load fuel h r = Some v)
           (fun entries fields foot _ =>
              forall fuel,
                (forall key child, In (key, child) fields -> depth child <= fuel) ->
                fold_right
                  (fun (entry : string * Heap.ref)
                       (loaded : option (list (string * value))) =>
                     match Heap.load fuel h (snd entry), loaded with
                     | Some v, Some fields => Some ((fst entry, v) :: fields)
                     | _, _ => None
                     end)
                  (Some []) entries = Some fields)).
  1-5: intros; now destruct fuel.
  - intros address entries fields foot Hlookup _ IH _ fuel Hdepth.
    destruct fuel as [|fuel]; [simpl in Hdepth; lia|].
    cbn [Heap.load]. rewrite (read_lookup _ _ _ Hlookup), IH; [reflexivity|].
    intros key child Hin. pose proof (depth_field _ _ _ Hin). lia.
  - reflexivity.
  - intros key r v entries fields foot foot' _ IH _ IH' _ fuel Hdepth.
    cbn [fold_right fst snd]. rewrite IH, IH'; auto.
    + intros k child Hin. apply (Hdepth k child). now right.
    + apply (Hdepth key v). now left.
Qed.

Lemma depth_getField fields key :
  depth (getField fields key) <= depth (VObject fields).
Proof.
  destruct (getField_cases fields key) as [-> | [k Hin]]; [simpl; lia|].
  pose proof (depth_field _ _ _ Hin). lia.
Qed.

(** One source of [_.defaultsDeep], on the heap and on values. *)
Lemma defaultsDeep_source fuel h object fields (foot : gset nat) source src
  (foot' : gset nat) :
  depth src <= fuel ->
  uniqueKeys src ->
  represents h (Heap.RObject object) (VObject fields) foot ->
  represents h source src foot' ->
  foot ## foot' ->
  exists h' (merged : gset nat),
    Heap.defaultsDeep fuel h object [source] = Some h'
    /\ represents h' (Heap.RObject object)
         (VObject (Lodash.baseMerge fields src)) merged
    /\ frame h h' foot
    /\ (forall a, a ∈ merged -> a ∈ foot \/ length h <= a)
    /\ keepsObjects h h' object.
Proof.
  intros Hdepth Hunique Hobject Hsource Hdisjoint.
  assert (Hstay : forall v, Lodash.isObject v = false ->
    exists h' (merged : gset nat),
      Some h = Some h'
      /\ represents h' (Heap.RObject object)
           (VObject (Lodash.baseMerge fields v)) merged
      /\ frame h h' foot
      /\ (forall a, a ∈ merged -> a ∈ foot \/ length h <= a)
      /\ keepsObjects h h' object).
  { intros v Hv. rewrite baseMerge_scalar by assumption.
    exists h, foot. repeat split; auto using keepsObjects_refl. }
  unfold Heap.defaultsDeep. cbn [fold_left].
  pose proof Hsource as Hsource'.
  destruct Hsource' as [ | | b | q | s | address entries sfields inner Hl Ha Hn];
    try (apply Hstay; reflexivity).
  apply (baseMerge_simulates fuel [] h object address fields (VObject sfields)
           foot ({[address]} ∪ inner)); auto.
Qed.

Lemma defaultsDeep_cons fuel h object source sources :
  Heap.defaultsDeep fuel h object (source :: sources) =
  match Heap.defaultsDeep fuel h object [source] with
  | Some h' => Heap.defaultsDeep fuel h' object sources
  | None => None
  end.
Proof.
  unfold Heap.defaultsDeep. cbn [fold_left].
  match goal with
  | |- fold_left ?f sources ?state = _ => destruct state as [h'|]; [reflexivity|]
  end.
  induction sources as [|s rest IH]; [reflexivity | exact IH].
Qed.

Lemma load_scalar fuel h h' r v foot :
  represents h r v foot ->
  Lodash.isObject v = false ->
  Heap.load fuel h' r = Some v.
Proof. destruct 1; try discriminate; now destruct fuel. Qed.

(** The merge of lines 168-170 run on the heap, where the object literal
    holds a reference to the service descriptor of the span, leaves what the
    merge on values leaves: the merged tags are those of
    [Lodash.defaultsDeep]; the service descriptor of the span, when it is a
    mapping, has become what the merged tags hold under [service]; the tags
    of the span are as they were. *)
Theorem mergeTags_simulates (service tags defaults : value) (fuel : nat) :
  uniqueKeys tags ->
  uniqueKeys defaults ->
  depth tags <= fuel ->
  depth defaults <= fuel ->
  depth (VObject (Lodash.defaultsDeep [("service", service)] [tags; defaults]))
    <= fuel ->
  Heap.mergeTags fuel service tags defaults =
  Some (VObject (Lodash.defaultsDeep [("service", service)] [tags; defaults]),
        (if Lodash.isObject service
         then getField (Lodash.defaultsDeep [("service", service)] [tags; defaults])
                "service"
         else service),
        tags).
Proof.
  intros Hutags Hudefaults Hdtags Hddefaults Hdmerged.
  unfold Heap.mergeTags.
  destruct (store_represents service []) as (f1 & Hs & Hfr1 & Hfresh1).
  destruct (Heap.store [] service) as [sr h1]. cbn [fst snd] in *.
  destruct (store_represents tags h1) as (f2 & Ht & Hfr2 & Hfresh2).
  destruct (Heap.store h1 tags) as [tr h2]. cbn [fst snd] in *.
  destruct (store_represents defaults h2) as (f3 & Hd & Hfr3 & Hfresh3).
  destruct (Heap.store h2 defaults) as [dr h3]. cbn [fst snd] in *.
  cbn [Heap.new].
  set (literal := length h3).
  set (h4 := (h3 ++ [[("service", sr)]])%list).
  assert (Hfr4 : frame h3 h4 ∅) by apply frame_app.
  assert (Hb1 : forall a, a ∈ f1 -> a < length h1)
    by (eapply represents_bound; eauto).
  assert (Hb2 : forall a, a ∈ f2 -> a < length h2)
    by (eapply represents_bound; eauto).
  assert (Hb3 : forall a, a ∈ f3 -> a < length h3)
    by (eapply represents_bound; eauto).
  destruct Hfr2 as [Hlen2 Hsame2]. destruct Hfr3 as [Hlen3 Hsame3].
  destruct Hfr4 as [Hlen4 Hsame4].
  assert (Hlen4' : length h4 = S (length h3)).
  { subst h4. rewrite length_app. simpl. lia. }
  assert (Hs4 : represents h4 sr service f1).
  { eapply represents_frame; [exact Hs|]. intros a Ha. apply Hb1 in Ha.
    rewrite Hsame4, Hsame3, Hsame2; auto; try lia; set_solver. }
  assert (Ht4 : represents h4 tr tags f2).
  { eapply represents_frame; [exact Ht|]. intros a Ha. apply Hb2 in Ha.
    rewrite Hsame4, Hsame3; auto; try lia; set_solver. }
  assert (Hd4 : represents h4 dr defaults f3).
  { eapply represents_frame; [exact Hd|]. intros a Ha. apply Hb3 in Ha.
    rewrite Hsame4; auto; try lia; set_solver. }
  assert (Hliteral : represents h4 (Heap.RObject literal)
                       (VObject [("service", service)]) ({[literal]} ∪ (f1 ∪ ∅))).
  { apply (represents_object h4 literal [("service", sr)]).
    - subst h4 literal. rewrite lookup_app_r by lia. now rewrite Nat.sub_diag.
    - constructor; [exact Hs4 | constructor | set_solver].
    - intros Hin. apply elem_of_union in Hin as [Hin|Hin]; [|set_solver].
      apply Hb1 in Hin. subst literal. lia. }
  set (g4 := ({[literal]} ∪ (f1 ∪ ∅) : gset nat)) in *.
  assert (Hg4 : forall a, a ∈ g4 -> a = literal \/ a ∈ f1).
  { subst g4. intros a Ha. set_solver. }
  destruct (defaultsDeep_source fuel h4 literal _ g4 tr tags f2
              Hdtags Hutags Hliteral Ht4)
    as (h5 & g5 & Hrun5 & Hrep5 & [Hlen5 Hsame5] & Hfresh5 & Hkeeps5).
  { intros a Ha Hb. apply Hg4 in Ha as [-> | Ha].
    - apply Hb2 in Hb. subst literal. lia.
    - apply Hb1 in Ha. apply Hfresh2 in Hb. lia. }
  assert (Hd5 : represents h5 dr defaults f3).
  { eapply represents_frame; [exact Hd4|]. intros a Ha.
    apply Hsame5; [apply Hb3 in Ha; lia|].
    intros Hin. apply Hg4 in Hin as [-> | Hin].
    - apply Hb3 in Ha. subst literal. lia.
    - apply Hb1 in Hin. apply Hfresh3 in Ha. lia. }
  destruct (defaultsDeep_source fuel h5 literal _ g5 dr defaults f3
              Hddefaults Hudefaults Hrep5 Hd5)
    as (h6 & g6 & Hrun6 & Hrep6 & [Hlen6 Hsame6] & Hfresh6 & Hkeeps6).
  { intros a Ha Hb. apply Hfresh5 in Ha as [Ha|Ha].
    - apply Hg4 in Ha as [-> | Ha].
      + apply Hb3 in Hb. subst literal. lia.
      + apply Hb1 in Ha. apply Hfresh3 in Hb. lia.
    - apply Hb3 in Hb. lia. }
  rewrite defaultsDeep_cons, Hrun5, Hrun6.
  change (Lodash.baseMerge (Lodash.baseMerge [("service", service)] tags) defaults)
    with (Lodash.defaultsDeep [("service", service)] [tags; defaults]) in Hrep6.
  set (merged := Lodash.defaultsDeep [("service", service)] [tags; defaults]) in *.
  rewrite (load_represents _ _ _ _ Hrep6 fuel Hdmerged).
  assert (Ht6 : represents h6 tr tags f2).
  { eapply represents_frame; [exact Ht4|]. intros a Ha.
    assert (Hnot4 : a ∉ g4).
    { intros Hin. apply Hg4 in Hin as [-> | Hin].
      - apply Hb2 in Ha. subst literal. lia.
      - apply Hb1 in Hin. apply Hfresh2 in Ha. lia. }
    apply Hb2 in Ha.
    rewrite Hsame6; [apply Hsame5; [lia | assumption] | lia |].
    intros Hin. apply Hfresh5 in Hin as [Hin|Hin]; [tauto | lia]. }
  rewrite (load_represents _ _ _ _ Ht6 fuel Hdtags).
  assert (Hservice : Heap.load fuel h6 sr =
                     Some (if Lodash.isObject service
                           then getField merged "service" else service)).
  { destruct (Lodash.isObject service) eqn:Hobj;
      [|eapply load_scalar; eauto].
    inversion Hs4 as [ | | | | | address entries sfields inner Hl Ha Hn];
      subst; try discriminate.
    assert (Hkept : Heap.getField (Heap.read h6 literal) "service" =
                    Heap.RObject address).
    { apply Hkeeps6, Hkeeps5.
      assert (Hliteral4 : h4 !! literal = Some [("service", Heap.RObject address)]).
      { subst h4 literal. rewrite lookup_app_r by lia. now rewrite Nat.sub_diag. }
      now rewrite (read_lookup _ _ _ Hliteral4). }
    inversion Hrep6 as [ | | | | | ? entries6 ? inner6 Hl6 Hall6 _]; subst.
    rewrite (read_lookup _ _ _ Hl6) in Hkept.
    destruct (representsAll_getField _ _ _ _ "service" Hall6) as (fk & Hk & _).
    rewrite Hkept in Hk.
    apply (load_represents _ _ _ _ Hk).
    pose proof (depth_getField merged "service"). lia. }
  now rewrite Hservice.
Qed.

(** The span that [generateJaegerSpan] leaves behind, [spanAfterMerge], is
    the one the merge on the heap leaves: the same merged tags, the same
    service descriptor, the same tags. *)
Corollary spanAfterMerge_heap (this : Exporter) (span : Span.t) (fuel : nat) :
  uniqueKeys (Span.tags span) ->
  uniqueKeys (defaultTags this) ->
  depth (Span.tags span) <= fuel ->
  depth (defaultTags this) <= fuel ->
  depth (VObject (mergedTags this span)) <= fuel ->
  Heap.mergeTags fuel (Span.service span) (Span.tags span) (defaultTags this) =
  Some (VObject (mergedTags this span),
        Span.service (spanAfterMerge this span),
        Span.tags (spanAfterMerge this span)).
Proof.
  intros Hutags Hudefaults Hdtags Hddefaults Hdmerged.
  rewrite mergeTags_simulates by assumption.
  unfold spanAfterMerge, mergedTags.
  now destruct (Lodash.isObject (Span.service span)).
Qed.

(** * More of the exporter *)

(** ** The sampler *)


Lemma getSampler_usable (this : Exporter) (serviceName : value) :
  is_Ok (getSampler this serviceName) <-> samplerUsable this = true.
Proof.
  unfold getSampler, samplerUsable, readsOptions.
  destruct (Opts.sampler (opts this)) as [f | [ | | b | q | s | config]];
    simpl; try tauto; try (split; [intros [] | discriminate]).
  destruct (looseEqString (getField config "type") "RateLimiting");
    [destruct (getField config "options"); simpl; try tauto;
     split; try discriminate; intros []|].
  destruct (looseEqString (getField config "type") "Probabilistic");
    [destruct (getField config "options"); simpl; try tauto;
     split; try discriminate; intros []|].
  destruct (looseEqString (getField config "type") "GuaranteedThroughput");
    [destruct (getField config "options"); simpl; try tauto;
     split; try discriminate; intros []|].
  destruct (looseEqString (getField config "type") "RemoteControlled");
    simpl; [tauto|].
  destruct (getField config "options") as [ | | [|] | q | s | options];
    simpl; try tauto.
  - destruct (negb (Qnum q =? 0)%Z); simpl; tauto.
  - destruct (negb (String.eqb s "")); simpl; tauto.
Qed.

(** X3: [getSampler] throws, on reading the option and before any sampler
    is constructed, when the sampler option is [null] or [undefined], and
    when it is a mapping of type ["RateLimiting"], ["Probabilistic"] or
    ["GuaranteedThroughput"] whose [options] are [null] or [undefined]. *)
Theorem getSampler_throws (this : Exporter) (serviceName : value) :
  samplerUsable this = false ->
  exists e, getSampler this serviceName = Throw e.
Proof.
  intros Hunusable.
  pose proof (getSampler_usable this serviceName) as Husable.
  destruct (getSampler this serviceName) as [sampler|e]; [|eauto].
  rewrite Hunusable in Husable. destruct Husable as [Husable _].
  specialize (Husable I). discriminate.
Qed.

(** X3 on an input: the configuration [{type: "Probabilistic", options:
    null}]. *)
Lemma getSampler_throws_witness :
  exists e,
    getSampler
      (Sample.exporter
         (VObject [("type", VString "Probabilistic"); ("options", VNull)]) VNull)
      (VString "posts") = Throw e.
Proof. apply getSampler_throws. reflexivity. Defined.

(** X4: the service name that [getSampler] is given reaches the sampler of
    type ["RemoteControlled"] only: for a sampler function and for every
    configuration of another type, [getSampler] builds the same sampler
    whatever the name. *)
Theorem getSampler_ignores_serviceName (this : Exporter) (a b : value) :
  (forall config,
     Opts.sampler (opts this) = Opts.SamplerConfig config ->
     get config "type" <> Ok (VString "RemoteControlled")) ->
  getSampler this a = getSampler this b.
Proof.
  intros Htype. unfold getSampler.
  destruct (Opts.sampler (opts this)) as [f | config]; [reflexivity|].
  specialize (Htype config eq_refl).
  destruct (get config "type") as [type|e]; [|reflexivity]. simpl.
  destruct (looseEqString type "RateLimiting"); [reflexivity|].
  destruct (looseEqString type "Probabilistic"); [reflexivity|].
  destruct (looseEqString type "GuaranteedThroughput"); [reflexivity|].
  destruct (looseEqString type "RemoteControlled") eqn:Hremote; [|reflexivity].
  destruct type; try discriminate. simpl in Hremote.
  apply String.eqb_eq in Hremote. congruence.
Qed.

(** X4 on an input: the probabilistic configuration, asked with and without
    a name. *)
Lemma getSampler_ignores_serviceName_witness :
  getSampler (Sample.exporter Sample.probabilisticConfig VNull) (VString "posts") =
  getSampler (Sample.exporter Sample.probabilisticConfig VNull) VUndefined.
Proof.
  apply getSampler_ignores_serviceName.
  intros config [= <-]. discriminate.
Defined.

(** ** The registry of tracers *)

(** X5: for a plain name (a string, a boolean, [null], [undefined] or an
    integer, whose string form is no inherited key): a tracer stored under
    the name is returned as it is, without a sampler being built, whatever
    the sampler option; when none is stored and [getSampler] throws,
    [getTracer] throws what [getSampler] throws and leaves the exporter as
    it was: no tracer is created or stored. *)
Theorem getTracer_throws (serviceName : value) (this : Exporter) :
  plainName serviceName = true ->
  (forall tracer,
     tracers this !! toString serviceName = Some tracer ->
     getTracer serviceName this = (Ok tracer, this))
  /\ (forall e,
        tracers this !! toString serviceName = None ->
        getSampler this VUndefined = Throw e ->
        getTracer serviceName this = (Throw e, this)).
Proof.
  intros _. unfold getTracer. split.
  - now intros tracer ->.
  - now intros e -> ->.
Qed.

(** X5 on an input: a sampler option of [null], asked for the tracer of
    [posts]. *)
Lemma getTracer_throws_witness :
  let this := construct {| Opts.host := VString "127.0.0.1";
                           Opts.port := VNumber 6832;
                           Opts.sampler := Opts.SamplerConfig VNull;
                           Opts.tracerOptions := VObject [];
                           Opts.defaultTags := Opts.TagsValue VNull |} in
  exists e, getTracer (VString "posts") this = (Throw e, this).
Proof.
  intros this. eexists.
  apply (proj2 (getTracer_throws (VString "posts") this eq_refl));
    reflexivity.
Defined.




Section RegistryInvariants.
Context `{BaseTraceExporter}.

Lemma finishSpan_generateJaegerSpan own span this :
  snd (finishSpan own span this) = snd (generateJaegerSpan own span this)
  /\ (is_Ok (fst (finishSpan own span this)) <->
      is_Ok (fst (generateJaegerSpan own span this))).
Proof.
  unfold finishSpan.
  destruct (generateJaegerSpan own span this) as [[js|e] after]; simpl; tauto.
Qed.


Lemma getTracer_grows serviceName this r this' :
  getTracer serviceName this = (r, this') ->
  opts this' = opts this
  /\ defaultTags this' = defaultTags this
  /\ allocated this <= allocated this'
  /\ forall key tracer,
       tracers this !! key = Some tracer -> tracers this' !! key = Some tracer.
Proof.
  intros Hget.
  pose proof (fun key tracer => getTracer_keeps _ _ _ _ key tracer Hget) as Hkeeps.
  destruct (getTracer_cases _ _ _ _ Hget)
    as [[-> _] | (created & _ & _ & _ & _ & Halloc & Hopts & Htags)].
  - split; [|split; [|split]]; auto.
  - split; [|split; [|split]]; auto. lia.
Qed.

(** X8: no call of [init], [getTracer], [generateJaegerSpan] or [finishSpan],
    returning or throwing, changes the options, or removes or replaces a
    tracer of the registry: what is stored under a key stays there. *)
Theorem registry_grows (this this' : Exporter) :
  evolves this this' ->
  opts this' = opts this
  /\ forall key tracer,
       tracers this !! key = Some tracer -> tracers this' !! key = Some tracer.
Proof.
  induction 1 as [ | this1 _ [IHopts IHkeys]
                 | this1 this2 s r _ [IHopts IHkeys] Hget
                 | this1 this2 own span span' r _ [IHopts IHkeys] Hgen
                 | this1 this2 own span span' r _ [IHopts IHkeys] Hfin].
  - auto.
  - split; [exact IHopts | exact IHkeys].
  - destruct (getTracer_grows _ _ _ _ Hget) as (Hopts & _ & _ & Hkeys).
    split; [congruence | auto].
  - destruct (generateJaegerSpan_exporter _ _ _ _ _ _ Hgen)
      as [-> | (s & r' & Hget)]; [auto|].
    destruct (getTracer_grows _ _ _ _ Hget) as (Hopts & _ & _ & Hkeys).
    split; [congruence | auto].
  - pose proof (proj1 (finishSpan_generateJaegerSpan own span this1)) as Hsnd.
    rewrite Hfin in Hsnd. simpl in Hsnd.
    destruct (generateJaegerSpan own span this1) as [r' [span0 this0]] eqn:Hgen.
    injection Hsnd as _ <-.
    destruct (generateJaegerSpan_exporter _ _ _ _ _ _ Hgen)
      as [-> | (s & r'' & Hget)]; [auto|].
    destruct (getTracer_grows _ _ _ _ Hget) as (Hopts & _ & _ & Hkeys).
    split; [congruence | auto].
Qed.

End RegistryInvariants.


(** X8 on an input: a span of service ["users"] is exported after the tracer
    of ["posts"] was created; the tracer of ["posts"] is still stored. *)
Lemma registry_grows_witness :
  let this := snd (getTracer (VString "posts")
                     (Sample.exporter Sample.constConfig VNull)) in
  let span := Span.withService (Sample.span VNull (VObject []) VUndefined)
                (VObject [("name", VString "users")]) in
  let this' := snd (snd (@finishSpan specBase Sample.ownContext span this)) in
  opts this' = opts this
  /\ forall key tracer,
       tracers this !! key = Some tracer -> tracers this' !! key = Some tracer.
Proof.
  intros this span this'.
  apply (@registry_grows specBase this this').
  apply (@evolves_finishSpan specBase this this this' Sample.ownContext span
           (fst (snd (@finishSpan specBase Sample.ownContext span this)))
           (fst (@finishSpan specBase Sample.ownContext span this))).
  - apply evolves_refl.
  - subst this'.
    destruct (@finishSpan specBase Sample.ownContext span this) as [r [s t]].
    reflexivity.
Defined.

(** ** The options of the constructor *)

(** What the merge stores for a source value under a key the destination
    lacks: the value itself, or for a mapping a new mapping filled from it. *)
Lemma mergeKey_gap object key v :
  getField object key = VUndefined ->
  getField (Lodash.mergeKey object key v) key =
  match v with VObject _ => VObject (Lodash.baseMerge [] v) | _ => v end.
Proof.
  intros Hgap. unfold Lodash.mergeKey. rewrite Hgap.
  destruct v; now rewrite getField_assign_eq.
Qed.

Lemma baseMerge_gap sourceFields :
  forall object key v,
    NoDup (map fst sourceFields) ->
    In (key, v) sourceFields ->
    getField object key = VUndefined ->
    getField (Lodash.baseMerge object (VObject sourceFields)) key =
    match v with VObject _ => VObject (Lodash.baseMerge [] v) | _ => v end.
Proof.
  induction sourceFields as [|[k w] rest IH]; intros object key v Hnodup Hin Hgap;
    [destruct Hin|].
  rewrite baseMerge_object. cbn [fold_left fst snd]. rewrite <- baseMerge_object.
  cbn [map fst] in Hnodup. apply NoDup_cons in Hnodup as [Hfresh Hnodup].
  destruct Hin as [[= -> ->] | Hin].
  - rewrite baseMerge_absent; [now apply mergeKey_gap|].
    intros Hin. apply Hfresh. now apply list_elem_of_In.
  - apply IH; auto. rewrite mergeKey_ne; auto.
    intros ->. apply Hfresh. apply list_elem_of_In.
    change key with (fst (key, v)). now apply in_map.
Qed.

(** Where both sides hold a mapping under a key, the destination's mapping
    is filled from the source's. *)
Lemma baseMerge_into sourceFields :
  forall object key objFields src,
    NoDup (map fst sourceFields) ->
    In (key, VObject src) sourceFields ->
    getField object key = VObject objFields ->
    getField (Lodash.baseMerge object (VObject sourceFields)) key =
    VObject (Lodash.baseMerge objFields (VObject src)).
Proof.
  induction sourceFields as [|[k w] rest IH];
    intros object key objFields src Hnodup Hin Hobj; [destruct Hin|].
  rewrite baseMerge_object. cbn [fold_left fst snd]. rewrite <- baseMerge_object.
  cbn [map fst] in Hnodup. apply NoDup_cons in Hnodup as [Hfresh Hnodup].
  destruct Hin as [[= -> ->] | Hin].
  - rewrite baseMerge_absent.
    + unfold Lodash.mergeKey. rewrite Hobj. apply getField_setOwn_eq.
    + intros Hin. apply Hfresh. now apply list_elem_of_In.
  - apply IH; auto. rewrite mergeKey_ne; auto.
    intros ->. apply Hfresh. apply list_elem_of_In.
    change key with (fst (key, VObject src)). now apply in_map.
Qed.

Lemma defaultOptions_keys :
  NoDup ["host"; "port"; "sampler"; "tracerOptions"; "defaultTags"].
Proof. repeat (apply NoDup_cons; split; [set_solver|]). apply NoDup_nil_2. Qed.

Lemma defaultSampler_keys : NoDup ["type"; "options"].
Proof. repeat (apply NoDup_cons; split; [set_solver|]). apply NoDup_nil_2. Qed.

Lemma mergeOptions_gap baseOpts key v :
  In (key, v) [("host", VString "127.0.0.1"); ("port", VNumber 6832);
               ("sampler", VObject [("type", VString "Const");
                                    ("options", VObject [])]);
               ("tracerOptions", VObject []); ("defaultTags", VNull)] ->
  getField baseOpts key = VUndefined ->
  getField (mergeOptions baseOpts) key = v.
Proof.
  intros Hin Hgap. unfold mergeOptions, Lodash.defaultsDeep, defaultOptions.
  cbn [fold_left].
  match goal with
  | |- context [Lodash.baseMerge _ (VObject ?fields)] =>
      rewrite (baseMerge_gap fields baseOpts key v defaultOptions_keys Hin Hgap)
  end.
  cbn [In] in Hin. decompose [or] Hin; try contradiction;
    match goal with E : (_, _) = (_, _) |- _ => injection E as <- <- end;
    reflexivity.
Qed.

Lemma mergeOptions_sampler baseOpts config :
  getField baseOpts "sampler" = VObject config ->
  getField (mergeOptions baseOpts) "sampler" =
  VObject (Lodash.baseMerge config
             (VObject [("type", VString "Const"); ("options", VObject [])])).
Proof.
  intros Hconfig. unfold mergeOptions, Lodash.defaultsDeep, defaultOptions.
  cbn [fold_left].
  match goal with
  | |- context [Lodash.baseMerge _ (VObject ?fields)] =>
      apply (baseMerge_into fields); [exact defaultOptions_keys | | exact Hconfig]
  end.
  cbn [In]. auto.
Qed.

Lemma mergeOptions_kept baseOpts key :
  kept (getField baseOpts key) (getField (mergeOptions baseOpts) key).
Proof. apply kept_field, defaultsDeep_kept. Qed.

(** X1: the constructor leaves in [this.opts] every option that was given:
    a scalar as it is, a mapping with all it held. An option left
    [undefined] gets its default: host ["127.0.0.1"], port 6832, the sampler
    [{type: "Const", options: {}}], tracer options [{}], default tags [null].
    A sampler given as a mapping is completed: a missing [type] becomes
    ["Const"], missing [options] become [{}]. *)
Theorem constructor_defaults (baseOpts : list (string * value)) :
  (forall key, kept (getField baseOpts key) (getField (mergeOptions baseOpts) key))
  /\ (getField baseOpts "host" = VUndefined ->
      getField (mergeOptions baseOpts) "host" = VString "127.0.0.1")
  /\ (getField baseOpts "port" = VUndefined ->
      getField (mergeOptions baseOpts) "port" = VNumber 6832)
  /\ (getField baseOpts "sampler" = VUndefined ->
      getField (mergeOptions baseOpts) "sampler" =
      VObject [("type", VString "Const"); ("options", VObject [])])
  /\ (getField baseOpts "tracerOptions" = VUndefined ->
      getField (mergeOptions baseOpts) "tracerOptions" = VObject [])
  /\ (getField baseOpts "defaultTags" = VUndefined ->
      getField (mergeOptions baseOpts) "defaultTags" = VNull)
  /\ (forall config,
        getField baseOpts "sampler" = VObject config ->
        exists config',
          getField (mergeOptions baseOpts) "sampler" = VObject config'
          /\ (forall key, kept (getField config key) (getField config' key))
          /\ (getField config "type" = VUndefined ->
              getField config' "type" = VString "Const")
          /\ (getField config "options" = VUndefined ->
              getField config' "options" = VObject [])).
Proof.
  split; [apply mergeOptions_kept|].
  repeat (split; [intros Hgap; apply mergeOptions_gap; [cbn [In]; tauto | exact Hgap]|]).
  intros config Hconfig. eexists. split; [apply mergeOptions_sampler; exact Hconfig|].
  split; [intros key; apply kept_field, baseMerge_kept|].
  split; intros Hgap.
  - rewrite (baseMerge_gap [("type", VString "Const"); ("options", VObject [])]
               config "type" (VString "Const") defaultSampler_keys);
      [reflexivity | cbn [In]; tauto | exact Hgap].
  - rewrite (baseMerge_gap [("type", VString "Const"); ("options", VObject [])]
               config "options" (VObject []) defaultSampler_keys);
      [reflexivity | cbn [In]; tauto | exact Hgap].
Qed.

(** X1 on an input: the options [{port: 6831, sampler: {type:
    "Probabilistic"}}]. *)
Lemma constructor_defaults_witness :
  let baseOpts := [("port", VNumber 6831);
                   ("sampler", VObject [("type", VString "Probabilistic")])] in
  getField (mergeOptions baseOpts) "host" = VString "127.0.0.1"
  /\ getField (mergeOptions baseOpts) "defaultTags" = VNull
  /\ exists config',
       getField (mergeOptions baseOpts) "sampler" = VObject config'
       /\ (forall key,
             kept (getField [("type", VString "Probabilistic")] key)
                  (getField config' key))
       /\ (getField [("type", VString "Probabilistic")] "type" = VUndefined ->
           getField config' "type" = VString "Const")
       /\ (getField [("type", VString "Probabilistic")] "options" = VUndefined ->
           getField config' "options" = VObject []).
Proof.
  intros baseOpts.
  destruct (constructor_defaults baseOpts)
    as (_ & Hhost & _ & _ & _ & Htags & Hsampler).
  split; [apply Hhost; reflexivity|].
  split; [apply Htags; reflexivity|].
  apply Hsampler. reflexivity.
Defined.

(** X2: an exporter constructed without a sampler option builds the constant
    sampler of decision 1. In one constructed with a sampler mapping whose
    [options] are left out or are a mapping, the reads that [getSampler]
    makes succeed whatever the type: the defaults supply the options it
    reads (the client's constructor may still reject their values). A
    sampler option of [null] is kept by the merge, and [getSampler]
    throws. *)
Theorem constructed_sampler (baseOpts : list (string * value))
  (serviceName : value) :
  (getField baseOpts "sampler" = VUndefined ->
   getSampler (constructFrom baseOpts) serviceName =
   Ok (Jaeger.ConstSampler (VNumber 1)))
  /\ (forall config,
        getField baseOpts "sampler" = VObject config ->
        getField config "options" = VUndefined
        \/ Lodash.isObject (getField config "options") = true ->
        samplerUsable (constructFrom baseOpts) = true
        /\ exists config' options',
             Opts.sampler (opts (constructFrom baseOpts)) =
             Opts.SamplerConfig (VObject config')
             /\ getField config' "options" = VObject options')
  /\ (getField baseOpts "sampler" = VNull ->
      exists e, getSampler (constructFrom baseOpts) serviceName = Throw e).
Proof.
  unfold constructFrom, construct, optionsOf.
  split; [|split].
  - intros Hgap. unfold getSampler. cbn [opts Opts.sampler].
    rewrite (mergeOptions_gap baseOpts "sampler" _ ltac:(cbn [In]; tauto) Hgap).
    reflexivity.
  - intros config Hconfig Hoptions.
    assert (Hmapping : exists options',
      getField (Lodash.baseMerge config
                  (VObject [("type", VString "Const"); ("options", VObject [])]))
        "options" = VObject options').
    { destruct Hoptions as [Hgap | Hobj].
      - rewrite (baseMerge_gap [("type", VString "Const"); ("options", VObject [])]
                   config "options" (VObject []) defaultSampler_keys);
          [eauto | cbn [In]; tauto | exact Hgap].
      - destruct (getField config "options") as [ | | | | | options] eqn:Hopt;
          try discriminate.
        rewrite (baseMerge_into [("type", VString "Const"); ("options", VObject [])]
                   config "options" options [] defaultSampler_keys);
          [eauto | cbn [In]; tauto | exact Hopt]. }
    destruct Hmapping as [options' Hoptions'].
    unfold samplerUsable. cbn [opts Opts.sampler].
    rewrite (mergeOptions_sampler _ _ Hconfig). split.
    + apply orb_true_iff. right. now rewrite Hoptions'.
    + eauto.
  - intros Hnull. unfold getSampler. cbn [opts Opts.sampler].
    pose proof (mergeOptions_kept baseOpts "sampler") as Hkept.
    rewrite Hnull in Hkept.
    apply kept_scalar_eq in Hkept; [|split; [discriminate | reflexivity]].
    rewrite Hkept. simpl. eauto.
Qed.

(** X2 on an input: the options [{sampler: {type: "Probabilistic"}}], which
    give no sampler options. *)
Lemma constructed_sampler_witness :
  let baseOpts := [("sampler", VObject [("type", VString "Probabilistic")])] in
  samplerUsable (constructFrom baseOpts) = true
  /\ exists config' options',
       Opts.sampler (opts (constructFrom baseOpts)) =
       Opts.SamplerConfig (VObject config')
       /\ getField config' "options" = VObject options'.
Proof.
  intros baseOpts.
  apply (proj1 (proj2 (constructed_sampler baseOpts VUndefined))
           [("type", VString "Probabilistic")]).
  - reflexivity.
  - left. reflexivity.
Defined.

(** ** The conversion of a span *)

Section SpanExport.
Context `{BaseTraceExporter}.

(** X9: on an exporter that the constructor and any calls have led to,
    [generateJaegerSpan], and with it [finishSpan], returns only when the
    span has a service whose name holds no [null], the tracer of the
    service is stored or the reads of its sampler option succeed, the trace,
    parent and span identifiers are strings or falsy, and the name, message,
    type, code and truthy data of the error hold no [null]: when one of
    these fails, the call throws. [finishSpan] leaves the span and the
    exporter as [generateJaegerSpan] does. *)
Theorem finishSpan_returns (own : Jaeger.SpanContext) (span : Span.t)
  (this : Exporter) :
  reachable this ->
  (is_Ok (fst (generateJaegerSpan own span this)) -> convertible this span)
  /\ (is_Ok (fst (finishSpan own span this)) -> convertible this span)
  /\ (~ convertible this span ->
      (exists e, fst (generateJaegerSpan own span this) = Throw e)
      /\ (exists e, fst (finishSpan own span this) = Throw e))
  /\ snd (finishSpan own span this) = snd (generateJaegerSpan own span this).
Proof.
  intros _.
  destruct (finishSpan_generateJaegerSpan own span this) as [Hsnd Hok].
  pose proof (generateJaegerSpan_returns own span this) as Hreturns.
  split; [apply Hreturns|].
  split; [intros Hfinish; now apply Hreturns, Hok|].
  split; [|exact Hsnd].
  intros Hnot. split.
  - destruct (fst (generateJaegerSpan own span this)) as [js|e]; [|eauto].
    destruct Hnot. now apply Hreturns.
  - destruct (fst (finishSpan own span this)) as [u|e]; [|eauto].
    destruct Hnot. now apply Hreturns, Hok.
Qed.

(** X10: for a span whose service name is plain (a string, a boolean,
    [undefined] or an integer, no mapping, which the merge could write into
    before it is flattened), the span that [generateJaegerSpan] returns
    belongs to the tracer stored under the service name, carries the name and
    the start time of the input span, and is finished at its end time. The
    tags that the exporter hands to the client for it are, in this order: the
    entries of the flattened merge of the service descriptor, the span's tags
    and the default tags; [service] with the service name;
    [span.kind = "server"]; then the tags of the error, none when the span
    has no error. The tags and the default tags are taken to be plain (no
    string of characters, which the merge would read index by index, and no
    key that objects inherit) and to have no key written with digits only,
    which an object would enumerate ahead of the keys added before it. *)
Theorem generateJaegerSpan_result (own : Jaeger.SpanContext) (span span' : Span.t)
  (this this' : Exporter) (js : Jaeger.Span) (serviceName : value) :
  plainSource (Span.tags span) ->
  plainSource (defaultTags this) ->
  insertionOrdered (Span.tags span) = true ->
  insertionOrdered (defaultTags this) = true ->
  get (Span.service span) "name" = Ok serviceName ->
  plainName serviceName = true ->
  generateJaegerSpan own span this = (Ok js, (span', this')) ->
  exists errorTags,
    tracers this' !! toString serviceName = Some (Jaeger.tracer js)
    /\ Jaeger.operationName js = Span.name span
    /\ Jaeger.startTime js = Span.startTime span
    /\ Jaeger.finished js = Some (Span.endTime span)
    /\ Jaeger.tags js =
       (match flattenTags (VObject (mergedTags this span)) with
        | VObject fields => fields
        | _ => []
        end
        ++ [("service", serviceName)]
        ++ [("span.kind", VString "server")]
        ++ errorTags)%list
    /\ (truthy (Span.error span) = false -> errorTags = []).
Proof.
  intros _ _ _ _ Hname Hplain Hrun. apply generateJaegerSpan_Ok in Hrun.
  destruct Hrun as (serviceName' & tracer & parentCtx
                    & Hservice & Hget & Hparent & Hfinish & _).
  apply finishJaegerSpan_Ok in Hfinish.
  destruct Hfinish as (serviceTags & traceId & spanId & errorTags
                       & Hservicetags & _ & _ & Hfree & Herr & ->).
  exists errorTags.
  assert (serviceName' = serviceName) as ->.
  { unfold serviceNameOf in Hservice.
    destruct (truthy (Span.service span)); [congruence|].
    injection Hservice as <-. discriminate. }
  rewrite addTags_leaves in Hservicetags; [|assumption|discriminate].
  injection Hservicetags as Htags. apply app_inv_head in Htags.
  unfold tagName in Htags. subst serviceTags.
  assert (Hleaf : leaves "service" serviceName = [("service", serviceName)]).
  { destruct serviceName; try reflexivity. discriminate Hplain. }
  rewrite Hleaf in *.
  assert (Hmerged : mergedTags this' span = mergedTags this span).
  { unfold mergedTags.
    destruct (getTracer_cases _ _ _ _ Hget)
      as [[-> _] | (created & _ & _ & _ & _ & _ & _ & ->)]; reflexivity. }
  split; [exact (getTracer_stored _ _ _ _ Hget)|].
  split; [reflexivity|]. split; [reflexivity|]. split; [reflexivity|].
  split.
  - cbn [Jaeger.tags Jaeger.finish Jaeger.setTags Jaeger.setContextIds
         Jaeger.startSpan].
    rewrite Hmerged. now rewrite <- !app_assoc.
  - intros Hfalsy. unfold addErrorTags in Herr. rewrite Hfalsy in Herr.
    apply (f_equal (fun r => match r with
                             | Ok s => Jaeger.tags s
                             | Throw _ => []
                             end)) in Herr.
    cbn [Jaeger.tags Jaeger.setTags Jaeger.setContextIds] in Herr.
    rewrite <- (app_nil_r (_ ++ _)) in Herr at 1.
    now apply app_inv_head in Herr.
Qed.

(** X11: a span without a service is never converted: [generateJaegerSpan]
    throws on every span whose [service] is falsy. The span is left as it
    was; the exporter is left as [getTracer(null)] leaves it, with a tracer
    stored under ["null"] when one could be built. *)
Theorem generateJaegerSpan_without_service (own : Jaeger.SpanContext)
  (span : Span.t) (this : Exporter) :
  truthy (Span.service span) = false ->
  exists e,
    generateJaegerSpan own span this =
    (Throw e, (span, snd (getTracer VNull this))).
Proof.
  intros Hfalsy. unfold generateJaegerSpan, serviceNameOf. rewrite Hfalsy.
  destruct (getTracer VNull this) as [[tracer|e] this1]; [|eauto].
  destruct (parentContext span) as [parentCtx|e]; [|eauto].
  cbn [snd]. unfold finishJaegerSpan. cbn [addTags JS.bind].
  eexists. f_equal. f_equal. unfold spanAfterMerge.
  destruct (Span.service span); try discriminate; reflexivity.
Qed.

(** X12: an exporter constructed without default tags has, after [init], the
    default tags [null], and they add nothing to the tags of a span: the
    merged tags are the service descriptor filled from the span's tags
    (plain tags: no string of characters, no key that objects inherit). *)
Theorem no_default_tags (baseOpts : list (string * value)) (span : Span.t) :
  plainSource (Span.tags span) ->
  getField baseOpts "defaultTags" = VUndefined ->
  defaultTags (init (constructFrom baseOpts)) = VNull
  /\ mergedTags (init (constructFrom baseOpts)) span =
     Lodash.baseMerge [("service", Span.service span)] (Span.tags span).
Proof.
  intros _ Hgap.
  assert (Htags : defaultTags (init (constructFrom baseOpts)) = VNull).
  { unfold init, constructFrom, construct, optionsOf.
    cbn [opts Opts.defaultTags defaultTags].
    rewrite (mergeOptions_gap baseOpts "defaultTags" VNull
               ltac:(cbn [In]; tauto) Hgap).
    reflexivity. }
  split; [exact Htags|].
  unfold mergedTags. rewrite Htags. reflexivity.
Qed.

End SpanExport.

(** X9 on an input: a span of service [posts] whose identifier is the
    number 7 is not convertible, and the call throws. *)
Lemma finishSpan_returns_witness :
  let this := Sample.exporter Sample.constConfig VNull in
  let span := {| Span.id := VNumber 7;
                 Span.traceID := VString "01234567-89ab-cdef-0123-456789abcdef";
                 Span.parentID := VNull;
                 Span.name := VString "posts.find";
                 Span.service := VObject [("name", VString "posts")];
                 Span.tags := VObject [];
                 Span.startTime := VNumber 1000;
                 Span.endTime := VNumber 1500;
                 Span.error := VUndefined |} in
  (exists e, fst (@generateJaegerSpan specBase Sample.ownContext span this) = Throw e)
  /\ (exists e, fst (@finishSpan specBase Sample.ownContext span this) = Throw e).
Proof.
  intros this span.
  apply (proj1 (proj2 (proj2 (@finishSpan_returns specBase Sample.ownContext
                                span this
                                (reachable_init _ (reachable_construct _)))))).
  intros (serviceName & _ & _ & _ & _ & _ & _ & Hid & _). discriminate Hid.
Defined.

(** X10 on an input: a span of service [posts] with tags [{a: {b: 1}}] and
    no error. *)
Lemma generateJaegerSpan_result_witness :
  let this := Sample.exporter Sample.constConfig VNull in
  let span := Sample.span VNull
                (VObject [("a", VObject [("b", VNumber 1)])]) VUndefined in
  exists js errorTags,
    fst (@generateJaegerSpan specBase Sample.ownContext span this) = Ok js
    /\ Jaeger.operationName js = Span.name span
    /\ Jaeger.finished js = Some (Span.endTime span)
    /\ Jaeger.tags js =
       (match @flattenTags specBase (VObject (mergedTags this span)) with
        | VObject fields => fields
        | _ => []
        end
        ++ [("service", VString "posts")]
        ++ [("span.kind", VString "server")]
        ++ errorTags)%list
    /\ errorTags = [].
Proof.
  intros this span.
  destruct (@generateJaegerSpan specBase Sample.ownContext span this)
    as [[js|e] [span' this']] eqn:Hrun; [|vm_compute in Hrun; discriminate].
  assert (Htags : plainSource (Span.tags span))
    by (split; [intros s Hs; vm_compute in Hs; discriminate Hs | reflexivity]).
  assert (Hdefaults : plainSource (defaultTags this))
    by (split; [intros s Hs; vm_compute in Hs; discriminate Hs | reflexivity]).
  destruct (@generateJaegerSpan_result specBase Sample.ownContext span span'
              this this' js (VString "posts") Htags Hdefaults
              eq_refl eq_refl eq_refl eq_refl Hrun)
    as (errorTags & _ & Hop & _ & Hfin & Htagged & Hnone).
  exists js, errorTags.
  exact (conj eq_refl (conj Hop (conj Hfin (conj Htagged (Hnone eq_refl))))).
Defined.

(** X11 on an input: a span whose service is [null]. *)
Lemma generateJaegerSpan_without_service_witness :
  let this := Sample.exporter Sample.constConfig VNull in
  let span := Span.withService (Sample.span VNull (VObject []) VUndefined) VNull in
  exists e,
    @generateJaegerSpan specBase Sample.ownContext span this =
    (Throw e, (span, snd (getTracer VNull this))).
Proof.
  intros this span.
  apply (@generateJaegerSpan_without_service specBase). reflexivity.
Defined.

(** X12 on an input: the options [{host: "jaeger"}]. *)
Lemma no_default_tags_witness :
  let span := Sample.span VNull (VObject [("a", VNumber 1)]) VUndefined in
  defaultTags (@init specBase (constructFrom [("host", VString "jaeger")])) = VNull
  /\ mergedTags (@init specBase (constructFrom [("host", VString "jaeger")])) span =
     Lodash.baseMerge [("service", Span.service span)] (Span.tags span).
Proof.
  intros span.
  apply (@no_default_tags specBase [("host", VString "jaeger")] span).
  - split; [intros s Hs; vm_compute in Hs; discriminate Hs | reflexivity].
  - reflexivity.
Defined.

(** ** More on the conversion of identifiers *)

Lemma hexDecode_length s : 2 * length (Node.hexDecode s) <= String.length s.
Proof.
  induction s as [| c | a b rest IH] using string_pair_ind; simpl; try lia.
  destruct (Node.hexDigit a); [|simpl; lia].
  destruct (Node.hexDigit b); simpl; lia.
Qed.

Lemma prefix_length n s : String.length (JSString.prefix n s) <= n.
Proof.
  unfold JSString.prefix.
  rewrite <- length_list_ascii, substring_take, length_take. lia.
Qed.

Lemma convertID_string s :
  s <> "" ->
  convertID (VString s) =
  Ok (Some (Node.hexDecode (JSString.prefix 16 (JSString.removeHyphens s)))).
Proof. intros Hs. unfold convertID. now rewrite truthy_nonempty. Qed.

(** X13: [convertID] returns [null] exactly for the falsy identifiers; for a
    string that is not empty it returns a buffer, whatever the characters;
    for every other truthy identifier (a number, [true], a mapping) it
    throws. *)
Theorem convertID_cases (id : value) :
  (convertID id = Ok None <-> truthy id = false)
  /\ (forall s, id = VString s -> s <> "" ->
        exists bytes, convertID id = Ok (Some bytes))
  /\ (truthy id = true -> (forall s, id <> VString s) ->
      exists e, convertID id = Throw e).
Proof.
  split; [|split].
  - unfold convertID. destruct (truthy id); [|tauto].
    split; [|discriminate]. destruct id; discriminate.
  - intros s -> Hs. rewrite convertID_string by assumption. eauto.
  - intros Htruthy Hnot. unfold convertID. rewrite Htruthy.
    destruct id; eauto. now destruct (Hnot s).
Qed.

(** X14: the buffer that [convertID] returns holds at most 8 bytes. *)
Theorem convertID_at_most_8_bytes (id : value) (bytes : Node.Buffer) :
  convertID id = Ok (Some bytes) -> length bytes <= 8.
Proof.
  unfold convertID. destruct (truthy id); [|discriminate].
  destruct id; try discriminate. intros [= <-].
  unfold Node.Buffer_from_hex.
  pose proof (hexDecode_length (JSString.prefix 16 (JSString.removeHyphens s))).
  pose proof (prefix_length 16 (JSString.removeHyphens s)). lia.
Qed.

(** X14 on an input: an identifier of 32 digits. *)
Lemma convertID_at_most_8_bytes_witness :
  length (Node.Buffer_from_hex "0123456789abcdef") <= 8.
Proof.
  apply (convertID_at_most_8_bytes
           (VString "01234567-89ab-cdef-0123-456789abcdef")).
  reflexivity.
Defined.

Lemma hexDigit_hexChar n : (n < 16)%N -> Node.hexDigit (hexChar n) = Some n.
Proof.
  intros Hn. destruct n as [|p]; [reflexivity|].
  repeat (destruct p as [p|p|]; try lia; try reflexivity).
Qed.

Lemma byteOfN_nibbles b :
  Node.byteOfN (16 * (Byte.to_N b / 16) + Byte.to_N b mod 16) = b.
Proof.
  rewrite <- N.div_mod by lia. unfold Node.byteOfN.
  now rewrite Byte.of_to_N.
Qed.

(** Decoding undoes encoding. *)
Lemma hexDecode_hexEncode bytes : Node.hexDecode (hexEncode bytes) = bytes.
Proof.
  induction bytes as [|b rest IH]; [reflexivity|].
  pose proof (Byte.to_N_bounded b) as Hb.
  cbn [hexEncode Node.hexDecode].
  rewrite !hexDigit_hexChar, byteOfN_nibbles, IH; auto.
  - apply N.mod_lt. lia.
  - apply N.Div0.div_lt_upper_bound. lia.
Qed.

Lemma prefix_hexEncode k bytes :
  JSString.prefix (2 * k) (hexEncode bytes) = hexEncode (take k bytes).
Proof.
  unfold JSString.prefix. revert bytes.
  induction k as [|k IH]; intros [|b rest]; try reflexivity.
  replace (2 * S k) with (S (S (2 * k))) by lia.
  cbn [hexEncode take String.substring]. now rewrite IH.
Qed.

(** X15: [convertID] undoes the hexadecimal writing of an identifier: for an
    identifier that, hyphens apart, spells bytes in hexadecimal (lower case,
    two digits a byte), it returns these bytes, the first 8 of them when
    there are more. *)
Theorem convertID_round_trip (s : string) (bytes : Node.Buffer) :
  bytes <> [] ->
  JSString.removeHyphens s = hexEncode bytes ->
  convertID (VString s) = Ok (Some (take 8 bytes))
  /\ (length bytes <= 8 -> convertID (VString s) = Ok (Some bytes)).
Proof.
  intros Hbytes Hspells.
  assert (Hs : s <> "").
  { intros ->. destruct bytes; [contradiction | discriminate]. }
  assert (Hfirst : convertID (VString s) = Ok (Some (take 8 bytes))).
  { rewrite convertID_string by assumption. rewrite Hspells.
    change 16 with (2 * 8). now rewrite prefix_hexEncode, hexDecode_hexEncode. }
  split; [exact Hfirst|].
  intros Hlen. now rewrite Hfirst, take_ge.
Qed.

(** X15 on an input: the 8 bytes [01 23 45 67 89 ab cd ef], written with
    hyphens. *)
Lemma convertID_round_trip_witness :
  convertID (VString "01234567-89ab-cdef") =
  Ok (Some [Byte.x01; Byte.x23; Byte.x45; Byte.x67;
            Byte.x89; Byte.xab; Byte.xcd; Byte.xef]).
Proof.
  apply (proj2 (convertID_round_trip "01234567-89ab-cdef"
                  [Byte.x01; Byte.x23; Byte.x45; Byte.x67;
                   Byte.x89; Byte.xab; Byte.xcd; Byte.xef]
                  ltac:(discriminate) eq_refl)).
  simpl. lia.
Defined.

(** X16: [convertID] reads the first 16 characters other than hyphens and
    nothing else: two identifiers that agree on them are converted to the
    same buffer, however they go on. *)
Theorem convertID_first_16_digits (s s' : string) :
  s <> "" -> s' <> "" ->
  identifierDigits s = identifierDigits s' ->
  convertID (VString s) = convertID (VString s').
Proof.
  intros Hs Hs' Hdigits. rewrite !convertID_string by assumption.
  rewrite <- !prefix_removeHyphens in Hdigits.
  apply (f_equal string_of_list_ascii) in Hdigits.
  rewrite !string_of_list_ascii_of_string in Hdigits. now rewrite Hdigits.
Qed.

(** X16 on an input: two identifiers of 32 digits that differ in the second
    half only. *)
Lemma convertID_first_16_digits_witness :
  convertID (VString "01234567-89ab-cdef-0123-456789abcdef") =
  convertID (VString "01234567-89ab-cdef-ffff-ffffffffffff").
Proof.
  apply (convertID_first_16_digits "01234567-89ab-cdef-0123-456789abcdef"
           "01234567-89ab-cdef-ffff-ffffffffffff");
    [discriminate | discriminate | vm_compute; reflexivity].
Defined.

Lemma hexDecode_stops c rest :
  Node.hexDigit c = None ->
  forall pre,
    hexDigits pre ->
    Node.hexDecode (string_of_list_ascii (pre ++ c :: rest)) =
    Node.hexDecode (string_of_list_ascii pre)
    /\ length (Node.hexDecode (string_of_list_ascii pre)) = Nat.div2 (length pre).
Proof.
  intros Hc pre.
  enough (Hboth :
    (hexDigits pre ->
     Node.hexDecode (string_of_list_ascii (pre ++ c :: rest)) =
     Node.hexDecode (string_of_list_ascii pre)
     /\ length (Node.hexDecode (string_of_list_ascii pre)) = Nat.div2 (length pre))
    /\ forall a,
         hexDigits (a :: pre) ->
         Node.hexDecode (string_of_list_ascii ((a :: pre) ++ c :: rest)) =
         Node.hexDecode (string_of_list_ascii (a :: pre))
         /\ length (Node.hexDecode (string_of_list_ascii (a :: pre))) =
            Nat.div2 (length (a :: pre))) by tauto.
  induction pre as [|b pre [IH1 IH2]].
  - split.
    + intros _. split; [|reflexivity]. cbn [app string_of_list_ascii].
      destruct rest as [|x rest]; [reflexivity|].
      cbn [string_of_list_ascii Node.hexDecode]. now rewrite Hc.
    + intros a Ha. split; [|reflexivity].
      cbn [app string_of_list_ascii Node.hexDecode]. rewrite Hc.
      now destruct (Node.hexDigit a).
  - split; [apply IH2|].
    intros a Hab. inversion Hab as [|? ? Ha Hb]; subst.
    inversion Hb as [|? ? Hb' Hpre]; subst.
    destruct (IH1 Hpre) as [Hsame Hlen].
    cbn [app string_of_list_ascii Node.hexDecode] in *.
    destruct (Node.hexDigit a); [|contradiction].
    destruct (Node.hexDigit b); [|contradiction].
    split; [now rewrite Hsame|]. cbn [length Nat.div2]. now rewrite Hlen.
Qed.

(** X17: [convertID] does not reject an identifier that holds a character
    that is no hexadecimal digit: the decoding stops there without an error.
    When the first such character among the 16 read comes after [n]
    hexadecimal digits, the buffer holds the bytes of the first [n / 2] pairs
    of digits only. *)
Theorem convertID_stops_at_non_hex (s : string) (pre rest : list ascii)
  (c : ascii) :
  s <> "" ->
  identifierDigits s = (pre ++ c :: rest)%list ->
  hexDigits pre ->
  Node.hexDigit c = None ->
  convertID (VString s) =
  Ok (Some (Node.hexDecode (string_of_list_ascii pre)))
  /\ length (Node.hexDecode (string_of_list_ascii pre)) = Nat.div2 (length pre).
Proof.
  intros Hs Hdigits Hpre Hc. rewrite convertID_string by assumption.
  destruct (hexDecode_stops c rest Hc pre Hpre) as [Hsame Hlen].
  split; [|exact Hlen].
  rewrite <- Hsame, <- Hdigits, <- prefix_removeHyphens.
  now rewrite string_of_list_ascii_of_string.
Qed.

(** X17 on an input: an identifier with a [g] after three digits; one byte is
    decoded. *)
Lemma convertID_stops_at_non_hex_witness :
  convertID (VString "012g4567-89ab") = Ok (Some [Byte.x01]).
Proof.
  apply (proj1 (convertID_stops_at_non_hex "012g4567-89ab"
                  (list_ascii_of_string "012") (list_ascii_of_string "456789ab")
                  "g"%char ltac:(discriminate) ltac:(vm_compute; reflexivity)
                  ltac:(repeat constructor; discriminate) eq_refl)).
Defined.

(** ** More on the tags *)

(** X18: [addTags] throws exactly when the value holds a [null], at any
    depth: the [TypeError] of [Object.keys(null)]. When it returns, it has
    only appended tags to the span: the tags set before, the context and all
    else are as they were. *)
Theorem addTags_throws_on_null (span : Jaeger.Span) (key : string) (v : value)
  (prefix : option string) :
  (nullFree v = true ->
   exists added, addTags span key v prefix = Ok (Jaeger.setTags span added))
  /\ (nullFree v = false ->
      addTags span key v prefix =
      Throw (TypeError "Cannot convert undefined or null to object")).
Proof. apply addTags_total. Qed.

(** X18 on inputs: a mapping that holds a [null] two levels down, and one that
    holds none. *)
Lemma addTags_throws_on_null_witness :
  let span := Jaeger.startSpan (Sample.tracer 0 "posts") Sample.ownContext
                (VString "posts.find") (VNumber 1000) None (VObject []) in
  addTags span "data"
    (VObject [("a", VNumber 1); ("b", VObject [("c", VNull)])]) (Some "error") =
  Throw (TypeError "Cannot convert undefined or null to object")
  /\ exists added,
       addTags span "data"
         (VObject [("a", VNumber 1); ("b", VObject [("c", VUndefined)])])
         (Some "error") = Ok (Jaeger.setTags span added).
Proof.
  intros span. split.
  - apply (proj2 (addTags_throws_on_null span "data"
                    (VObject [("a", VNumber 1); ("b", VObject [("c", VNull)])])
                    (Some "error"))).
    reflexivity.
  - apply (proj1 (addTags_throws_on_null span "data"
                    (VObject [("a", VNumber 1); ("b", VObject [("c", VUndefined)])])
                    (Some "error"))).
    reflexivity.
Defined.

Section Effects.
Context `{BaseTraceExporter}.

Lemma getTracer_defaultTags serviceName this :
  defaultTags (snd (getTracer serviceName this)) = defaultTags this.
Proof.
  unfold getTracer. destruct (tracers this !! toString serviceName); [reflexivity|].
  now destruct (getSampler this VUndefined).
Qed.

(** X19: a span whose error cannot be rendered (a [null] in its name,
    message, type, code or truthy data) but which is convertible otherwise
    makes [generateJaegerSpan] throw after the effects of the call have
    taken place: the tracer of the service has been created and stored, and
    the merge of the tags has written into [span.service]. The tags and the
    default tags are taken to be plain, the string form of the service name
    to be no inherited key. *)
Theorem generateJaegerSpan_throws_after_effects (own : Jaeger.SpanContext)
  (span : Span.t) (this : Exporter) (serviceName : value) :
  plainSource (Span.tags span) ->
  plainSource (defaultTags this) ->
  truthy (Span.service span) = true ->
  get (Span.service span) "name" = Ok serviceName ->
  isInherited (toString serviceName) = false ->
  nullFree serviceName = true ->
  is_Ok (fst (getTracer serviceName this)) ->
  convertibleID (Span.traceID span) = true ->
  convertibleID (Span.parentID span) = true ->
  convertibleID (Span.id span) = true ->
  renderable (Span.error span) = false ->
  exists e,
    generateJaegerSpan own span this =
    (Throw e, (spanAfterMerge this span, snd (getTracer serviceName this))).
Proof.
  intros _ _ Htruthy Hname _ Hfree Hget Htrace Hparent Hid Herror.
  apply convertID_Ok, is_Ok_exists in Htrace, Hparent, Hid.
  destruct Htrace as [traceId Htrace]. destruct Hparent as [parentId Hparent].
  destruct Hid as [spanId Hid].
  unfold generateJaegerSpan, serviceNameOf. rewrite Htruthy, Hname.
  pose proof (getTracer_defaultTags serviceName this) as Hdefaults.
  destruct (getTracer serviceName this) as [[tracer|e] this1]; [|destruct Hget].
  cbn [snd] in *.
  assert (Hctx : exists parentCtx, parentContext span = Ok parentCtx).
  { unfold parentContext. rewrite Htrace, Hparent.
    destruct (truthy (Span.parentID span)); simpl; eauto. }
  destruct Hctx as [parentCtx ->].
  assert (Hafter : spanAfterMerge this1 span = spanAfterMerge this span).
  { unfold spanAfterMerge, mergedTags. now rewrite Hdefaults. }
  rewrite Hafter. unfold finishJaegerSpan.
  match goal with
  | |- context [addTags ?s "service" serviceName None] =>
      destruct (addTags_total serviceName s "service" None) as [Hok _]
  end.
  destruct (Hok Hfree) as [added ->]. cbn [JS.bind].
  rewrite (addTags_scalar _ _ (VString Jaeger.SPAN_KIND_RPC_SERVER))
    by reflexivity.
  cbn [JS.bind]. rewrite Htrace, Hid. cbn [JS.bind].
  match goal with
  | |- context [addErrorTags ?s ?err] =>
      pose proof (addErrorTags_is_Ok s err) as Herr;
      destruct (addErrorTags s err) as [s'|e]
  end.
  - simpl in Herr. rewrite Herror in Herr. destruct Herr as [Herr _].
    specialize (Herr I). discriminate.
  - cbn [JS.bind]. eauto.
Qed.

End Effects.

(** X19 on an input: the error [{name: null, ...}] on a span of service
    [posts] whose tags hold [service.version]. *)
Lemma generateJaegerSpan_throws_after_effects_witness :
  let this := Sample.exporter Sample.constConfig VNull in
  let span := Sample.span VNull
                (VObject [("service", VObject [("version", VNumber 1)])])
                (VObject [("name", VNull); ("message", VString "boom")]) in
  exists e,
    @generateJaegerSpan specBase Sample.ownContext span this =
    (Throw e, (spanAfterMerge this span,
               snd (getTracer (VString "posts") this))).
Proof.
  intros this span.
  apply (@generateJaegerSpan_throws_after_effects specBase Sample.ownContext
           span this (VString "posts")); try reflexivity;
    (split; [intros s Hs; vm_compute in Hs; discriminate Hs | reflexivity]).
Defined.

(** ** The merge on the objects of the span *)

(** X20: the merge of lines 168-170 run on the objects themselves, where
    the object literal refers to the service descriptor of the span, gives
    the merged tags of the merge on values and leaves the span as
    [spanAfterMerge] has it: [span.tags] is not written to, and
    [span.service], when it is a mapping, holds from then on what the merged
    tags hold under [service]. This holds for plain tags and default tags
    (no string of characters, no key that objects inherit) without repeated
    keys, given fuel for their depth. *)
Theorem merge_writes_service (this : Exporter) (span : Span.t) (fuel : nat) :
  plainSource (Span.tags span) ->
  plainSource (defaultTags this) ->
  uniqueKeys (Span.tags span) ->
  uniqueKeys (defaultTags this) ->
  depth (Span.tags span) <= fuel ->
  depth (defaultTags this) <= fuel ->
  depth (VObject (mergedTags this span)) <= fuel ->
  Heap.mergeTags fuel (Span.service span) (Span.tags span) (defaultTags this) =
  Some (VObject (mergedTags this span),
        Span.service (spanAfterMerge this span),
        Span.tags span)
  /\ Span.tags (spanAfterMerge this span) = Span.tags span.
Proof.
  intros _ _ Hutags Hudefaults Hdtags Hddefaults Hdmerged.
  assert (Htags : Span.tags (spanAfterMerge this span) = Span.tags span).
  { unfold spanAfterMerge. now destruct (Lodash.isObject (Span.service span)). }
  split; [|exact Htags].
  rewrite <- Htags at 2. now apply spanAfterMerge_heap.
Qed.

(** X20 on an input: the service [{name: "posts"}], the tags [{service:
    {version: 1}, a: {b: 2}}] and the default tags that [init] makes of the
    option [{a: {c: 3}}]. *)
Lemma merge_writes_service_witness :
  let this := Sample.exporter Sample.constConfig
                (VObject [("a", VObject [("c", VNumber 3)])]) in
  let span := Sample.span VNull
                (VObject [("service", VObject [("version", VNumber 1)]);
                          ("a", VObject [("b", VNumber 2)])])
                VUndefined in
  Heap.mergeTags 4 (Span.service span) (Span.tags span) (defaultTags this) =
  Some (VObject (mergedTags this span),
        Span.service (spanAfterMerge this span),
        Span.tags span)
  /\ Span.tags (spanAfterMerge this span) = Span.tags span.
Proof.
  intros this span.
  apply (merge_writes_service this span 4).
  - split; [intros s Hs; vm_compute in Hs; discriminate Hs | reflexivity].
  - split; [intros s Hs; vm_compute in Hs; discriminate Hs | reflexivity].
  - cbn. repeat split; repeat (apply NoDup_cons; split; [set_solver|]);
      apply NoDup_nil_2.
  - cbn. repeat split; repeat (apply NoDup_cons; split; [set_solver|]);
      apply NoDup_nil_2.
  - vm_compute. lia.
  - vm_compute. lia.
  - vm_compute. lia.
Defined.

(** ** More on the sampler and on identifiers *)

(** X21: a decision that is given is passed on to the constant sampler as it
    is, also when it is falsy (0, [false], the empty string): only [null] and
    [undefined] are replaced by 1. *)
Theorem getSampler_decision (this : Exporter) (serviceName : value)
  (config options : list (string * value)) :
  Opts.sampler (opts this) = Opts.SamplerConfig (VObject config) ->
  (forall known, In known knownSamplerTypes ->
     getField config "type" <> VString known) ->
  getField config "options" = VObject options ->
  notNullish (getField options "decision") = true ->
  getSampler this serviceName =
  Ok (Jaeger.ConstSampler (getField options "decision")).
Proof.
  intros Hconfig Hunknown Hoptions Hdecision.
  unfold getSampler. rewrite Hconfig. cbn [get JS.bind].
  rewrite !looseEqString_other by (apply Hunknown; simpl; tauto).
  rewrite Hoptions. cbn [get JS.bind truthy]. now rewrite Hdecision.
Qed.

(** X21 on an input: the configuration [{type: "Const", options: {decision:
    0}}]. *)
Lemma getSampler_decision_witness :
  getSampler
    (Sample.exporter
       (VObject [("type", VString "Const");
                 ("options", VObject [("decision", VNumber 0)])]) VNull)
    VUndefined =
  Ok (Jaeger.ConstSampler (VNumber 0)).
Proof.
  apply (getSampler_decision _ VUndefined
           [("type", VString "Const");
            ("options", VObject [("decision", VNumber 0)])]
           [("decision", VNumber 0)]).
  - reflexivity.
  - intros known Hin. simpl in Hin.
    decompose [or] Hin; subst; try discriminate; contradiction.
  - reflexivity.
  - reflexivity.
Defined.

Lemma hexDigit_lowerChar c : Node.hexDigit (lowerChar c) = Node.hexDigit c.
Proof. destruct c as [[] [] [] [] [] [] [] []]; reflexivity. Qed.

Lemma hyphen_lowerChar c :
  Ascii.eqb (lowerChar c) "-"%char = Ascii.eqb c "-"%char.
Proof. destruct c as [[] [] [] [] [] [] [] []]; reflexivity. Qed.

Lemma removeHyphens_toLowerCase s :
  JSString.removeHyphens (toLowerCase s) = toLowerCase (JSString.removeHyphens s).
Proof.
  induction s as [|c rest IH]; [reflexivity|].
  cbn [toLowerCase JSString.removeHyphens]. rewrite hyphen_lowerChar, IH.
  now destruct (Ascii.eqb c "-"%char).
Qed.

Lemma prefix_toLowerCase n s :
  JSString.prefix n (toLowerCase s) = toLowerCase (JSString.prefix n s).
Proof.
  unfold JSString.prefix. revert s.
  induction n as [|n IH]; intros [|c rest]; try reflexivity.
  cbn [toLowerCase String.substring]. now rewrite IH.
Qed.

Lemma hexDecode_toLowerCase s :
  Node.hexDecode (toLowerCase s) = Node.hexDecode s.
Proof.
  induction s as [| c | a b rest IH] using string_pair_ind; try reflexivity.
  cbn [toLowerCase Node.hexDecode]. now rewrite !hexDigit_lowerChar, IH.
Qed.

(** X22: [convertID] does not tell upper case from lower case: an
    identifier and its lower-case form are converted alike. *)
Theorem convertID_ignores_case (s : string) :
  convertID (VString (toLowerCase s)) = convertID (VString s).
Proof.
  destruct s as [|c rest]; [reflexivity|].
  rewrite !convertID_string by discriminate. unfold Node.Buffer_from_hex.
  now rewrite removeHyphens_toLowerCase, prefix_toLowerCase, hexDecode_toLowerCase.
Qed.

(** X23: identifiers that denote different numbers do not collide: when two
    identifiers whose characters read (at most 16, hyphens apart) are
    hexadecimal digits, an even number of them, are converted to the same
    buffer, their digits denote the same number. *)
Theorem convertID_same_number (s s' : string) (n n' : N) :
  s <> "" -> s' <> "" ->
  Nat.even (length (identifierDigits s)) = true ->
  Nat.even (length (identifierDigits s')) = true ->
  hexNumber (identifierDigits s) = Some n ->
  hexNumber (identifierDigits s') = Some n' ->
  convertID (VString s) = convertID (VString s') ->
  n = n'.
Proof.
  intros Hs Hs' Heven Heven' Hn Hn'.
  rewrite !convertID_string by assumption. intros [= Hsame].
  rewrite <- prefix_removeHyphens in Heven, Heven', Hn, Hn'.
  rewrite length_list_ascii in Heven, Heven'.
  destruct (hexDecode_number _ 0%N n Heven Hn) as [<- _].
  destruct (hexDecode_number _ 0%N n' Heven' Hn') as [<- _].
  unfold Node.Buffer_from_hex in Hsame. now rewrite Hsame.
Qed.

(** X23 on an input: ["AB-CD"] and ["abcd"], both 43981. *)
Lemma convertID_same_number_witness : 43981%N = 43981%N.
Proof.
  apply (convertID_same_number "AB-CD" "abcd" 43981 43981);
    try discriminate; vm_compute; reflexivity.
Defined.

(** ** The keys of the merged tags *)

Lemma hasOwn_setOwn {V : Type} (fields : list (string * V)) key v other :
  hasOwn (setOwn fields key v) other = hasOwn fields other || String.eqb key other.
Proof.
  unfold hasOwn. destruct (String.eqb key other) eqn:E.
  - apply String.eqb_eq in E. subst other. rewrite getOwn_setOwn_eq.
    now rewrite orb_true_r.
  - apply String.eqb_neq in E. rewrite getOwn_setOwn_ne by assumption.
    now rewrite orb_false_r.
Qed.

Lemma hasOwn_undefined fields key :
  hasOwn fields key = false -> getField fields key = VUndefined.
Proof. unfold hasOwn, getField. now destruct (getOwn fields key). Qed.

Lemma hasOwn_defined fields key :
  getField fields key <> VUndefined -> hasOwn fields key = true.
Proof.
  intros Hdef. destruct (hasOwn fields key) eqn:E; auto.
  now apply hasOwn_undefined in E.
Qed.

Lemma hasOwn_assign fields key v other :
  hasOwn (Lodash.assignMergeValue fields key v) other =
  hasOwn fields other || String.eqb key other.
Proof.
  unfold Lodash.assignMergeValue.
  destruct v; try apply hasOwn_setOwn.
  destruct (hasOwn fields key) eqn:Hkey; [|apply hasOwn_setOwn].
  destruct (String.eqb key other) eqn:E; [|now rewrite orb_false_r].
  apply String.eqb_eq in E. subst other. now rewrite Hkey.
Qed.

(** A turn of the merge adds the key of the source, if it is new, and no
    other. *)
Lemma hasOwn_mergeKey object key srcValue other :
  hasOwn (Lodash.mergeKey object key srcValue) other =
  hasOwn object other || String.eqb key other.
Proof.
  assert (Hsame : getField object key <> VUndefined ->
                  hasOwn object other =
                  hasOwn object other || String.eqb key other).
  { intros Hdef. destruct (String.eqb key other) eqn:E;
      [|now rewrite orb_false_r].
    apply String.eqb_eq in E. subst other.
    now rewrite (hasOwn_defined _ _ Hdef). }
  unfold Lodash.mergeKey.
  destruct srcValue; destruct (getField object key) eqn:Hobj;
    try apply hasOwn_assign; try apply hasOwn_setOwn;
    apply Hsame; rewrite ?Hobj; discriminate.
Qed.

Lemma hasOwn_baseMerge sourceFields :
  forall object key,
    hasOwn (Lodash.baseMerge object (VObject sourceFields)) key = true <->
    hasOwn object key = true \/ In key (map fst sourceFields).
Proof.
  induction sourceFields as [|[k v] rest IH]; intros object key.
  - simpl. tauto.
  - rewrite baseMerge_object. cbn [fold_left fst snd map].
    rewrite <- baseMerge_object, IH, hasOwn_mergeKey, orb_true_iff.
    rewrite String.eqb_eq. cbn [In]. tauto.
Qed.

Lemma hasOwn_merge object source key :
  hasOwn (Lodash.baseMerge object source) key = true <->
  hasOwn object key = true
  \/ exists fields, source = VObject fields /\ In key (map fst fields).
Proof.
  destruct source as [ | | b | q | s | fields];
    try (simpl; split; [tauto | intros [Hown | (f & [=] & _)]; exact Hown]).
  rewrite hasOwn_baseMerge. split.
  - intros [Hown | Hin]; [tauto | right; eauto].
  - intros [Hown | (f & [= <-] & Hin)]; tauto.
Qed.

(** X24: the merged tags have the key [service], the keys of the span's
    tags and the keys of the default tags, and no other: the merge drops no
    key and makes up none. The tags and the default tags are taken to be
    plain: no string of characters, no key that objects inherit. *)
Theorem mergedTags_keys (this : Exporter) (span : Span.t) (key : string) :
  plainSource (Span.tags span) ->
  plainSource (defaultTags this) ->
  hasOwn (mergedTags this span) key = true <->
  key = "service"
  \/ (exists fields, Span.tags span = VObject fields /\ In key (map fst fields))
  \/ (exists fields, defaultTags this = VObject fields /\ In key (map fst fields)).
Proof.
  intros _ _. unfold mergedTags, Lodash.defaultsDeep. cbn [fold_left].
  rewrite !hasOwn_merge.
  assert (Hliteral : hasOwn [("service", Span.service span)] key = true <->
                     key = "service").
  { unfold hasOwn. cbn [getOwn].
    destruct (String.eqb "service" key) eqn:E.
    - apply String.eqb_eq in E. split; auto.
    - apply String.eqb_neq in E. split; [discriminate | congruence]. }
  rewrite Hliteral. tauto.
Qed.

(** X24 on an input: the key [y], which the default tags alone hold. *)
Lemma mergedTags_keys_witness :
  let this := Sample.exporter Sample.constConfig
                (VObject [("x", VNumber 2); ("y", VNumber 3)]) in
  let span := Sample.span VNull (VObject [("x", VNumber 1)]) VUndefined in
  hasOwn (mergedTags this span) "y" = true.
Proof.
  intros this span.
  apply (proj2 (mergedTags_keys this span "y"
                  ltac:(split; [intros s Hs; vm_compute in Hs; discriminate Hs | reflexivity])
                  ltac:(split; [intros s Hs; vm_compute in Hs; discriminate Hs | reflexivity]))).
  right. right. exists [("x", VNumber 2); ("y", VNumber 3)].
  split; [reflexivity | simpl; tauto].
Defined.

(** ** Merging again *)

Lemma filled_object object sourceFields :
  filled object (VObject sourceFields) <->
  List.Forall (fun kv => filledKey object (fst kv) (snd kv)) sourceFields.
Proof.
  cbn [filled]. induction sourceFields as [|[k v] rest IH].
  - split; auto.
  - rewrite List.Forall_cons_iff, <- IH. reflexivity.
Qed.

Lemma setOwn_same {V : Type} (fields : list (string * V)) key v :
  getOwn fields key = Some v -> setOwn fields key v = fields.
Proof.
  induction fields as [|[k w] rest IH]; simpl; [discriminate|].
  destruct (String.eqb k key) eqn:E.
  - now intros [= ->].
  - intros Hrest. now rewrite IH.
Qed.

Lemma setOwn_getField fields key v :
  getField fields key = v -> v <> VUndefined -> setOwn fields key v = fields.
Proof.
  unfold getField. intros Hget Hdef. apply setOwn_same.
  destruct (getOwn fields key); congruence.
Qed.

(** Nothing to do: the merge leaves the destination as it is. *)
Lemma mergeKey_filled object key v :
  (forall objFields, filled objFields v -> Lodash.baseMerge objFields v = objFields) ->
  filledKey object key v ->
  Lodash.mergeKey object key v = object.
Proof.
  intros IH. unfold filledKey, Lodash.mergeKey.
  destruct v as [ | | b | q | s | fields];
    destruct (getField object key) as [ | | b' | q' | s' | objFields] eqn:Hobj;
    try reflexivity; try contradiction; try congruence.
  - intros Hown. unfold Lodash.assignMergeValue. now rewrite Hown.
  - intros Hfilled. rewrite IH by assumption.
    apply setOwn_getField; [assumption | discriminate].
Qed.

Lemma filled_baseMerge source :
  forall object, filled object source -> Lodash.baseMerge object source = object.
Proof.
  induction source as [ | | b | q | s | fields IH] using value_nested_ind;
    intros object Hfilled; try reflexivity.
  rewrite baseMerge_object. apply filled_object in Hfilled.
  induction IH as [|[k v] rest Hv _ IHrest]; [reflexivity|].
  apply List.Forall_cons_iff in Hfilled as [Hkey Hrest].
  cbn [fold_left fst snd] in *. rewrite mergeKey_filled; auto.
Qed.

(** What is filled stays filled when a turn of a merge goes by. *)
Lemma filledKey_mergeKey object key v key' v' :
  (forall objFields f, filled objFields v ->
     filled (Lodash.baseMerge objFields f) v) ->
  filledKey object key v ->
  filledKey (Lodash.mergeKey object key' v') key v.
Proof.
  intros IH Hfilled. destruct (String.eqb key' key) eqn:E.
  - apply String.eqb_eq in E. subst key'.
    unfold filledKey in *.
    destruct v as [ | | b | q | s | fields].
    + rewrite hasOwn_mergeKey, Hfilled. reflexivity.
    + unfold Lodash.mergeKey.
      destruct v'; destruct (getField object key) eqn:Hobj;
        rewrite ?Hobj; try congruence;
        rewrite getField_setOwn_eq; discriminate.
    + unfold Lodash.mergeKey.
      destruct v'; destruct (getField object key) eqn:Hobj;
        rewrite ?Hobj; try congruence;
        rewrite getField_setOwn_eq; discriminate.
    + unfold Lodash.mergeKey.
      destruct v'; destruct (getField object key) eqn:Hobj;
        rewrite ?Hobj; try congruence;
        rewrite getField_setOwn_eq; discriminate.
    + unfold Lodash.mergeKey.
      destruct v'; destruct (getField object key) eqn:Hobj;
        rewrite ?Hobj; try congruence;
        rewrite getField_setOwn_eq; discriminate.
    + unfold Lodash.mergeKey.
      destruct v'; destruct (getField object key) as [ | | | | | objFields] eqn:Hobj;
        rewrite ?Hobj; try assumption; try contradiction.
      rewrite getField_setOwn_eq. now apply IH.
  - apply String.eqb_neq in E. unfold filledKey.
    rewrite mergeKey_ne by assumption.
    rewrite hasOwn_mergeKey.
    replace (String.eqb key' key) with false
      by (symmetry; now apply String.eqb_neq).
    rewrite orb_false_r. exact Hfilled.
Qed.

Lemma filledKey_baseMerge v :
  (forall objFields f, filled objFields v ->
     filled (Lodash.baseMerge objFields f) v) ->
  forall f object key,
    filledKey object key v -> filledKey (Lodash.baseMerge object f) key v.
Proof.
  intros IH f object key Hfilled.
  destruct f as [ | | b | q | s | fields]; try exact Hfilled.
  rewrite baseMerge_object. revert object Hfilled.
  induction fields as [|[k' v'] rest IHrest]; intros object Hfilled;
    [exact Hfilled|].
  cbn [fold_left fst snd]. apply IHrest. now apply filledKey_mergeKey.
Qed.

Lemma filled_preserved source :
  forall object f,
    filled object source -> filled (Lodash.baseMerge object f) source.
Proof.
  induction source as [ | | b | q | s | fields IH] using value_nested_ind;
    intros object f Hfilled; try exact I.
  apply filled_object. apply filled_object in Hfilled.
  induction IH as [|[k v] rest Hv _ IHrest]; [constructor|].
  apply List.Forall_cons_iff in Hfilled as [Hkey Hrest].
  constructor; [|now apply IHrest].
  cbn [fst snd] in *. now apply filledKey_baseMerge.
Qed.

(** What a merge has filled is filled. *)
Lemma mergeKey_fills object key v :
  (forall objFields, filled (Lodash.baseMerge objFields v) v) ->
  filledKey (Lodash.mergeKey object key v) key v.
Proof.
  intros IH. unfold filledKey, Lodash.mergeKey.
  destruct v as [ | | b | q | s | fields];
    destruct (getField object key) as [ | | b' | q' | s' | objFields] eqn:Hobj;
    rewrite ?Hobj; try discriminate; try exact I;
    try (rewrite getField_assign_eq by assumption; discriminate);
    try (apply hasOwn_defined; rewrite Hobj; discriminate).
  - rewrite hasOwn_assign, String.eqb_refl. apply orb_true_r.
  - rewrite getField_assign_eq by assumption. apply IH.
  - rewrite getField_setOwn_eq. apply IH.
Qed.

Lemma baseMerge_filled source :
  forall object, filled (Lodash.baseMerge object source) source.
Proof.
  induction source as [ | | b | q | s | fields IH] using value_nested_ind;
    intros object; try exact I.
  apply filled_object. rewrite baseMerge_object. revert object.
  induction IH as [|[k v] rest Hv _ IHrest]; intros object; [constructor|].
  cbn [fold_left fst snd] in *. constructor; [|apply IHrest].
  cbn [fst snd]. rewrite <- baseMerge_object.
  apply filledKey_baseMerge; [intros; now apply filled_preserved|].
  now apply mergeKey_fills.
Qed.

Lemma filled_defaultsDeep sources :
  forall object source,
    filled object source -> filled (Lodash.defaultsDeep object sources) source.
Proof.
  unfold Lodash.defaultsDeep.
  induction sources as [|f rest IH]; intros object source Hfilled;
    [exact Hfilled|].
  cbn [fold_left]. apply IH. now apply filled_preserved.
Qed.

Lemma defaultsDeep_filled sources :
  forall object,
    List.Forall (filled (Lodash.defaultsDeep object sources)) sources.
Proof.
  induction sources as [|source rest IH]; intros object; [constructor|].
  constructor; [|apply IH].
  change (Lodash.defaultsDeep object (source :: rest))
    with (Lodash.defaultsDeep (Lodash.baseMerge object source) rest).
  apply filled_defaultsDeep, baseMerge_filled.
Qed.

Lemma defaultsDeep_nothing sources object :
  List.Forall (filled object) sources ->
  Lodash.defaultsDeep object sources = object.
Proof.
  unfold Lodash.defaultsDeep.
  induction 1 as [|source rest Hsource _ IH]; [reflexivity|].
  cbn [fold_left]. now rewrite filled_baseMerge.
Qed.

(** Merging the same sources a second time changes nothing. *)
Lemma defaultsDeep_again object sources :
  Lodash.defaultsDeep (Lodash.defaultsDeep object sources) sources =
  Lodash.defaultsDeep object sources.
Proof. apply defaultsDeep_nothing, defaultsDeep_filled. Qed.

(** X25: the constructor's merge of the defaults is idempotent: options
    that a constructor has completed are left as they are when they are
    given to a constructor again, and the exporter constructed is the
    same. *)
Theorem constructor_idempotent (baseOpts : list (string * value)) :
  mergeOptions (mergeOptions baseOpts) = mergeOptions baseOpts
  /\ constructFrom (mergeOptions baseOpts) = constructFrom baseOpts.
Proof.
  assert (Hagain : mergeOptions (mergeOptions baseOpts) = mergeOptions baseOpts)
    by exact (defaultsDeep_again baseOpts [defaultOptions]).
  split; [exact Hagain|]. unfold constructFrom. now rewrite Hagain.
Qed.

(** The merge into a destination that starts with a property: the property
    takes what the source lists under its key, the rest of the destination
    what the source lists under other keys. *)
Lemma mergeKey_head_eq key x tail v :
  Lodash.mergeKey ((key, x) :: tail) key v = (key, mergeValue x v) :: tail.
Proof.
  unfold Lodash.mergeKey, mergeValue, getField, Lodash.assignMergeValue, hasOwn.
  cbn [getOwn]. rewrite String.eqb_refl.
  destruct v; destruct x; cbn [setOwn]; rewrite ?String.eqb_refl; reflexivity.
Qed.

Lemma mergeKey_head_ne key x tail other v :
  key <> other ->
  Lodash.mergeKey ((key, x) :: tail) other v =
  (key, x) :: Lodash.mergeKey tail other v.
Proof.
  intros Hne. apply String.eqb_neq in Hne.
  unfold Lodash.mergeKey, getField, Lodash.assignMergeValue, hasOwn.
  cbn [getOwn]. rewrite Hne.
  destruct v; destruct (getOwn tail other) as [[ | | | | | ]|];
    cbn [setOwn]; rewrite ?Hne; reflexivity.
Qed.

Lemma baseMerge_head key source :
  forall x tail,
    Lodash.baseMerge ((key, x) :: tail) source =
    (key, fold_left mergeValue (valuesAt key source) x)
    :: Lodash.baseMerge tail (withoutKey key source).
Proof.
  destruct source as [ | | b | q | s | fields]; try reflexivity.
  intros x tail. cbn [valuesAt withoutKey]. rewrite !baseMerge_object.
  revert x tail. induction fields as [|[k v] rest IH]; intros x tail;
    [reflexivity|].
  cbn [fold_left fst snd List.filter].
  destruct (String.eqb k key) eqn:E.
  - apply String.eqb_eq in E. subst k. cbn [negb map fold_left snd].
    rewrite mergeKey_head_eq. apply IH.
  - cbn [negb fold_left fst snd]. apply String.eqb_neq in E.
    rewrite mergeKey_head_ne by congruence. apply IH.
Qed.

Lemma mergeValue_object objFields vs :
  fold_left mergeValue vs (VObject objFields) =
  VObject (fold_left Lodash.baseMerge vs objFields).
Proof.
  revert objFields. induction vs as [|v rest IH]; intros objFields;
    [reflexivity|].
  cbn [fold_left].
  replace (mergeValue (VObject objFields) v)
    with (VObject (Lodash.baseMerge objFields v)) by now destruct v.
  apply IH.
Qed.

Lemma defaultsDeep_head key sources :
  forall objFields tail,
    Lodash.defaultsDeep ((key, VObject objFields) :: tail) sources =
    (key, VObject (Lodash.defaultsDeep objFields (flat_map (valuesAt key) sources)))
    :: Lodash.defaultsDeep tail (map (withoutKey key) sources).
Proof.
  unfold Lodash.defaultsDeep.
  induction sources as [|source rest IH]; intros objFields tail; [reflexivity|].
  cbn [fold_left flat_map map].
  rewrite baseMerge_head, mergeValue_object, IH, fold_left_app. reflexivity.
Qed.

(** Merged a second time from the service descriptor that the first merge
    left, the tags come out the same. *)
Lemma mergedTags_again (this : Exporter) (span : Span.t) :
  mergedTags this (spanAfterMerge this span) = mergedTags this span
  /\ spanAfterMerge this (spanAfterMerge this span) = spanAfterMerge this span.
Proof.
  unfold spanAfterMerge.
  destruct (Lodash.isObject (Span.service span)) eqn:Hobj;
    [|rewrite Hobj; auto].
  destruct (Span.service span) as [ | | b | q | s | service] eqn:Hservice;
    try discriminate.
  assert (Hmerged : mergedTags this span =
    ("service",
     VObject (Lodash.defaultsDeep service
                (flat_map (valuesAt "service")
                   [Span.tags span; defaultTags this])))
    :: Lodash.defaultsDeep []
         (map (withoutKey "service") [Span.tags span; defaultTags this])).
  { unfold mergedTags. rewrite Hservice. apply defaultsDeep_head. }
  assert (Hfield : getField (mergedTags this span) "service" =
    VObject (Lodash.defaultsDeep service
               (flat_map (valuesAt "service")
                  [Span.tags span; defaultTags this]))).
  { rewrite Hmerged. reflexivity. }
  set (after := Span.withService span (getField (mergedTags this span) "service")).
  assert (Hafter : Span.service after = getField (mergedTags this span) "service")
    by reflexivity.
  assert (Hagain : mergedTags this after = mergedTags this span).
  { rewrite Hmerged. unfold mergedTags at 1. rewrite Hafter, Hfield.
    change (Span.tags after) with (Span.tags span).
    rewrite defaultsDeep_head, defaultsDeep_again. reflexivity. }
  split; [exact Hagain|].
  rewrite Hafter, Hfield. cbn [Lodash.isObject]. rewrite Hagain. reflexivity.
Qed.

Lemma kept_object_inv old v :
  kept (VObject old) v ->
  exists new,
    v = VObject new /\ forall key, kept (getField old key) (getField new key).
Proof.
  intros Hkept. inversion Hkept as [ | w [_ Hw] | o new Hfields]; subst.
  - discriminate.
  - eauto.
Qed.

Section ExportAgain.
Context `{BaseTraceExporter}.

(** X26: exporting a span a second time changes nothing more. When
    [generateJaegerSpan] has converted a span whose service name is a
    scalar, a second call on the span as the first call left it, with the
    exporter as the first call left it, returns an equal span of the same
    tracer and leaves the span and the exporter as they are: the merge that
    wrote into [span.service] finds nothing to add. The client is taken to
    give the second span the context [own] again; the tags and the default
    tags are taken to be plain. *)
Theorem generateJaegerSpan_again (own : Jaeger.SpanContext) (span span' : Span.t)
  (this this' : Exporter) (js : Jaeger.Span) (serviceName : value) :
  plainSource (Span.tags span) ->
  plainSource (defaultTags this) ->
  get (Span.service span) "name" = Ok serviceName ->
  definedScalar serviceName ->
  generateJaegerSpan own span this = (Ok js, (span', this')) ->
  generateJaegerSpan own span' this' = (Ok js, (span', this')).
Proof.
  intros _ _ Hname Hscalar Hrun. apply generateJaegerSpan_Ok in Hrun.
  destruct Hrun as (serviceName' & tracer & parentCtx
                    & Hservice & Hget & Hparent & Hfinish & ->).
  assert (Htruthy : truthy (Span.service span) = true).
  { unfold serviceNameOf in Hservice.
    destruct (truthy (Span.service span)); [reflexivity|].
    injection Hservice as <-.
    apply finishJaegerSpan_Ok in Hfinish.
    destruct Hfinish as (? & ? & ? & ? & _ & _ & _ & Hfree & _). discriminate. }
  assert (serviceName' = serviceName) as ->.
  { unfold serviceNameOf in Hservice. rewrite Htruthy in Hservice. congruence. }
  destruct (mergedTags_again this' span) as [Hmerged Hafter].
  assert (Hservice' :
    serviceNameOf (spanAfterMerge this' span) = Ok serviceName).
  { unfold spanAfterMerge.
    destruct (Lodash.isObject (Span.service span)) eqn:Hobj; [|exact Hservice].
    destruct (Span.service span) as [ | | b | q | s | service] eqn:Hs;
      try discriminate.
    assert (Hkept : kept (Span.service span)
                      (getField (mergedTags this' span) "service")).
    { apply (kept_field [("service", Span.service span)] _ "service").
      apply defaultsDeep_kept. }
    rewrite Hs in Hkept at 1.
    apply kept_object_inv in Hkept as (new & Hnew & Hfields).
    unfold serviceNameOf. cbn [Span.service Span.withService].
    rewrite Hnew. cbn [truthy get]. f_equal.
    rewrite ?Hs in Hname. cbn [get] in Hname. injection Hname as Hname.
    specialize (Hfields "name"). rewrite Hname in Hfields.
    exact (kept_scalar_eq _ _ Hscalar Hfields). }
  unfold generateJaegerSpan.
  rewrite Hservice', (getTracer_again _ _ _ _ Hget).
  assert (Hparent' : parentContext (spanAfterMerge this' span) = Ok parentCtx).
  { rewrite <- Hparent. unfold spanAfterMerge.
    now destruct (Lodash.isObject (Span.service span)). }
  rewrite Hparent', Hmerged, Hafter. f_equal.
  rewrite <- Hfinish. unfold spanAfterMerge.
  now destruct (Lodash.isObject (Span.service span)).
Qed.

End ExportAgain.

(** X26 on an input: a span of service [posts] whose tags hold
    [service.version], exported twice. *)
Lemma generateJaegerSpan_again_witness :
  let this := Sample.exporter Sample.constConfig VNull in
  let span := Sample.span VNull
                (VObject [("service", VObject [("version", VNumber 1)])])
                VUndefined in
  let first := @generateJaegerSpan specBase Sample.ownContext span this in
  @generateJaegerSpan specBase Sample.ownContext (fst (snd first)) (snd (snd first)) =
  first.
Proof.
  intros this span first.
  destruct first as [[js|e] [span' this']] eqn:Hrun;
    [|vm_compute in Hrun; discriminate].
  apply (@generateJaegerSpan_again specBase Sample.ownContext span span'
           this this' js (VString "posts")).
  - split; [intros s Hs; vm_compute in Hs; discriminate Hs | reflexivity].
  - split; [intros s Hs; vm_compute in Hs; discriminate Hs | reflexivity].
  - reflexivity.
  - split; [discriminate | reflexivity].
  - exact Hrun.
Defined.
